(** * Media automation suite: SceneValidator and StoryboardGen

    A shallow embedding of [tools/scene_validator/scene_validator.py] and
    [tools/storyboard_gen/storyboard_gen.py], and the properties of the
    screenplay segmentation, the shot breakdown, the frame synthesis, the
    composition and continuity heuristics and the validation run.

    Conventions of the embedding.
    - A Python [str] is a [string]; each [ascii] stands for the code point
      of the same number, so the texts covered are those over code points
      below 256.
    - A Python [float] is a binary64 number, [PrimFloat.float]; the
      arithmetic of the heuristics is the IEEE arithmetic of the source.
    - A Python exception is a value of [exn]; code that can raise returns
      a [result].
    - External collaborators (the file system, the annotation service, the
      generation service, the JSON parser of the Python library) are
      variables of the sections that use them. *)

From Stdlib Require Import List String Ascii ZArith Lia Bool Arith.
From Stdlib Require Import Floats DecimalString DecimalNat.
Import ListNotations.

Set Warnings "-inexact-float,-register-all".

(* ================================================================== *)
(** * Python runtime: strings, exceptions *)
(* ================================================================== *)

Module Py.

Local Open Scope string_scope.

(** Exceptions the two tools raise or meet. *)
Inductive exn : Type :=
| FileNotFoundError
| ValueError
| OverflowError
| TypeError
| KeyError
| IndexError
| AttributeError
| JSONDecodeError
| ServiceError.

Inductive result (A : Type) : Type :=
| Ok (a : A)
| Raise (e : exn).

Arguments Ok {A} a.
Arguments Raise {A} e.

Definition rbind {A B : Type} (m : result A) (f : A -> result B) : result B :=
  match m with
  | Ok a => f a
  | Raise e => Raise e
  end.

(** [str.isspace] on one character, for code points below 256: the
    characters [str.strip()] removes and the class [\s] of [re]. *)
Definition isspace (c : ascii) : bool :=
  let n := nat_of_ascii c in
  (((9 <=? n) && (n <=? 13)) || ((28 <=? n) && (n <=? 32))
   || (n =? 133) || (n =? 160))%nat.

Definition LF : ascii := "010"%char.

(** The two-character text that separates paragraphs. *)
Definition blank_line : string := String LF (String LF EmptyString).

Definition nonempty (s : string) : bool :=
  match s with
  | EmptyString => false
  | String _ _ => true
  end.

(** [s.lstrip()], [s.rstrip()], [s.strip()]. *)
Fixpoint lstrip (s : string) : string :=
  match s with
  | EmptyString => EmptyString
  | String c s' => if isspace c then lstrip s' else s
  end.

Fixpoint rstrip (s : string) : string :=
  match s with
  | EmptyString => EmptyString
  | String c s' =>
      match rstrip s' with
      | EmptyString => if isspace c then EmptyString else String c EmptyString
      | r => String c r
      end
  end.

Definition strip (s : string) : string := rstrip (lstrip s).

(** [s[n:]] and [s[a:b]] for indices within the text. *)
Fixpoint drop (n : nat) (s : string) : string :=
  match n, s with
  | O, _ => s
  | S _, EmptyString => EmptyString
  | S n', String _ s' => drop n' s'
  end.

Definition slice (s : string) (a b : nat) : string := substring a (b - a) s.

(** [s.startswith(p)], returning what follows [p]. *)
Fixpoint strip_prefix (p s : string) : option string :=
  match p, s with
  | EmptyString, _ => Some s
  | String a p', String b s' =>
      if Ascii.eqb a b then strip_prefix p' s' else None
  | String _ _, EmptyString => None
  end.

Definition rev_string (s : string) : string :=
  string_of_list_ascii (rev (list_ascii_of_string s)).

(** [s.split(sep)] for a non-empty separator: the text is cut at the
    occurrences of [sep] found from left to right, none overlapping
    another.  [cur] holds the current piece backwards, [skip] counts the
    characters of a separator still to pass. *)
Fixpoint split_loop (sep : string) (s : string) (cur : string) (skip : nat)
  : list string :=
  match s with
  | EmptyString => [rev_string cur]
  | String c s' =>
      match skip with
      | S k => split_loop sep s' cur k
      | O =>
          match strip_prefix sep s with
          | Some _ =>
              rev_string cur :: split_loop sep s' EmptyString (String.length sep - 1)
          | None => split_loop sep s' (String c cur) 0
          end
      end
  end.

Definition split (sep s : string) : list string :=
  split_loop sep s EmptyString 0.

(** [s.replace(old, new)] for a non-empty [old]. *)
Fixpoint replace_loop (old new : string) (s : string) (skip : nat) : string :=
  match s with
  | EmptyString => EmptyString
  | String c s' =>
      match skip with
      | S k => replace_loop old new s' k
      | O =>
          match strip_prefix old s with
          | Some _ => new ++ replace_loop old new s' (String.length old - 1)
          | None => String c (replace_loop old new s' 0)
          end
      end
  end.

Definition replace (old new s : string) : string := replace_loop old new s 0.

(** [sep.join(parts)]. *)
Fixpoint join (sep : string) (parts : list string) : string :=
  match parts with
  | [] => EmptyString
  | [p] => p
  | p :: rest => p ++ sep ++ join sep rest
  end.

(** [str(n)] for a natural number: its decimal digits. *)
Definition str_of_nat (n : nat) : string :=
  NilEmpty.string_of_uint (Nat.to_uint n).

(** [os.path.join(a, b)] for a relative [b] on a POSIX system. *)
Definition path_join (a b : string) : string :=
  match rev_string a with
  | EmptyString => b
  | String c _ => if Ascii.eqb c "/"%char then a ++ b else a ++ "/" ++ b
  end.


(** Every character of [s] is a blank. *)
Fixpoint all_space (s : string) : bool :=
  match s with
  | EmptyString => true
  | String c s' => isspace c && all_space s'
  end.

Definition first_char (s : string) : option ascii :=
  match s with
  | EmptyString => None
  | String c _ => Some c
  end.

Fixpoint last_char (s : string) : option ascii :=
  match s with
  | EmptyString => None
  | String c EmptyString => Some c
  | String _ s' => last_char s'
  end.

Definition is_blank (c : option ascii) : bool :=
  match c with
  | Some c => isspace c
  | None => false
  end.

(** A Python [dict] with text keys: its items in insertion order, each
    key once.  Assigning to a key already there replaces its value where
    it stands; a new key goes to the end. *)
Definition dict (V : Type) : Type := list (string * V).

Fixpoint dict_get {V : Type} (d : dict V) (k : string) : option V :=
  match d with
  | [] => None
  | (k', v) :: d' => if String.eqb k k' then Some v else dict_get d' k
  end.

Definition dict_mem {V : Type} (d : dict V) (k : string) : bool :=
  match dict_get d k with
  | Some _ => true
  | None => false
  end.

Fixpoint dict_set {V : Type} (d : dict V) (k : string) (v : V) : dict V :=
  match d with
  | [] => [(k, v)]
  | (k', v') :: d' =>
      if String.eqb k k' then (k, v) :: d' else (k', v') :: dict_set d' k v
  end.

Definition dict_keys {V : Type} (d : dict V) : list string := map fst d.

(** [d[k]], which raises [KeyError] for a key that is absent. *)
Definition dict_item {V : Type} (d : dict V) (k : string) : result V :=
  match dict_get d k with
  | Some v => Ok v
  | None => Raise KeyError
  end.

(** [l[i]], which raises [IndexError] past the end. *)
Definition list_item {A : Type} (l : list A) (i : nat) : result A :=
  match nth_error l i with
  | Some a => Ok a
  | None => Raise IndexError
  end.

(** [x in l] for a list of texts. *)
Definition str_in (x : string) (l : list string) : bool :=
  existsb (String.eqb x) l.

(** Values [json.loads] returns. *)
Inductive json : Type :=
| JNull
| JBool (b : bool)
| JInt (z : Z)
| JFloat (f : float)
| JStr (s : string)
| JArr (items : list json)
| JObj (fields : dict json).

(** [len(v)]: defined for texts, lists and dicts. *)
Definition py_len (v : json) : result nat :=
  match v with
  | JStr s => Ok (String.length s)
  | JArr items => Ok (List.length items)
  | JObj fields => Ok (List.length fields)
  | _ => Raise TypeError
  end.

(** The values [for x in v] goes through: the items of a list, the keys
    of a dict, the characters of a text. *)
Definition py_iter (v : json) : result (list json) :=
  match v with
  | JArr items => Ok items
  | JObj fields => Ok (map (fun kv => JStr (fst kv)) fields)
  | JStr s => Ok (map (fun c => JStr (String c EmptyString)) (list_ascii_of_string s))
  | _ => Raise TypeError
  end.

(** [v[k]] for a text key [k]. *)
Definition py_getitem (v : json) (k : string) : result json :=
  match v with
  | JObj fields => dict_item fields k
  | _ => Raise TypeError
  end.

(** [v.get(k, default)]; only a dict has the method. *)
Definition py_get (v : json) (k : string) (default : json) : result json :=
  match v with
  | JObj fields =>
      match dict_get fields k with
      | Some x => Ok x
      | None => Ok default
      end
  | _ => Raise AttributeError
  end.

(** ** Numbers *)

(** [float(z)] for an integer: the nearest binary64 number. *)
Definition float_of_Z (z : Z) : float :=
  SF2Prim (binary_normalize prec emax z 0 false).

(** [a / b] for two integers, each of magnitude at most [2^53] (so that
    each is a binary64 number) and [b] not zero: the nearest binary64
    number to the quotient. *)
Definition int_truediv (a b : Z) : float :=
  (float_of_Z a / float_of_Z b)%float.

(** [int(x)]: the integer part; not a number and the infinities raise. *)
Definition py_int (x : float) : result Z :=
  match Prim2SF x with
  | S754_nan => Raise ValueError
  | S754_infinity _ => Raise OverflowError
  | S754_zero _ => Ok 0%Z
  | S754_finite s m e =>
      let a := if (0 <=? e)%Z then (Zpos m * 2 ^ e)%Z
               else (Zpos m / 2 ^ (- e))%Z in
      Ok (if s then (- a)%Z else a)
  end.

(** [max(l, key=key)]: the first item whose key no later key exceeds. *)
Fixpoint max_loop {A : Type} (key : A -> result float)
  (best : A) (best_key : float) (rest : list A) : result A :=
  match rest with
  | [] => Ok best
  | x :: rest' =>
      rbind (key x) (fun kx =>
        if (best_key <? kx)%float then max_loop key x kx rest'
        else max_loop key best best_key rest')
  end.

Definition py_max {A : Type} (key : A -> result float) (l : list A) : result A :=
  match l with
  | [] => Raise ValueError
  | x :: rest => rbind (key x) (fun kx => max_loop key x kx rest)
  end.


(** ** Texts: case, search, words *)

(** [c.lower()] for one code point below 256: the letters A to Z and
    the capital letters of Latin-1 (192 to 222 without the sign 215). *)
Definition lower_char (c : ascii) : ascii :=
  let n := nat_of_ascii c in
  if (((65 <=? n) && (n <=? 90))
      || ((192 <=? n) && (n <=? 222) && negb (n =? 215)))%nat
  then ascii_of_nat (n + 32) else c.

(** [s.lower()] *)
Fixpoint lower (s : string) : string :=
  match s with
  | EmptyString => EmptyString
  | String c s' => String (lower_char c) (lower s')
  end.

(** [sub in s] for two texts. *)
Fixpoint contains (sub s : string) : bool :=
  match strip_prefix sub s with
  | Some _ => true
  | None =>
      match s with
      | EmptyString => false
      | String _ s' => contains sub s'
      end
  end.

(** [s.split()]: the words of [s], its longest runs of characters that
    are not blanks.  A character that is no blank opens a word when a
    blank or the end follows it, and extends the next word otherwise. *)
Fixpoint split_ws (s : string) : list string :=
  match s with
  | EmptyString => []
  | String c s' =>
      if isspace c then split_ws s'
      else
        match split_ws s' with
        | w :: ws =>
            if is_blank (first_char s') then String c EmptyString :: w :: ws
            else String c w :: ws
        | [] => [String c EmptyString]
        end
  end.

(** The characters of a text that are not blanks. *)
Fixpoint ink (s : string) : list ascii :=
  match s with
  | EmptyString => []
  | String c s' => if isspace c then ink s' else c :: ink s'
  end.

(** The truth value of an optional text: [None] and the empty text are
    false. *)
Definition given (s : option string) : bool :=
  match s with
  | Some (String _ _) => true
  | _ => false
  end.

(** The truth value of a value of [json.loads]. *)
Definition py_truthy (v : json) : bool :=
  match v with
  | JNull => false
  | JBool b => b
  | JInt z => negb (z =? 0)%Z
  | JFloat f => negb (f =? 0)%float
  | JStr s => nonempty s
  | JArr items => match items with [] => false | _ :: _ => true end
  | JObj fields => match fields with [] => false | _ :: _ => true end
  end.

(** The texts among [items], when all of them are texts. *)
Fixpoint all_texts (items : list json) : option (list string) :=
  match items with
  | [] => Some []
  | JStr s :: rest => option_map (cons s) (all_texts rest)
  | _ :: _ => None
  end.

(** [sep.join(v)]: [v] must be an iterable of texts; a dict gives its
    keys and a text its characters. *)
Definition py_join (sep : string) (v : json) : result string :=
  match v with
  | JArr items =>
      match all_texts items with
      | Some l => Ok (join sep l)
      | None => Raise TypeError
      end
  | JObj fields => Ok (join sep (dict_keys fields))
  | JStr s =>
      Ok (join sep (map (fun c => String c EmptyString) (list_ascii_of_string s)))
  | _ => Raise TypeError
  end.

(** [len(set(l))] for a list of texts. *)
Definition count_distinct (l : list string) : nat :=
  List.length (nodup string_dec l).

(** A word: a text that is not empty and holds no blank. *)
Definition is_word (w : string) : bool :=
  nonempty w && forallb (fun c => negb (isspace c)) (list_ascii_of_string w).

(** A text that is its words joined by single blanks. *)
Definition tidy (l : string) : Prop := l = join " " (split_ws l).

End Py.

(* ================================================================== *)
(** * The part of Python's [re] the script parser uses *)
(* ================================================================== *)

Module Re.

Import Py.
Local Open Scope string_scope.

(** Patterns: literals, alternation, sequence, a one-character class
    repeated once or more (greedy [+] or lazy [+?]), a capturing group, a
    lookahead [(?=...)] and the end of text [\Z]. *)
Inductive regex : Type :=
| Lit (l : string)
| Alt (r1 r2 : regex)
| Cat (r1 r2 : regex)
| Plus (greedy : bool) (cls : ascii -> bool)
| Group (r : regex)
| Ahead (r : regex)
| EndZ.

(** What a successful match hands on: the text left, the groups closed. *)
Definition cont : Type := string -> list string -> option (string * list string).

(** [c+]: as many characters of the class as possible first, one fewer
    on each failure of what follows. *)
Fixpoint plus_greedy (cls : ascii -> bool) (s : string)
  (k : string -> option (string * list string)) : option (string * list string) :=
  match s with
  | EmptyString => None
  | String c s' =>
      if cls c then
        match plus_greedy cls s' k with
        | Some x => Some x
        | None => k s'
        end
      else None
  end.

(** [c+?]: one character first, one more on each failure of what follows. *)
Fixpoint plus_lazy (cls : ascii -> bool) (s : string)
  (k : string -> option (string * list string)) : option (string * list string) :=
  match s with
  | EmptyString => None
  | String c s' =>
      if cls c then
        match k s' with
        | Some x => Some x
        | None => plus_lazy cls s' k
        end
      else None
  end.

(** The text a match consumed between [s] and its suffix [s']. *)
Definition consumed (s s' : string) : string :=
  substring 0 (String.length s - String.length s') s.

(** Backtracking matcher: the first success in the engine's order of
    preference. *)
Fixpoint rmatch (r : regex) (s : string) (caps : list string) (k : cont)
  : option (string * list string) :=
  match r with
  | Lit l =>
      match strip_prefix l s with
      | Some s' => k s' caps
      | None => None
      end
  | Alt r1 r2 =>
      match rmatch r1 s caps k with
      | Some x => Some x
      | None => rmatch r2 s caps k
      end
  | Cat r1 r2 => rmatch r1 s caps (fun s' caps' => rmatch r2 s' caps' k)
  | Plus greedy cls =>
      (if greedy then plus_greedy else plus_lazy) cls s (fun s' => k s' caps)
  | Group r1 =>
      rmatch r1 s caps (fun s' caps' => k s' (caps' ++ [consumed s s'])%list)
  | Ahead r1 =>
      match rmatch r1 s caps (fun s' caps' => Some (s', caps')) with
      | Some _ => k s caps
      | None => None
      end
  | EndZ =>
      match s with
      | EmptyString => k s caps
      | String _ _ => None
      end
  end.

(** The pattern matched at the very start of [s]. *)
Definition match_here (r : regex) (s : string) : option (string * list string) :=
  rmatch r s [] (fun s' caps => Some (s', caps)).

(** A match object: [start()], [end()] and [groups()]. *)
Record Match : Type := mkMatch {
  m_start : nat;
  m_end : nat;
  m_groups : list string
}.

(** The leftmost match in [s], which begins at offset [start] of the text. *)
Fixpoint search_from (r : regex) (s : string) (start : nat) : option Match :=
  match match_here r s with
  | Some (s', caps) => Some (mkMatch start (start + (String.length s - String.length s')) caps)
  | None =>
      match s with
      | EmptyString => None
      | String _ s' => search_from r s' (S start)
      end
  end.

(** [pattern.search(text, pos)]. *)
Definition search (r : regex) (text : string) (pos : nat) : option Match :=
  search_from r (drop pos text) pos.

(** [pattern.finditer(text)] for a pattern that matches no empty text:
    each search resumes where the last match ended. *)
Fixpoint finditer_from (fuel : nat) (r : regex) (text : string) (pos : nat)
  : list Match :=
  match fuel with
  | O => []
  | S fuel' =>
      match search r text pos with
      | None => []
      | Some m => m :: finditer_from fuel' r text (m_end m)
      end
  end.

Definition finditer (r : regex) (text : string) : list Match :=
  finditer_from (S (String.length text)) r text 0.

(** [pattern.findall(text)] for a pattern with two groups: the pairs of
    group texts. *)
Definition group_pair (m : Match) : string * string :=
  (nth 0 (m_groups m) EmptyString, nth 1 (m_groups m) EmptyString).

Definition findall (r : regex) (text : string) : list (string * string) :=
  map group_pair (finditer r text).

(** The least number of characters a pattern consumes. *)
Fixpoint min_len (r : regex) : nat :=
  match r with
  | Lit l => String.length l
  | Alt r1 r2 => Nat.min (min_len r1) (min_len r2)
  | Cat r1 r2 => min_len r1 + min_len r2
  | Plus _ _ => 1
  | Group r1 => min_len r1
  | Ahead _ => 0
  | EndZ => 0
  end.

(** The end of the last match, or [pos] when there is none. *)
Definition last_end (pos : nat) (ms : list Match) : nat :=
  fold_left (fun _ m => m_end m) ms pos.

End Re.

(* ================================================================== *)
(** * StoryboardGen: screenplay segmentation *)
(* ================================================================== *)

Module StoryboardGen.

Import Py Re.
Local Open Scope string_scope.

(** An entry of [script_scenes]. *)
Record Scene : Type := mkScene {
  scene_id : string;
  heading : string;
  content : string
}.

(** [re.compile(r'(INT\.|EXT\.)\s+(.+?)(?=\n\n|\Z)', re.DOTALL)] *)
Definition scene_pattern : regex :=
  Cat (Group (Alt (Lit "INT.") (Lit "EXT.")))
    (Cat (Plus true isspace)
       (Cat (Group (Plus false (fun _ => true)))
          (Ahead (Alt (Lit blank_line) EndZ)))).

(** A marker that can start a match of the pattern stands at the start of
    [s]: INT. or EXT., then a blank, then one more character. *)
Definition marker_here (s : string) : bool :=
  match strip_prefix "INT." s, strip_prefix "EXT." s with
  | Some (String c (String _ _)), _ => isspace c
  | None, Some (String c (String _ _)) => isspace c
  | _, _ => false
  end.

(** The loop of the branch without scene headings, over
    [enumerate(chunks)] from index [i]. *)
Fixpoint paragraph_scenes (i : nat) (chunks : list string) : list Scene :=
  match chunks with
  | [] => []
  | chunk :: rest =>
      if nonempty (strip chunk) then
        mkScene ("scene_" ++ str_of_nat (i + 1))
                ("Scene " ++ str_of_nat (i + 1))
                (strip chunk)
        :: paragraph_scenes (S i) rest
      else paragraph_scenes (S i) rest
  end.

(** The loop of the screenplay branch, over [enumerate(scenes)] from
    index [i], with [n = len(scenes)] and the running
    [current_position]. *)
Fixpoint heading_scenes (script_text : string) (n : nat) (i : nat)
  (current_position : nat) (scenes : list (string * string)) : list Scene :=
  match scenes with
  | [] => []
  | (location_type, scene_content) :: rest =>
      let scene_heading :=
        location_type ++ " " ++ strip (hd EmptyString (split "(" scene_content)) in
      match search scene_pattern script_text current_position with
      | Some match_obj =>
          let start := m_start match_obj in
          let end_ := m_end match_obj in
          let scene_end :=
            if (i <? n - 1)%nat then
              match search scene_pattern script_text end_ with
              | Some next_match => m_start next_match
              | None => String.length script_text
              end
            else String.length script_text in
          mkScene ("scene_" ++ str_of_nat (i + 1))
                  scene_heading
                  (strip (slice script_text start scene_end))
          :: heading_scenes script_text n (S i) end_ rest
      | None => heading_scenes script_text n (S i) current_position rest
      end
  end.

(** The heading the screenplay branch gives the scene of a match. *)
Definition heading_of (m : Match) : string :=
  fst (group_pair m) ++ " "
  ++ strip (hd EmptyString (split "(" (snd (group_pair m)))).


(** The scenes the screenplay branch is to produce for the matches [ms],
    the first of them numbered [i + 1]. *)
Fixpoint heading_spans (text : string) (i : nat) (ms : list Match) : list Scene :=
  match ms with
  | [] => []
  | m :: rest =>
      mkScene ("scene_" ++ str_of_nat (i + 1)) (heading_of m)
        (strip (slice text (m_start m)
                  (match rest with
                   | m' :: _ => m_start m'
                   | [] => String.length text
                   end)))
      :: heading_spans text (S i) rest
  end.

Definition para_example : string :=
  "a" ++ blank_line ++ "  " ++ blank_line ++ " b ".

Definition heading_example : string :=
  "INT. ROOM - DAY" ++ blank_line ++ "Ann waits." ++ blank_line
  ++ "EXT. ROAD - NIGHT" ++ blank_line ++ "Bob runs.".

(** [_parse_script]: the value left in [self.script_scenes]. *)
Definition _parse_script (script_text : string) : list Scene :=
  let scenes := findall scene_pattern script_text in
  match scenes with
  | [] => paragraph_scenes 0 (split blank_line script_text)
  | _ :: _ => heading_scenes script_text (List.length scenes) 0 0 scenes
  end.


(** ** Sample texts *)

Definition line (s : string) : string := s ++ String LF EmptyString.

(** The start of the sample script of the module, with its indentation. *)
Definition demo_script : string :=
  line ""
  ++ line "    INT. COFFEE SHOP - DAY"
  ++ line "    "
  ++ line "    JOHN sits alone."
  ++ line ""
  ++ line "    EXT. PARKING LOT - MOMENTS LATER"
  ++ line ""
  ++ line "   John and Sarah exit. (whispering)"
  ++ "   ".

Definition spans (text : string) : list (nat * nat) :=
  map (fun m => (m_start m, m_end m)) (finditer scene_pattern text).

(** ** Shot breakdown and frame synthesis *)

(** A [StoryboardFrame].  The fields copied from a shot keep the JSON
    value the shot holds. *)
Record StoryboardFrame : Type := mkFrame {
  frame_id : string;
  frame_scene_id : string;
  description : json;
  image_path : string;
  timestamp : option string;
  shot_type : json;
  camera_movement : json;
  characters : json;
  notes : string
}.

(** The keys of [SHOT_TYPES] and of [CAMERA_MOVEMENTS], in the order of
    the class. *)
Definition SHOT_TYPES : list string :=
  ["ECU"; "CU"; "MCU"; "MS"; "MLS"; "LS"; "ELS"; "WS"; "OTS"; "POV";
   "AERIAL"; "LOW"; "HIGH"; "DUTCH"].

Definition CAMERA_MOVEMENTS : list string :=
  ["STATIC"; "PAN"; "TILT"; "DOLLY"; "TRUCK"; "CRANE"; "HANDHELD";
   "STEADICAM"; "ZOOM"].

Definition dq : string := String "034"%char EmptyString.
Definition fence : string := "```".

(** One line of the prompt template, with the indentation it has in the
    source. *)
Definition prompt_line (s : string) : string :=
  "        " ++ s ++ String LF EmptyString.

Definition quoted (s : string) : string := dq ++ s ++ dq.

(** The prompt [_analyze_scene_for_shots] sends for a scene. *)
Definition shot_prompt (scene : Scene) : string :=
  String LF EmptyString
  ++ prompt_line "You are a professional storyboard artist and film director. Analyze this scene and break it down into 3-5 key shots."
  ++ prompt_line ""
  ++ prompt_line "SCENE:"
  ++ prompt_line (heading scene)
  ++ prompt_line ""
  ++ prompt_line (content scene)
  ++ prompt_line ""
  ++ prompt_line "For each shot, provide:"
  ++ prompt_line "1. A brief description of what happens in the shot"
  ++ prompt_line ("2. The shot type (choose from: " ++ join ", " SHOT_TYPES ++ ")")
  ++ prompt_line ("3. Camera movement (choose from: " ++ join ", " CAMERA_MOVEMENTS ++ ")")
  ++ prompt_line "4. Any characters in the shot"
  ++ prompt_line "5. Any important visual elements to include"
  ++ prompt_line ""
  ++ prompt_line "Format your response as a JSON array of shot objects with the following properties:"
  ++ prompt_line "["
  ++ prompt_line "    {"
  ++ prompt_line ("        " ++ quoted "description" ++ ": " ++ quoted "Description of the shot" ++ ",")
  ++ prompt_line ("        " ++ quoted "shot_type" ++ ": " ++ quoted "One of the shot types listed above" ++ ",")
  ++ prompt_line ("        " ++ quoted "camera_movement" ++ ": " ++ quoted "One of the camera movements listed above" ++ ",")
  ++ prompt_line ("        " ++ quoted "characters" ++ ": [" ++ quoted "Character1" ++ ", " ++ quoted "Character2" ++ "],")
  ++ prompt_line ("        " ++ quoted "visual_elements" ++ ": [" ++ quoted "Element1" ++ ", " ++ quoted "Element2" ++ "]")
  ++ prompt_line "    }"
  ++ prompt_line "]"
  ++ prompt_line ""
  ++ prompt_line "ONLY respond with the JSON array, nothing else."
  ++ "        ".

(** The list both handlers of [_analyze_scene_for_shots] return. *)
Definition fallback_shot (scene : Scene) : json :=
  JObj [("description", JStr ("Establishing shot for " ++ heading scene));
        ("shot_type", JStr "WS");
        ("camera_movement", JStr "STATIC");
        ("characters", JArr []);
        ("visual_elements", JArr [])].

Definition fallback_shots (scene : Scene) : json := JArr [fallback_shot scene].

Section Analysis.

(** [self.text_model.generate_content(prompt).text]: the reply, or the
    exception the call or the reading of its text raises. *)
Variable generate_content : string -> result string.

(** [json.loads]: the value, or [JSONDecodeError]. *)
Variable json_loads : string -> result json.

(** The cleaning of the reply before it is parsed. *)
Definition clean_reply (result : string) : string :=
  strip (replace fence "" (replace (fence ++ "json") "" result)).

(** [_analyze_scene_for_shots].  The inner handler catches
    [JSONDecodeError] alone; an exception of [len(shots)] in the log
    message reaches the outer handler, which catches every exception. *)
Definition _analyze_scene_for_shots (scene : Scene) : json :=
  match generate_content (shot_prompt scene) with
  | Raise _ => fallback_shots scene
  | Ok result =>
      let result := clean_reply result in
      match json_loads result with
      | Raise JSONDecodeError => fallback_shots scene
      | Raise _ => fallback_shots scene
      | Ok shots =>
          match py_len shots with
          | Ok _ => shots
          | Raise _ => fallback_shots scene
          end
      end
  end.

(** The generation call for the scene fails, or its reply cannot be
    parsed as JSON. *)
Definition reply_unusable (scene : Scene) : Prop :=
  match generate_content (shot_prompt scene) with
  | Raise _ => True
  | Ok reply => exists e, json_loads (clean_reply reply) = Raise e
  end.

End Analysis.

Section Frames.

(** What [_generate_image_for_shot] does once it has read the shot: the
    drawing of the placeholder and [image.save(image_path)]. *)
Variable draw_placeholder : Scene -> json -> string -> result unit.

(** [_generate_image_for_shot]: the shot's type, movement and
    description are read before anything is drawn. *)
Definition _generate_image_for_shot (scene : Scene) (shot : json)
  (image_path : string) : result unit :=
  rbind (py_getitem shot "shot_type") (fun _ =>
  rbind (py_getitem shot "camera_movement") (fun _ =>
  rbind (py_getitem shot "description") (fun _ =>
  draw_placeholder scene shot image_path))).

(** The body of the [try] in [_generate_frames_for_shots]. *)
Definition make_frame (scene : Scene) (shot : json) (frame_id image_path : string)
  : result StoryboardFrame :=
  rbind (_generate_image_for_shot scene shot image_path) (fun _ =>
  rbind (py_getitem shot "description") (fun d =>
  rbind (py_getitem shot "shot_type") (fun t =>
  rbind (py_getitem shot "camera_movement") (fun m =>
  rbind (py_get shot "characters" (JArr [])) (fun c =>
  Ok (mkFrame frame_id (scene_id scene) d image_path None t m c
        ("Generated for " ++ heading scene))))))).

(** The loop of [_generate_frames_for_shots] over [enumerate(shots)]
    from index [i]: a shot whose frame cannot be made is passed over. *)
Fixpoint frames_loop (scene : Scene) (output_dir : string) (i : nat)
  (shots : list json) : list StoryboardFrame :=
  match shots with
  | [] => []
  | shot :: rest =>
      let frame_id := scene_id scene ++ "_shot_" ++ str_of_nat (i + 1) in
      let image_path := path_join output_dir (frame_id ++ ".png") in
      match make_frame scene shot frame_id image_path with
      | Ok frame => frame :: frames_loop scene output_dir (S i) rest
      | Raise _ => frames_loop scene output_dir (S i) rest
      end
  end.

Definition _generate_frames_for_shots (scene : Scene) (shots : json)
  (output_dir : string) : result (list StoryboardFrame) :=
  rbind (py_iter shots) (fun items => Ok (frames_loop scene output_dir 0 items)).

(** The id of the frame of the shot at position [k] of a scene. *)
Definition frame_name (scene : Scene) (k : nat) : string :=
  scene_id scene ++ "_shot_" ++ str_of_nat k.

(** The frame the shot [snd ks] at index [fst ks] gives, if any. *)
Definition frame_at (scene : Scene) (output_dir : string) (ks : nat * json)
  : list StoryboardFrame :=
  match make_frame scene (snd ks) (frame_name scene (fst ks + 1))
          (path_join output_dir (frame_name scene (fst ks + 1) ++ ".png")) with
  | Ok frame => [frame]
  | Raise _ => []
  end.

End Frames.

Section Run.

(** The generation service over a run: [text_model n] is its reply to
    call number [n], counted from 0. *)
Variable text_model : nat -> string -> result string.
Variable json_loads : string -> result json.
Variable draw_placeholder : Scene -> json -> string -> result unit.

(** [_save_frames_to_firebase]: the uploads and document writes. *)
Variable upload_frames : list StoryboardFrame -> result unit.

(** The loop of [generate_storyboard] over [self.script_scenes];
    [frames] is [self.frames] and [calls] the number of generation
    calls made so far. *)
Fixpoint storyboard_loop (use_firebase : bool) (output_dir : string)
  (calls : nat) (frames : list StoryboardFrame) (script_scenes : list Scene)
  : result (list StoryboardFrame) :=
  match script_scenes with
  | [] => Ok frames
  | scene :: rest =>
      let shots := _analyze_scene_for_shots (text_model calls) json_loads scene in
      rbind (_generate_frames_for_shots draw_placeholder scene shots output_dir)
        (fun scene_frames =>
      let frames := (frames ++ scene_frames)%list in
      rbind (if use_firebase then upload_frames scene_frames else Ok tt) (fun _ =>
      storyboard_loop use_firebase output_dir (S calls) frames rest))
  end.

(** [generate_storyboard], with [output_dir] already chosen (the
    argument, or the working directory when none is given). *)
Definition generate_storyboard (use_firebase : bool) (script_scenes : list Scene)
  (output_dir : string) : result (list StoryboardFrame) :=
  match script_scenes with
  | [] => Raise ValueError
  | _ :: _ => storyboard_loop use_firebase output_dir 0 [] script_scenes
  end.

(** The frames of the scene analysed by call [n]. *)
Definition segment_frames (output_dir : string) (ns : nat * Scene)
  : list StoryboardFrame :=
  frames_loop draw_placeholder (snd ns) output_dir 0
    (match py_iter (_analyze_scene_for_shots (text_model (fst ns)) json_loads (snd ns)) with
     | Ok items => items
     | Raise _ => []
     end).

End Run.

(** ** Sample services and shots *)

Definition gap_scene : Scene := mkScene "scene_1" "INT. ROOM" "INT. ROOM - DAY".

Definition plain_shot (d : string) : json :=
  JObj [("description", JStr d); ("shot_type", JStr "CU");
        ("camera_movement", JStr "PAN")].

(** A renderer that fails for the second shot of [scene_1]. *)
Definition gap_draw (scene : Scene) (shot : json) (p : string) : result unit :=
  if String.eqb p "out/scene_1_shot_2.png" then Raise ServiceError else Ok tt.

Definition gap_shots : list json :=
  [plain_shot "one"; plain_shot "two"; plain_shot "three"].

Definition scene_a : Scene := mkScene "scene_1" "INT. A" "INT. A - DAY".
Definition scene_b : Scene := mkScene "scene_2" "EXT. B" "EXT. B - NIGHT".

(** A service whose first call fails and whose other calls answer with
    one shot; a parser that accepts that answer. *)
Definition one_shot_reply : string := "[one shot]".

Definition flaky_model (n : nat) (prompt : string) : result string :=
  match n with
  | O => Raise ServiceError
  | S _ => Ok (fence ++ "json" ++ one_shot_reply ++ fence)
  end.

Definition steady_model (n : nat) (prompt : string) : result string :=
  Ok one_shot_reply.

Definition tiny_loads (s : string) : result json :=
  if String.eqb s one_shot_reply then Ok (JArr [plain_shot "one"])
  else Raise JSONDecodeError.



(** ** The generator object and its methods *)

(** The attributes of a [StoryboardGen] the methods below read and
    assign.  The log of the module is left out. *)
Record Generator : Type := mkGenerator {
  project_id : string;
  use_firebase : bool;
  frames : list StoryboardFrame;
  script_text : string;
  script_scenes : list Scene;
  work_dir : string
}.

Definition set_frames (g : Generator) (l : list StoryboardFrame) : Generator :=
  mkGenerator (project_id g) (use_firebase g) l (script_text g)
    (script_scenes g) (work_dir g).

(** [self.script_text = text] followed by [self._parse_script()]. *)
Definition set_script (g : Generator) (text : string) : Generator :=
  mkGenerator (project_id g) (use_firebase g) (frames g) text
    (_parse_script text) (work_dir g).

Section Script.

(** [open(script_path, 'r')] and [f.read()]. *)
Variable read_file : string -> result string.

(** [load_script(script_path, script_text)]: an argument that is
    [None] or the empty text counts as not given. *)
Definition load_script (script_path script_text_ : option string) (g : Generator)
  : result unit * Generator :=
  if given script_path && given script_text_ then (Raise ValueError, g)
  else
    match script_path, script_text_ with
    | Some (String c p), _ =>
        match read_file (String c p) with
        | Ok text => (Ok tt, set_script g text)
        | Raise e => (Raise e, g)
        end
    | _, Some (String c t) => (Ok tt, set_script g (String c t))
    | _, _ => (Raise ValueError, g)
    end.

End Script.

Section Storyboard.

Variable text_model : nat -> string -> result string.
Variable json_loads : string -> result json.
Variable draw_placeholder : Scene -> json -> string -> result unit.
Variable upload_frames : list StoryboardFrame -> result unit.

(** [os.makedirs(output_dir, exist_ok=True)] *)
Variable makedirs : string -> result unit.

(** The loop of [generate_storyboard] with [self.frames] kept when an
    exception leaves the loop: [made] is [self.frames], [calls] the
    number of generation calls made so far. *)
Fixpoint storyboard_steps (fb : bool) (output_dir : string) (calls : nat)
  (made : list StoryboardFrame) (todo : list Scene)
  : result unit * list StoryboardFrame :=
  match todo with
  | [] => (Ok tt, made)
  | scene :: rest =>
      let shots := _analyze_scene_for_shots (text_model calls) json_loads scene in
      match _generate_frames_for_shots draw_placeholder scene shots output_dir with
      | Raise e => (Raise e, made)
      | Ok scene_frames =>
          let made := (made ++ scene_frames)%list in
          match (if fb then upload_frames scene_frames else Ok tt) with
          | Raise e => (Raise e, made)
          | Ok _ => storyboard_steps fb output_dir (S calls) made rest
          end
      end
  end.

(** The directory [generate_storyboard] writes to: the argument, made
    if need be, or the working directory when none is given. *)
Definition choose_dir (output_dir : option string) (g : Generator) : result string :=
  match output_dir with
  | Some (String c d) => rbind (makedirs (String c d)) (fun _ => Ok (String c d))
  | _ => Ok (work_dir g)
  end.

(** [generate_storyboard(output_dir)] as a method: the value returned
    and the generator afterwards. *)
Definition generate_storyboard_method (output_dir : option string) (g : Generator)
  : result (list StoryboardFrame) * Generator :=
  match script_scenes g with
  | [] => (Raise ValueError, g)
  | _ :: _ =>
      match choose_dir output_dir g with
      | Raise e => (Raise e, g)
      | Ok dir =>
          let out := storyboard_steps (use_firebase g) dir 0 [] (script_scenes g) in
          (match fst out with
           | Ok _ => Ok (snd out)
           | Raise e => Raise e
           end,
           set_frames g (snd out))
      end
  end.

End Storyboard.

(** ** The placeholder image *)

(** [SHOT_TYPES] and [CAMERA_MOVEMENTS] with their texts. *)
Definition SHOT_TYPE_TEXT : dict string :=
  [("ECU", "Extreme Close-Up - Shows a small detail like eyes or hands");
   ("CU", "Close-Up - Shows a character's face");
   ("MCU", "Medium Close-Up - Shows character from chest up");
   ("MS", "Medium Shot - Shows character from waist up");
   ("MLS", "Medium Long Shot - Shows character from knees up");
   ("LS", "Long Shot - Shows the full character");
   ("ELS", "Extreme Long Shot - Shows character in environment");
   ("WS", "Wide Shot - Shows the entire setting");
   ("OTS", "Over-The-Shoulder - Shot from behind a character looking at another subject");
   ("POV", "Point of View - Shot from character's perspective");
   ("AERIAL", "Aerial Shot - Shot from high above the scene");
   ("LOW", "Low Angle - Shot from below looking up");
   ("HIGH", "High Angle - Shot from above looking down");
   ("DUTCH", "Dutch Angle - Camera is tilted for disorienting effect")].

Definition CAMERA_MOVEMENT_TEXT : dict string :=
  [("STATIC", "Static - Camera doesn't move");
   ("PAN", "Pan - Camera rotates horizontally");
   ("TILT", "Tilt - Camera rotates vertically");
   ("DOLLY", "Dolly - Camera moves forward or backward");
   ("TRUCK", "Truck - Camera moves horizontally parallel to subject");
   ("CRANE", "Crane - Camera moves up or down");
   ("HANDHELD", "Handheld - Camera has slight shake for realism");
   ("STEADICAM", "Steadicam - Smooth following movement");
   ("ZOOM", "Zoom - Camera lens zooms in or out")].

(** [d.get(key, default)] for a dict with text keys and a key of any
    kind: a list or a dict cannot be hashed, and no other value that
    is no text equals a key. *)
Definition get_text (d : dict string) (key : json) (default : string)
  : result string :=
  match key with
  | JArr _ | JObj _ => Raise TypeError
  | JStr k =>
      Ok (match dict_get d k with
          | Some x => x
          | None => default
          end)
  | _ => Ok default
  end.

(** [t in names] for a value of any kind and a list of texts. *)
Definition one_of (t : json) (names : list string) : bool :=
  match t with
  | JStr k => str_in k names
  | _ => false
  end.

(** What is drawn on the image, all of it in black: the calls of
    [draw.rectangle], [draw.ellipse], [draw.line], [draw.polygon] and
    [draw.text] with their coordinates. *)
Inductive shape : Type :=
| Rectangle (box : list Z) (width : Z)
| Ellipse (box : list Z)
| Line (points : list Z) (width : Z)
| Polygon (points : list Z) (filled : bool)
| Text (x y : Z) (text : string).

(** The guide drawn for a shot type, on an image 640 by 480 whose
    centre is (320, 240). *)
Definition guide (t : json) : list shape :=
  let center_x := 320%Z in
  let center_y := 240%Z in
  if one_of t ["CU"; "ECU"; "MCU"] then
    [Ellipse [center_x - 60; center_y - 80; center_x + 60; center_y + 80];
     Rectangle [center_x - 40; center_y - 20; center_x + 40; center_y + 40] 1]%Z
  else if one_of t ["MS"; "MLS"] then
    [Ellipse [center_x - 30; center_y - 120; center_x + 30; center_y - 60];
     Rectangle [center_x - 50; center_y - 60; center_x + 50; center_y + 80] 1]%Z
  else if one_of t ["LS"; "ELS"; "WS"] then
    [Line [20; center_y + 50; 640 - 20; center_y + 50] 2;
     Polygon [center_x - 100; center_y + 50; center_x; center_y - 50;
              center_x + 100; center_y + 50] false]%Z
  else if one_of t ["OTS"] then
    [Polygon [20; center_y - 100; 120; center_y - 40; 150; center_y + 150;
              20; center_y + 150] true;
     Ellipse [center_x; center_y - 60; center_x + 100; center_y + 40]]%Z
  else [].

Section Placeholder.

(** [str(v)], as an f-string prints a value that is no text. *)
Variable py_repr : json -> string.

(** [draw.textlength(text, font=font)] *)
Variable textlength : string -> float.

(** [image.save(image_path)] for the image with the shapes drawn. *)
Variable save : string -> list shape -> result unit.

Definition shown (v : json) : string :=
  match v with
  | JStr s => s
  | _ => py_repr v
  end.

(** The loop over the words of the description: [current_line] is the
    line being filled, [lines] the lines closed so far. *)
Fixpoint wrap_loop (words : list string) (current_line : string)
  (lines : list string) : list string * string :=
  match words with
  | [] => (lines, current_line)
  | word :: rest =>
      let test_line :=
        if nonempty current_line then current_line ++ " " ++ word else word in
      if (textlength test_line <? 600)%float
      then wrap_loop rest test_line lines
      else wrap_loop rest word (lines ++ [current_line])%list
  end.

(** The lines drawn for a description. *)
Definition wrap (description_ : string) : list string :=
  let out := wrap_loop (split_ws description_) "" [] in
  if nonempty (snd out) then (fst out ++ [snd out])%list else fst out.

(** What a line of [wrap] is to be: its words joined by single blanks,
    and short enough unless it holds one word at most. *)
Definition line_ok (l : string) : Prop :=
  tidy l
  /\ ((textlength l <? 600)%float = true \/ List.length (split_ws l) <= 1).

(** The texts drawn from the position [i] of a column on: the lines of
    the description go down from 70, the characters up from 440. *)
Fixpoint text_lines (i : nat) (lines : list string) : list shape :=
  match lines with
  | [] => []
  | l :: rest => Text 20 (70 + 20 * Z.of_nat i) l :: text_lines (S i) rest
  end.

Fixpoint character_labels (i : nat) (names : list json) : list shape :=
  match names with
  | [] => []
  | c :: rest =>
      Text 20 (480 - 40 - Z.of_nat i * 20) ("Character: " ++ shown c)
      :: character_labels (S i) rest
  end.

(** The prompt built for the image; nothing is done with it, but the
    building raises for a shot that cannot be printed. *)
Definition image_prompt (scene : Scene) (shot : json) : result string :=
  rbind (py_getitem shot "shot_type") (fun t =>
  rbind (get_text SHOT_TYPE_TEXT t "Medium Shot") (fun shot_type_desc =>
  rbind (py_getitem shot "camera_movement") (fun m =>
  rbind (get_text CAMERA_MOVEMENT_TEXT m "Static") (fun camera_movement_desc =>
  rbind (py_getitem shot "description") (fun d =>
  rbind (py_get shot "characters" (JArr [])) (fun who =>
  rbind (py_join ", " who) (fun who_text =>
  rbind (py_get shot "visual_elements" (JArr [])) (fun what =>
  rbind (py_join ", " what) (fun what_text =>
  Ok (String LF EmptyString
      ++ prompt_line "Create a detailed storyboard frame image for a film scene with the following specifications:"
      ++ prompt_line ""
      ++ prompt_line ("Scene: " ++ heading scene)
      ++ prompt_line ("Shot Description: " ++ shown d)
      ++ prompt_line ("Shot Type: " ++ shot_type_desc)
      ++ prompt_line ("Camera Movement: " ++ camera_movement_desc)
      ++ prompt_line ""
      ++ prompt_line ("Characters: " ++ who_text)
      ++ prompt_line ("Visual Elements: " ++ what_text)
      ++ prompt_line ""
      ++ prompt_line "Make it look like a hand-drawn storyboard sketch in black and white. Include appropriate composition, depth, and lighting."
      ++ "        ")))))))))).

(** [description.split()]: only a text has the method. *)
Definition words_of (d : json) : result (list string) :=
  match d with
  | JStr s => Ok (split_ws s)
  | _ => Raise AttributeError
  end.

(** The shapes of the placeholder, in the order they are drawn. *)
Definition placeholder (scene : Scene) (shot : json) : result (list shape) :=
  rbind (py_getitem shot "camera_movement") (fun m =>
  rbind (get_text CAMERA_MOVEMENT_TEXT m "Static") (fun camera_movement_desc =>
  rbind (py_getitem shot "shot_type") (fun t =>
  rbind (py_getitem shot "description") (fun d =>
  rbind (words_of d) (fun _ =>
  rbind (py_get shot "characters" (JArr [])) (fun who =>
  rbind (py_iter who) (fun names =>
  Ok ([Rectangle [10; 10; 640 - 10; 480 - 10]%Z 2;
       Text 20 20 (heading scene);
       Text 20 40 ("Shot: " ++ shown t ++ " - " ++ camera_movement_desc)]
      ++ text_lines 0 (match d with JStr s => wrap s | _ => [] end)
      ++ guide t
      ++ character_labels 0 names)%list))))))).

(** [_generate_image_for_shot] in full: the prompt, the drawing, the
    saving. *)
Definition render_shot (scene : Scene) (shot : json) (image_path_ : string)
  : result unit :=
  rbind (image_prompt scene shot) (fun _ =>
  rbind (placeholder scene shot) (fun shapes =>
  save image_path_ shapes)).

End Placeholder.

(** A shot the placeholder can be drawn for: a dict whose type and
    movement can be hashed, whose description is a text and whose
    characters and visual elements, when given, can be joined. *)
Definition hashable (v : json) : bool :=
  match v with
  | JArr _ | JObj _ => false
  | _ => true
  end.

Definition joinable (v : json) : bool :=
  match py_join ", " v with
  | Ok _ => true
  | Raise _ => false
  end.

Definition drawable (shot : json) : bool :=
  match shot with
  | JObj fields =>
      match dict_get fields "shot_type", dict_get fields "camera_movement",
            dict_get fields "description" with
      | Some t, Some m, Some (JStr _) =>
          hashable t && hashable m
          && joinable (match dict_get fields "characters" with
                       | Some v => v
                       | None => JArr []
                       end)
          && joinable (match dict_get fields "visual_elements" with
                       | Some v => v
                       | None => JArr []
                       end)
      | _, _, _ => false
      end
  | _ => false
  end.

(** ** The storyboard document *)

Section Documents.

(** [str(v)], as an f-string prints a value that is no text. *)
Variable py_repr : json -> string.

(** [os.path.relpath(image_path, os.path.dirname(output_path))] as a
    function of [image_path] and [output_path], for an [image_path]
    that is not empty (it raises for the empty path). *)
Variable relpath : string -> string -> string.

(** [open(output_path, 'w')] *)
Variable open_write : string -> result unit.

Local Abbreviation fmt := (shown py_repr).

(** The line of the characters, written when [frame.characters] is
    true. *)
Definition characters_line (before after : string) (f : StoryboardFrame)
  : result string :=
  if py_truthy (characters f)
  then rbind (py_join ", " (characters f)) (fun s => Ok (line (before ++ s ++ after)))
  else Ok "".

Definition notes_line (before after : string) (f : StoryboardFrame) : string :=
  if nonempty (notes f) then line (before ++ notes f ++ after) else "".

Definition html_head (pid : string) : string :=
  line "<!DOCTYPE html>" ++ line "<html>" ++ line "<head>"
  ++ line ("<title>Storyboard: " ++ pid ++ "</title>")
  ++ line "<style>"
  ++ line "body { font-family: Arial, sans-serif; }"
  ++ line ".frame { border: 1px solid #ccc; margin: 20px; padding: 10px; }"
  ++ line ".frame img { max-width: 100%; }"
  ++ line "</style>" ++ line "</head>" ++ line "<body>"
  ++ line ("<h1>Storyboard: " ++ pid ++ "</h1>").

Definition html_foot : string := line "</body>" ++ "</html>".

(** What is written for a frame before its characters are joined. *)
Definition html_open (output_path : string) (f : StoryboardFrame) : string :=
  line "<div class='frame'>"
  ++ line ("<h2>" ++ frame_scene_id f ++ " - " ++ frame_id f ++ "</h2>")
  ++ line ("<img src='" ++ relpath (image_path f) output_path
           ++ "' alt='" ++ fmt (description f) ++ "'>")
  ++ line ("<p><strong>Description:</strong> " ++ fmt (description f) ++ "</p>")
  ++ line ("<p><strong>Shot Type:</strong> " ++ fmt (shot_type f) ++ "</p>")
  ++ line ("<p><strong>Camera Movement:</strong> " ++ fmt (camera_movement f) ++ "</p>").

Definition html_close (f : StoryboardFrame) : string :=
  notes_line "<p><strong>Notes:</strong> " "</p>" f ++ line "</div>".

Definition pdf_head (pid : string) : string :=
  line ("Storyboard: " ++ pid) ++ line "".

Definition pdf_open (f : StoryboardFrame) : string :=
  line ("Frame: " ++ frame_id f)
  ++ line ("Scene: " ++ frame_scene_id f)
  ++ line ("Description: " ++ fmt (description f))
  ++ line ("Shot Type: " ++ fmt (shot_type f))
  ++ line ("Camera Movement: " ++ fmt (camera_movement f)).

Definition pdf_close (f : StoryboardFrame) : string :=
  notes_line "Notes: " "" f ++ line ("Image: " ++ image_path f) ++ line "".

(** The loop over [self.frames] of either format: [written] is the
    text written so far, which stays in the file when the joining of
    the characters of a frame raises. *)
Fixpoint write_frames (block_open : StoryboardFrame -> string)
  (block_characters : StoryboardFrame -> result string)
  (block_close : StoryboardFrame -> string)
  (todo : list StoryboardFrame) (written : string) : result unit * string :=
  match todo with
  | [] => (Ok tt, written)
  | f :: rest =>
      let written := written ++ block_open f in
      match block_characters f with
      | Raise e => (Raise e, written)
      | Ok s =>
          write_frames block_open block_characters block_close rest
            (written ++ s ++ block_close f)
      end
  end.

(** The text of the frames [l] when the characters of each can be
    joined. *)
Fixpoint blocks (block_open : StoryboardFrame -> string)
  (block_characters : StoryboardFrame -> result string)
  (block_close : StoryboardFrame -> string)
  (l : list StoryboardFrame) : string :=
  match l with
  | [] => EmptyString
  | f :: rest =>
      block_open f
      ++ match block_characters f with
         | Ok s => s
         | Raise _ => EmptyString
         end
      ++ block_close f
      ++ blocks block_open block_characters block_close rest
  end.

Definition html_document (output_path pid : string) (l : list StoryboardFrame)
  : result unit * string :=
  match write_frames (html_open output_path)
          (characters_line "<p><strong>Characters:</strong> " "</p>")
          html_close l (html_head pid) with
  | (Ok _, written) => (Ok tt, written ++ html_foot)
  | (Raise e, written) => (Raise e, written)
  end.

Definition pdf_document (pid : string) (l : list StoryboardFrame)
  : result unit * string :=
  write_frames pdf_open (characters_line "Characters: " "") pdf_close l
    (pdf_head pid).

(** The text of a document all of whose frames can be written. *)
Definition document_text (output_path format pid : string)
  (l : list StoryboardFrame) : string :=
  if String.eqb format "html"
  then html_head pid
       ++ blocks (html_open output_path)
            (characters_line "<p><strong>Characters:</strong> " "</p>") html_close l
       ++ html_foot
  else pdf_head pid
       ++ blocks pdf_open (characters_line "Characters: " "") pdf_close l.

(** The text left in the file when the characters of the frame [f],
    which follows the frames [l], cannot be written. *)
Definition partial_text (output_path format pid : string)
  (l : list StoryboardFrame) (f : StoryboardFrame) : string :=
  if String.eqb format "html"
  then html_head pid
       ++ blocks (html_open output_path)
            (characters_line "<p><strong>Characters:</strong> " "</p>") html_close l
       ++ html_open output_path f
  else pdf_head pid
       ++ blocks pdf_open (characters_line "Characters: " "") pdf_close l
       ++ pdf_open f.

(** The characters of a frame can be written: they are false, or can
    be joined. *)
Definition printable (f : StoryboardFrame) : bool :=
  negb (py_truthy (characters f)) || joinable (characters f).

(** The frame has an image path, as [relpath] asks. *)
Definition located (f : StoryboardFrame) : bool := nonempty (image_path f).

(** [generate_storyboard_document(output_path, format)] for frames
    with image paths; [disk] maps the paths of the files written to
    their texts. *)
Definition generate_storyboard_document (output_path format : string)
  (g : Generator) (disk : dict string) : result unit * dict string :=
  if negb (str_in format ["pdf"; "html"]) then (Raise ValueError, disk)
  else
    match frames g with
    | [] => (Raise ValueError, disk)
    | _ :: _ =>
        match open_write output_path with
        | Raise e => (Raise e, disk)
        | Ok _ =>
            let out :=
              if String.eqb format "html"
              then html_document output_path (project_id g) (frames g)
              else pdf_document (project_id g) (frames g) in
            (fst out, dict_set disk output_path (snd out))
        end
    end.

End Documents.

(** ** The export for the timeline assembler *)

Section TimelineExport.

(** [datetime.datetime.now().isoformat()] at the reading number [k] of
    the clock during the call. *)
Variable now_iso : nat -> string.

(** [open(output_path, 'w')] and [json.dump(export_data, f, indent=2)]. *)
Variable write_json : string -> json -> result unit.

(** [StoryboardFrame.to_dict], read at the time [created_at]. *)
Definition frame_to_dict (f : StoryboardFrame) (created_at : string) : json :=
  JObj [("frame_id", JStr (frame_id f));
        ("scene_id", JStr (frame_scene_id f));
        ("description", description f);
        ("image_path", JStr (image_path f));
        ("timestamp", match timestamp f with Some t => JStr t | None => JNull end);
        ("shot_type", shot_type f);
        ("camera_movement", camera_movement f);
        ("characters", characters f);
        ("notes", JStr (notes f));
        ("created_at", JStr created_at)].

(** The dict [export_to_timeline_assembler] builds: the clock is read
    for [export_time] first, then once for each frame. *)
Definition export_data (g : Generator) : json :=
  JObj [("project_id", JStr (project_id g));
        ("export_time", JStr (now_iso 0));
        ("frames",
         JArr (map (fun kf => frame_to_dict (snd kf) (now_iso (S (fst kf))))
                 (combine (seq 0 (List.length (frames g))) (frames g))));
        ("metadata",
         JObj [("source", JStr "StoryboardGen");
               ("version", JStr "1.0");
               ("scene_count",
                JInt (Z.of_nat (count_distinct (map frame_scene_id (frames g)))));
               ("frame_count", JInt (Z.of_nat (List.length (frames g))))])].

(** [export_to_timeline_assembler(output_path)] *)
Definition export_to_timeline_assembler (output_path : option string)
  (g : Generator) : result json :=
  match frames g with
  | [] => Raise ValueError
  | _ :: _ =>
      let data := export_data g in
      match output_path with
      | Some (String c p) => rbind (write_json (String c p) data) (fun _ => Ok data)
      | _ => Ok data
      end
  end.

End TimelineExport.

(** ** Sample generator and services *)

Definition blank_generator : Generator :=
  mkGenerator "demo" false [] "" [] "/tmp/storyboard_demo".

Definition no_file (p : string) : result string := Raise FileNotFoundError.

Definition sample_frame (sid fid : string) (who : json) : StoryboardFrame :=
  mkFrame fid sid (JStr "A door opens.") ("out/" ++ fid ++ ".png") None
    (JStr "WS") (JStr "STATIC") who ("Generated for " ++ sid).

(** A measure of a text in pixels: seven for each character. *)
Definition seven_wide (s : string) : float :=
  float_of_Z (7 * Z.of_nat (String.length s)).

Definition plain_repr (v : json) : string := "?".

(** A disk on which every image can be saved. *)
Definition save_any (p : string) (shapes : list shape) : result unit := Ok tt.

(** The matches [ms] follow one another from [pos] on, within a text
    of [n] characters. *)
Fixpoint in_order (n pos : nat) (ms : list Match) : Prop :=
  match ms with
  | [] => True
  | m :: rest =>
      pos <= m_start m /\ m_start m < m_end m /\ m_end m <= n
      /\ in_order n (m_end m) rest
  end.

(** The scenes are numbered: each id is [scene_k]. *)
Definition numbered (l : list Scene) : Prop :=
  forall s, In s l -> exists k, scene_id s = "scene_" ++ str_of_nat k.

(** An entry of the metadata of an export. *)
Definition metadata_entry (data : json) (key : string) : result json :=
  rbind (py_getitem data "metadata") (fun m => py_getitem m key).

End StoryboardGen.

(* ================================================================== *)
(** * SceneValidator *)
(* ================================================================== *)

Module SceneValidator.

Import Py.
Local Open Scope string_scope.

(** ** The annotation service (Cloud Vision) *)

(** [NormalizedVertex]: fractions of the image's width and height. *)
Record NormalizedVertex : Type := mkNV { nv_x : float; nv_y : float }.

(** [Vertex]: whole pixels of the image. *)
Record Vertex : Type := mkV { v_x : Z; v_y : Z }.

(** A localized object: [name], [score] and
    [bounding_poly.normalized_vertices]. *)
Record LocalizedObject : Type := mkLocalizedObject {
  lo_name : string;
  lo_score : float;
  lo_normalized_vertices : list NormalizedVertex
}.

(** A face: [detection_confidence], the four likelihoods and
    [bounding_poly.vertices]. *)
Record FaceAnnotation : Type := mkFaceAnnotation {
  fa_detection_confidence : float;
  fa_joy_likelihood : Z;
  fa_sorrow_likelihood : Z;
  fa_anger_likelihood : Z;
  fa_surprise_likelihood : Z;
  fa_vertices : list Vertex
}.

(** ** Records of the validator *)

(** An entry of [annotations['objects']]. *)
Record ObjectEntry : Type := mkObjectEntry {
  name : string;
  score : float;
  vertices : list NormalizedVertex
}.

(** An entry of [annotations['faces']]. *)
Record FaceEntry : Type := mkFaceEntry {
  confidence : float;
  joy : Z;
  sorrow : Z;
  anger : Z;
  surprise : Z;
  face_vertices : list Vertex
}.

(** [scene['annotations']]: a dict whose two keys may be absent. *)
Record Annotations : Type := mkAnnotations {
  objects : option (list ObjectEntry);
  faces : option (list FaceEntry)
}.

(** A value of [self.scenes]. *)
Record SceneEntry : Type := mkSceneEntry {
  path : string;
  timestamp : option string;
  metadata : dict string;
  annotations : Annotations
}.

Record ValidationIssue : Type := mkIssue {
  issue_id : string;
  issue_type : string;
  severity : string;
  description : string;
  suggestion : string;
  scenes_of : list string;
  location : option (Z * Z)
}.

(** A [ValidationResults] object. *)
Record ValidationResults : Type := mkResults {
  issues : list ValidationIssue;
  validation_time : nat;
  scene_count : nat
}.

Inductive level : Type := INFO | WARNING | ERROR.

(** A write to the document store: the document of a result set in the
    collection of validation results, under the id made of the time
    [stamp], or the merge into the project document of the time of the
    validation, the id of its result document and its number of
    issues. *)
Inductive document : Type :=
| ResultDocument (stamp : nat) (content : ValidationResults)
| ProjectUpdate (last_validation : nat) (last_validation_id : nat) (issue_count : nat).

(** The validator and what it shares with its caller.  [results] is a
    reference into [heap], the [ValidationResults] objects made so far:
    [validate] hands the caller the object the validator keeps. *)
Record State : Type := mkState {
  project_id : string;
  scenes : dict SceneEntry;
  scene_order : list string;
  use_firebase : bool;
  results : nat;
  heap : list ValidationResults;
  log : list (level * string);
  clock : nat;
  stored : list document
}.

(** The world outside: the file system, the annotation service, the
    image decoder and the document store, whose two writes (of a result
    document, of the project document) can fail one without the
    other. *)
Record World : Type := mkWorld {
  path_exists : string -> bool;
  annotate_image : string -> result (list LocalizedObject * list FaceAnnotation);
  image_size : string -> result (Z * Z);
  firestore_up : bool;
  project_up : bool
}.

(** ** State and exceptions *)

Definition M (A : Type) : Type := State -> result A * State.

Definition ret {A : Type} (a : A) : M A := fun st => (Ok a, st).

Definition raise {A : Type} (e : exn) : M A := fun st => (Raise e, st).

Definition bind {A B : Type} (m : M A) (f : A -> M B) : M B :=
  fun st =>
    match m st with
    | (Ok a, st') => f a st'
    | (Raise e, st') => (Raise e, st')
    end.

Notation "x <- m ;; k" := (bind m (fun x => k))
  (at level 61, m at next level, right associativity).
Notation "m ;; k" := (bind m (fun _ => k))
  (at level 61, right associativity).

Definition get : M State := fun st => (Ok st, st).

Definition lift {A : Type} (r : result A) : M A := fun st => (r, st).

Definition when (b : bool) (m : M unit) : M unit := if b then m else ret tt.

(** [for x in l: body(x)]. *)
Fixpoint for_each {A : Type} (l : list A) (body : A -> M unit) : M unit :=
  match l with
  | [] => ret tt
  | x :: rest => body x ;; for_each rest body
  end.

(** The logger is configured at level INFO; [logger.debug] records
    nothing and is left out below. *)
Definition logger (lv : level) (msg : string) : M unit :=
  fun st =>
    (Ok tt,
     mkState (project_id st) (scenes st) (scene_order st) (use_firebase st)
       (results st) (heap st) (log st ++ [(lv, msg)]) (clock st) (stored st)).

(** [datetime.datetime.now()]: a reading of the clock. *)
Definition now : M nat :=
  fun st =>
    (Ok (clock st),
     mkState (project_id st) (scenes st) (scene_order st) (use_firebase st)
       (results st) (heap st) (log st) (S (clock st)) (stored st)).

Definition set_scenes (d : dict SceneEntry) : M unit :=
  fun st =>
    (Ok tt,
     mkState (project_id st) d (scene_order st) (use_firebase st)
       (results st) (heap st) (log st) (clock st) (stored st)).

Definition set_scene_order (l : list string) : M unit :=
  fun st =>
    (Ok tt,
     mkState (project_id st) (scenes st) l (use_firebase st)
       (results st) (heap st) (log st) (clock st) (stored st)).

Definition set_heap (h : list ValidationResults) : M unit :=
  fun st =>
    (Ok tt,
     mkState (project_id st) (scenes st) (scene_order st) (use_firebase st)
       (results st) h (log st) (clock st) (stored st)).

Definition set_results (r : nat) : M unit :=
  fun st =>
    (Ok tt,
     mkState (project_id st) (scenes st) (scene_order st) (use_firebase st)
       r (heap st) (log st) (clock st) (stored st)).

Definition set_stored (s : list document) : M unit :=
  fun st =>
    (Ok tt,
     mkState (project_id st) (scenes st) (scene_order st) (use_firebase st)
       (results st) (heap st) (log st) (clock st) s).

(** ** ValidationResults *)

Definition empty_results : ValidationResults := mkResults [] 0 0.

(** The object a reference stands for. *)
Definition deref (h : list ValidationResults) (r : nat) : ValidationResults :=
  nth r h empty_results.

Fixpoint update {A : Type} (l : list A) (i : nat) (f : A -> A) : list A :=
  match l, i with
  | [], _ => []
  | x :: l', O => f x :: l'
  | x :: l', S i' => x :: update l' i' f
  end.

(** [ValidationResults()]: a new object, stamped with the time. *)
Definition new_results : M nat :=
  t <- now ;;
  st <- get ;;
  set_heap (heap st ++ [mkResults [] t 0]) ;;
  ret (List.length (heap st)).

(** [r.add_issue(issue)] on the object [r] refers to. *)
Definition add_issue (r : nat) (issue : ValidationIssue) : M unit :=
  st <- get ;;
  set_heap (update (heap st) r
              (fun v => mkResults (issues v ++ [issue]) (validation_time v) (scene_count v))).

(** [r.scene_count = n]. *)
Definition set_scene_count (r : nat) (n : nat) : M unit :=
  st <- get ;;
  set_heap (update (heap st) r
              (fun v => mkResults (issues v) (validation_time v) n)).

(** ** SceneValidator *)

(** [SceneValidator(project_id, use_firebase)], its clients initialised. *)
Definition init (pid : string) (fb : bool) (t : nat) : State :=
  mkState pid [] [] fb 0 [mkResults [] t 0] [(INFO, "SceneValidator initialized for project " ++ pid)] (S t) [].

Section Validator.

Variable w : World.

(** [add_scene(scene_path, scene_id, timestamp, metadata)] *)
Definition add_scene (scene_path scene_id : string)
  (timestamp : option string) (metadata : option (dict string)) : M unit :=
  (if path_exists w scene_path then ret tt else raise FileNotFoundError) ;;
  st <- get ;;
  when (dict_mem (scenes st) scene_id)
    (logger WARNING ("Scene " ++ scene_id ++ " already exists and will be overwritten")) ;;
  st <- get ;;
  set_scenes (dict_set (scenes st) scene_id
                (mkSceneEntry scene_path timestamp
                   (match metadata with Some m => m | None => [] end)
                   (mkAnnotations None None))) ;;
  st <- get ;;
  when (negb (str_in scene_id (scene_order st)))
    (set_scene_order (scene_order st ++ [scene_id])) ;;
  logger INFO ("Added scene " ++ scene_id ++ " to validation queue").

(** [self.scenes[scene_id]] *)
Definition scene_of (scene_id : string) : M SceneEntry :=
  st <- get ;; lift (dict_item (scenes st) scene_id).

Definition object_entry (obj : LocalizedObject) : ObjectEntry :=
  mkObjectEntry (lo_name obj) (lo_score obj) (lo_normalized_vertices obj).

Definition face_entry (face : FaceAnnotation) : FaceEntry :=
  mkFaceEntry (fa_detection_confidence face) (fa_joy_likelihood face)
    (fa_sorrow_likelihood face) (fa_anger_likelihood face)
    (fa_surprise_likelihood face) (fa_vertices face).

(** [self.scenes[scene_id]['annotations'][...] = ...] for both keys. *)
Definition store_annotations (scene_id : string) (a : Annotations) : M unit :=
  scene <- scene_of scene_id ;;
  st <- get ;;
  set_scenes (dict_set (scenes st) scene_id
                (mkSceneEntry (path scene) (timestamp scene) (metadata scene) a)).

(** [_analyze_with_vision] *)
Definition _analyze_with_vision (scene_id : string) : M unit :=
  scene <- scene_of scene_id ;;
  found <- lift (annotate_image w (path scene)) ;;
  store_annotations scene_id
    (mkAnnotations (Some (map object_entry (fst found)))
                   (Some (map face_entry (snd found)))).

(** [_analyze_with_ml]: a placeholder in the source. *)
Definition _analyze_with_ml (scene_id : string) : M unit := ret tt.

(** The four rule-of-thirds points of an image. *)
Definition thirds_points (width height : Z) : list (float * float) :=
  [(int_truediv width 3, int_truediv height 3);
   (int_truediv (width * 2) 3, int_truediv height 3);
   (int_truediv width 3, int_truediv (height * 2) 3);
   (int_truediv (width * 2) 3, int_truediv (height * 2) 3)].

(** The key of [max]: the area spanned by vertices 0 and 2. *)
Definition box_area (obj : ObjectEntry) : result float :=
  rbind (list_item (vertices obj) 2) (fun v2 =>
  rbind (list_item (vertices obj) 0) (fun v0 =>
  Ok ((nv_x v2 - nv_x v0) * (nv_y v2 - nv_y v0))%float)).

(** The centre of an object in pixels. *)
Definition center (obj : ObjectEntry) (width height : Z) : result (float * float) :=
  rbind (list_item (vertices obj) 0) (fun v0 =>
  rbind (list_item (vertices obj) 2) (fun v2 =>
  Ok (((nv_x v0 + nv_x v2) / float_of_Z 2 * float_of_Z width)%float,
      ((nv_y v0 + nv_y v2) / float_of_Z 2 * float_of_Z height)%float))).

(** The test of [near_thirds] for one point. *)
Definition near_point (width height : Z) (c p : float * float) : bool :=
  ((abs (fst c - fst p) <? int_truediv width 10)
   && (abs (snd c - snd p) <? int_truediv height 10))%float.

Definition near_thirds (width height : Z) (c : float * float) : bool :=
  existsb (near_point width height c) (thirds_points width height).

Definition thirds_issue (scene_id : string) (x y : Z) : ValidationIssue :=
  mkIssue ("comp_thirds_" ++ scene_id)
    "Composition Rule of Thirds"
    "Low"
    ("Main subject in scene " ++ scene_id ++ " does not align with rule of thirds")
    "Consider repositioning the main subject to a rule of thirds intersection"
    [scene_id]
    (Some (x, y)).

(** [_validate_composition] *)
Definition _validate_composition (scene_id : string) : M unit :=
  scene <- scene_of scene_id ;;
  size <- lift (image_size w (path scene)) ;;
  let width := fst size in
  let height := snd size in
  let objects := match objects (annotations scene) with Some l => l | None => [] end in
  match objects with
  | [] => ret tt
  | _ :: _ =>
      largest_object <- lift (py_max box_area objects) ;;
      c <- lift (center largest_object width height) ;;
      if near_thirds width height c then ret tt
      else
        x <- lift (py_int (fst c)) ;;
        y <- lift (py_int (snd c)) ;;
        st <- get ;;
        add_issue (results st) (thirds_issue scene_id x y)
  end.

(** [_process_scene] *)
Definition _process_scene (scene_id : string) : M unit :=
  _ <- scene_of scene_id ;;
  _analyze_with_vision scene_id ;;
  _analyze_with_ml scene_id ;;
  _validate_composition scene_id.

(** [{obj['name']: obj for obj in objects}] *)
Definition by_name (objects : list ObjectEntry) : dict ObjectEntry :=
  fold_left (fun d obj => dict_set d (name obj) obj) objects [].

Definition missing_issue (scene1_id scene2_id name : string) : ValidationIssue :=
  mkIssue ("cont_obj_" ++ scene1_id ++ "_" ++ scene2_id ++ "_" ++ name)
    "Continuity Object Missing"
    "High"
    ("Object '" ++ name ++ "' present in scene " ++ scene1_id
       ++ " is missing in scene " ++ scene2_id)
    ("Add '" ++ name ++ "' to scene " ++ scene2_id ++ " or show it being removed")
    [scene1_id; scene2_id]
    None.

Definition position_issue (scene1_id scene2_id : string) (i : nat) : ValidationIssue :=
  mkIssue ("cont_face_pos_" ++ scene1_id ++ "_" ++ scene2_id ++ "_" ++ str_of_nat i)
    "Continuity Character Position"
    "Medium"
    ("Character position changed dramatically from scene " ++ scene1_id
       ++ " to " ++ scene2_id)
    "Add transition scene or adjust character position"
    [scene1_id; scene2_id]
    None.

(** [sum(v['x'] for v in face['vertices']) / 4] and the same for y. *)
Definition face_center (face : FaceEntry) : float * float :=
  (int_truediv (fold_left Z.add (map v_x (face_vertices face)) 0%Z) 4,
   int_truediv (fold_left Z.add (map v_y (face_vertices face)) 0%Z) 4).

(** The loop over [objects1.items()]. *)
Definition missing_loop (scene1_id scene2_id : string)
  (objects1 objects2 : dict ObjectEntry) : M unit :=
  for_each objects1 (fun item =>
    let name := fst item in
    let obj := snd item in
    when ((0.7 <? score obj)%float && negb (dict_mem objects2 name))
      (st <- get ;;
       add_issue (results st) (missing_issue scene1_id scene2_id name))).

(** The loop over [enumerate(zip(faces1, faces2))] from index [i]. *)
Fixpoint position_loop (scene1_id scene2_id : string) (i : nat)
  (pairs : list (FaceEntry * FaceEntry)) : M unit :=
  match pairs with
  | [] => ret tt
  | (face1, face2) :: rest =>
      let face1_center := face_center face1 in
      let face2_center := face_center face2 in
      when (0.4 <? abs (fst face1_center - fst face2_center))%float
        (st <- get ;;
         add_issue (results st) (position_issue scene1_id scene2_id i)) ;;
      position_loop scene1_id scene2_id (S i) rest
  end.

(** The truth value of [annotations.get('faces')]. *)
Definition truthy {A : Type} (l : option (list A)) : bool :=
  match l with
  | Some (_ :: _) => true
  | _ => false
  end.

Definition get_list {A : Type} (l : option (list A)) : list A :=
  match l with
  | Some x => x
  | None => []
  end.

(** [_compare_scenes] *)
Definition _compare_scenes (scene1_id scene2_id : string) : M unit :=
  scene1 <- scene_of scene1_id ;;
  scene2 <- scene_of scene2_id ;;
  let objects1 := by_name (get_list (objects (annotations scene1))) in
  let objects2 := by_name (get_list (objects (annotations scene2))) in
  missing_loop scene1_id scene2_id objects1 objects2 ;;
  when (truthy (faces (annotations scene1)) && truthy (faces (annotations scene2)))
    (let faces1 := get_list (faces (annotations scene1)) in
     let faces2 := get_list (faces (annotations scene2)) in
     when (List.length faces1 =? List.length faces2)%nat
       (position_loop scene1_id scene2_id 0 (combine faces1 faces2))).

(** [_store_results]: the write of the results document, then the
    write of the project document, whose fields are read before it is
    sent.  A write that fails raises, and leaves what was written
    before it. *)
Definition _store_results : M unit :=
  st <- get ;;
  if negb (use_firebase st) then ret tt
  else
    t <- now ;;
    (if firestore_up w then ret tt else raise ServiceError) ;;
    st <- get ;;
    set_stored (stored st ++ [ResultDocument t (deref (heap st) (results st))]) ;;
    t' <- now ;;
    st <- get ;;
    let issue_count := List.length (issues (deref (heap st) (results st))) in
    (if project_up w then ret tt else raise ServiceError) ;;
    st <- get ;;
    set_stored (stored st ++ [ProjectUpdate t' t issue_count]) ;;
    logger INFO ("Stored validation results with ID validation_" ++ str_of_nat t).

(** The adjacent pairs [(order[i], order[i + 1])] for
    [i in range(len(order) - 1)]. *)
Fixpoint adjacent_pairs (order : list string) : list (string * string) :=
  match order with
  | a :: (b :: _) as rest => (a, b) :: adjacent_pairs rest
  | _ => []
  end.

(** [validate()]: the reference it returns is [self.results]. *)
Definition validate : M nat :=
  st <- get ;;
  match scenes st with
  | [] =>
      logger WARNING "No scenes to validate" ;;
      ret (results st)
  | _ :: _ =>
      logger INFO ("Starting validation of "
                   ++ str_of_nat (List.length (scenes st)) ++ " scenes") ;;
      r <- new_results ;;
      set_results r ;;
      set_scene_count r (List.length (scenes st)) ;;
      for_each (scene_order st) _process_scene ;;
      for_each (adjacent_pairs (scene_order st))
        (fun p => _compare_scenes (fst p) (snd p)) ;;
      st' <- get ;;
      when (use_firebase st') _store_results ;;
      st' <- get ;;
      logger INFO ("Validation completed with "
                   ++ str_of_nat (List.length (issues (deref (heap st') (results st'))))
                   ++ " issues found") ;;
      ret (results st')
  end.

End Validator.

(** ** The issues a call adds *)

(** The result set the validator holds. *)
Definition current (st : State) : ValidationResults :=
  deref (heap st) (results st).

(** The state after the issues [l] have been added, one after the
    other, to the result set the validator holds. *)
Definition emit (st : State) (l : list ValidationIssue) : State :=
  fold_left (fun s issue => snd (add_issue (results s) issue s)) l st.

(** What [_validate_composition] adds for a scene of the given size and
    objects, or the exception it raises. *)
Definition composition_issues (scene_id : string) (width height : Z)
  (objects : list ObjectEntry) : result (list ValidationIssue) :=
  match objects with
  | [] => Ok []
  | _ :: _ =>
      rbind (py_max box_area objects) (fun largest_object =>
      rbind (center largest_object width height) (fun c =>
      if near_thirds width height c then Ok []
      else
        rbind (py_int (fst c)) (fun x =>
        rbind (py_int (snd c)) (fun y =>
        Ok [thirds_issue scene_id x y]))))
  end.

(** The items of [objects1] the first check of [_compare_scenes]
    reports: confident and without a namesake in [objects2]. *)
Definition missing_items (objects1 objects2 : dict ObjectEntry)
  : list (string * ObjectEntry) :=
  filter (fun item => (0.7 <? score (snd item))%float
                      && negb (dict_mem objects2 (fst item)))
         objects1.

Definition missing_issues (scene1_id scene2_id : string)
  (objects1 objects2 : dict ObjectEntry) : list ValidationIssue :=
  map (fun item => missing_issue scene1_id scene2_id (fst item))
      (missing_items objects1 objects2).

(** The horizontal distance of two faces, as the second check of
    [_compare_scenes] measures it. *)
Definition face_shift (face1 face2 : FaceEntry) : float :=
  abs (fst (face_center face1) - fst (face_center face2))%float.

Fixpoint position_issues (scene1_id scene2_id : string) (i : nat)
  (pairs : list (FaceEntry * FaceEntry)) : list ValidationIssue :=
  match pairs with
  | [] => []
  | (face1, face2) :: rest =>
      (if (0.4 <? face_shift face1 face2)%float
       then [position_issue scene1_id scene2_id i] else [])
      ++ position_issues scene1_id scene2_id (S i) rest
  end%list.

(** The second check runs: both scenes have faces, and as many. *)
Definition faces_comparable (a1 a2 : Annotations) : bool :=
  truthy (faces a1) && truthy (faces a2)
  && (List.length (get_list (faces a1)) =? List.length (get_list (faces a2)))%nat.

Definition continuity_issues (scene1_id scene2_id : string)
  (a1 a2 : Annotations) : list ValidationIssue :=
  (missing_issues scene1_id scene2_id
     (by_name (get_list (objects a1))) (by_name (get_list (objects a2)))
   ++ (if faces_comparable a1 a2
       then position_issues scene1_id scene2_id 0
              (combine (get_list (faces a1)) (get_list (faces a2)))
       else []))%list.

(** The annotations [_analyze_with_vision] stores for a reply. *)
Definition annotations_of (found : list LocalizedObject * list FaceAnnotation)
  : Annotations :=
  mkAnnotations (Some (map object_entry (fst found)))
                (Some (map face_entry (snd found))).

(** ** The validator and its caller *)

(** A call of a method of the validator. *)
Inductive method_step (w : World) : State -> State -> Prop :=
| step_add_scene scene_path scene_id timestamp metadata st :
    method_step w st (snd (add_scene w scene_path scene_id timestamp metadata st))
| step_validate st :
    method_step w st (snd (validate w st)).

(** The caller adds an issue to a result set it was handed: the object
    is the one the validator made, so the validator sees the issue. *)
Inductive caller_step : State -> State -> Prop :=
| step_add_issue r issue st :
    r < List.length (heap st) ->
    caller_step st (snd (add_issue r issue st)).

(** The states a validator goes through in the hands of a caller. *)
Inductive reachable (w : World) : State -> Prop :=
| reach_init pid fb t : reachable w (init pid fb t)
| reach_method st st' :
    reachable w st -> method_step w st st' -> reachable w st'
| reach_caller st st' :
    reachable w st -> caller_step st st' -> reachable w st'.

(** The states reached by the methods of the validator alone. *)
Inductive untouched (w : World) : State -> Prop :=
| untouched_init pid fb t : untouched w (init pid fb t)
| untouched_method st st' :
    untouched w st -> method_step w st st' -> untouched w st'.

(** The order of the scenes is the order of their keys, each once. *)
Definition well_formed (st : State) : Prop :=
  scene_order st = dict_keys (scenes st) /\ NoDup (scene_order st).

(** What a run hands back: the issues of the result set returned, or the
    exception raised. *)
Definition issues_of (out : result nat * State) : result (list ValidationIssue) :=
  match fst out with
  | Ok r => Ok (issues (deref (heap (snd out)) r))
  | Raise e => Raise e
  end.

(** The same validator with another heap and another result set. *)
Definition with_results (st : State) (h : list ValidationResults) (r : nat) : State :=
  mkState (project_id st) (scenes st) (scene_order st) (use_firebase st)
    r h (log st) (clock st) (stored st).


(** ** Entries, frames and relations used to state the properties *)

(** The validator with the entry of a scene replaced. *)
Definition put_scene (st : State) (scene_id : string) (scene : SceneEntry) : State :=
  snd (set_scenes (dict_set (scenes st) scene_id scene) st).

Definition annotated (scene : SceneEntry) (a : Annotations) : SceneEntry :=
  mkSceneEntry (path scene) (timestamp scene) (metadata scene) a.

(** The area of a box, 0 when it has no vertex 0 or 2. *)
Definition area_of (obj : ObjectEntry) : float :=
  match box_area obj with
  | Ok a => a
  | Raise _ => 0%float
  end.

(** The names the first check of [_compare_scenes] reports. *)
Definition missing_names (objects1 objects2 : dict ObjectEntry) : list string :=
  map fst (missing_items objects1 objects2).

(** The last object of a list that has the name [n]. *)
Definition last_named (objs : list ObjectEntry) (n : string) : option ObjectEntry :=
  find (fun o => String.eqb n (name o)) (rev objs).

(** The entry [add_scene] stores. *)
Definition new_entry (scene_path : string) (timestamp : option string)
  (metadata : option (dict string)) : SceneEntry :=
  mkSceneEntry scene_path timestamp
    (match metadata with Some m => m | None => [] end)
    (mkAnnotations None None).

Definition overwrite_warning (scene_id : string) : level * string :=
  (WARNING, "Scene " ++ scene_id ++ " already exists and will be overwritten").

Definition added_info (scene_id : string) : level * string :=
  (INFO, "Added scene " ++ scene_id ++ " to validation queue").

(** The keys of the scenes with their paths, in order. *)
Definition key_paths (d : dict SceneEntry) : list (string * string) :=
  map (fun kv => (fst kv, path (snd kv))) d.

(** Two states of a validator with the same scenes to validate: the
    same keys, paths and order, whatever the annotations, the result
    sets, the log and the clock. *)
Definition same_scenes (a b : State) : Prop :=
  project_id a = project_id b
  /\ scene_order a = scene_order b
  /\ use_firebase a = use_firebase b
  /\ key_paths (scenes a) = key_paths (scenes b).

(** The reference held is to an object of the heap. *)
Definition valid (st : State) : Prop := results st < List.length (heap st).

(** [b] differs from [a] at most in the result set held, the
    annotations, the log, the clock and the store. *)
Definition body_frame (a b : State) : Prop :=
  same_scenes a b
  /\ results b = results a
  /\ List.length (heap b) = List.length (heap a)
  /\ forall r, r <> results a -> deref (heap b) r = deref (heap a) r.

(** The scenes named have the same annotations in both states. *)
Definition synced (a b : State) (ids : list string) : Prop :=
  forall id, In id ids ->
    option_map annotations (dict_get (scenes a) id)
    = option_map annotations (dict_get (scenes b) id).

(** [b] keeps the number of scenes its result set records, and the
    reference stays valid. *)
Definition count_frame (a b : State) : Prop :=
  valid a -> valid b /\ scene_count (current b) = scene_count (current a).

Section Phases.
Variable w : World.

(** The start of a run over scenes: the result set is replaced by a new
    one, which records the number of scenes. *)
Definition prelude (st : State) : State :=
  snd ((logger INFO ("Starting validation of "
                     ++ str_of_nat (List.length (scenes st)) ++ " scenes") ;;
        r <- new_results ;;
        set_results r ;;
        set_scene_count r (List.length (scenes st))) st).

Definition process_all (order : list string) : M unit :=
  for_each order (_process_scene w).

Definition compare_all (order : list string) : M unit :=
  for_each (adjacent_pairs order) (fun p => _compare_scenes (fst p) (snd p)).

End Phases.


(** ** Sample worlds and states *)

Definition box (x0 y0 x2 y2 : float) : list NormalizedVertex :=
  [mkNV x0 y0; mkNV x2 y0; mkNV x2 y2; mkNV x0 y2].

Definition sample_world : World :=
  mkWorld (fun _ => true)
    (fun p =>
       if String.eqb p "centered.jpg" then
         Ok ([mkLocalizedObject "lamp" 0.9 (box 0.25 0.25 0.5 0.5);
              mkLocalizedObject "cup" 0.6 (box 0.1 0.1 0.2 0.2)], [])
       else
         Ok ([mkLocalizedObject "lamp" 0.5 (box 0 0 0.1 0.1);
              mkLocalizedObject "door" 0.95 (box 0.5 0 0.6 0.2);
              mkLocalizedObject "lamp" 0.8 (box 0 0 0.05 0.05)], []))
    (fun _ => Ok (300, 300)%Z)
    true true.

Definition with_scenes (st : State) (d : dict SceneEntry) : State :=
  snd (set_scenes d st).

Definition entry_of (w : World) (p : string) : SceneEntry :=
  mkSceneEntry p None []
    (match annotate_image w p with
     | Ok found => annotations_of found
     | Raise _ => mkAnnotations None None
     end).

Definition sample_state : State :=
  with_scenes (init "demo" false 0)
    [("s1", entry_of sample_world "centered.jpg");
     ("s2", entry_of sample_world "corner.jpg")].

(** A world without files or services. *)
Definition quiet_world : World :=
  mkWorld (fun _ => false) (fun _ => Raise ServiceError)
          (fun _ => Raise ServiceError) false false.

Definition note : ValidationIssue :=
  mkIssue "manual_1" "Composition Note" "Low" "added by the caller" "none" [] None.

(** A validator without scenes whose caller has added an issue to the
    result set an earlier run handed it. *)
Definition noted_state : State :=
  let run1 := validate quiet_world (init "demo" false 0) in
  match fst run1 with
  | Ok r => snd (add_issue r note (snd run1))
  | Raise _ => snd run1
  end.

Definition face_box (x0 y0 x2 y2 : Z) : list Vertex :=
  [mkV x0 y0; mkV x2 y0; mkV x2 y2; mkV x0 y2].

Definition face_at (x0 : Z) : FaceAnnotation :=
  mkFaceAnnotation 0.99 1 1 1 1 (face_box x0 100 (x0 + 100) 200).

(** Two images 1920 pixels wide with one face each, 10 pixels apart. *)
Definition shifted_world : World :=
  mkWorld (fun _ => true)
    (fun p => if String.eqb p "a.jpg" then Ok ([], [face_at 100])
              else Ok ([], [face_at 110]))
    (fun _ => Ok (1920, 1080)%Z)
    true true.

(** The validator after two scenes have been added. *)
Definition two_scenes (w : World) (path1 path2 : string) : State :=
  snd (add_scene w path2 "s2" None None
         (snd (add_scene w path1 "s1" None None (init "demo" false 0)))).



(** ** Queries on a result set *)

(** [get_continuity_issues], [get_composition_issues],
    [get_issues_by_severity] and [get_issues_by_scene] of
    [ValidationResults]. *)
Definition get_continuity_issues (r : ValidationResults) : list ValidationIssue :=
  filter (fun issue => contains "continuity" (lower (issue_type issue))) (issues r).

Definition get_composition_issues (r : ValidationResults) : list ValidationIssue :=
  filter (fun issue => contains "composition" (lower (issue_type issue))) (issues r).

Definition get_issues_by_severity (r : ValidationResults) (wanted : string)
  : list ValidationIssue :=
  filter (fun issue => String.eqb (lower (severity issue)) (lower wanted)) (issues r).


(** ** What a run over the scenes is to find *)

Section Expected.

Variable w : World.

(** The annotations of a scene once [_analyze_with_vision] has run on it. *)
Definition fresh_annotations (st : State) (scene_id : string) : Annotations :=
  match dict_get (scenes st) scene_id with
  | Some scene =>
      match annotate_image w (path scene) with
      | Ok found => annotations_of found
      | Raise _ => annotations scene
      end
  | None => mkAnnotations None None
  end.

(** The issues of the composition check of a scene. *)
Definition scene_composition (st : State) (scene_id : string) : list ValidationIssue :=
  match dict_get (scenes st) scene_id with
  | Some scene =>
      match image_size w (path scene) with
      | Ok size =>
          match composition_issues scene_id (fst size) (snd size)
                  (get_list (objects (fresh_annotations st scene_id))) with
          | Ok l => l
          | Raise _ => []
          end
      | Raise _ => []
      end
  | None => []
  end.

(** The issues of the continuity checks of two scenes. *)
Definition pair_continuity (st : State) (p : string * string) : list ValidationIssue :=
  continuity_issues (fst p) (snd p)
    (fresh_annotations st (fst p)) (fresh_annotations st (snd p)).

Definition expected_issues (st : State) : list ValidationIssue :=
  (flat_map (scene_composition st) (scene_order st)
   ++ flat_map (pair_continuity st) (adjacent_pairs (scene_order st)))%list.

End Expected.

(** What [validate] leaves of a scene entry apart from its annotations. *)
Definition scene_data (scene : SceneEntry) : string * option string * dict string :=
  (path scene, timestamp scene, metadata scene).

(** ** Reports and fixes *)

Section Reports.

(** [t.strftime('%Y-%m-%d')] for a reading [t] of the clock. *)
Variable strftime_date : nat -> string.

(** [open(output_path, 'w')] *)
Variable open_write : string -> result unit.






(** [apply_suggested_fixes(scene_id, fix_ids)] *)
Definition apply_suggested_fixes (scene_id : string) (fix_ids : list string)
  : M bool :=
  st <- get ;;
  (if dict_mem (scenes st) scene_id then ret tt else raise ValueError) ;;
  logger INFO ("Applying " ++ str_of_nat (List.length fix_ids)
               ++ " fixes to scene " ++ scene_id) ;;
  for_each fix_ids (fun fix_id =>
    logger INFO ("Applied fix " ++ fix_id ++ " to scene " ++ scene_id)) ;;
  ret true.

End Reports.

(** ** More sample worlds *)

(** Two files with the same content: a lamp and a face. *)
Definition twin_world : World :=
  mkWorld (fun _ => true)
    (fun _ => Ok ([mkLocalizedObject "lamp" 0.9 (box 0.25 0.25 0.5 0.5)],
                  [face_at 100]))
    (fun _ => Ok (300, 300)%Z)
    true true.

Definition stored_state : State :=
  mkState "demo" [("s1", entry_of sample_world "corner.jpg")] ["s1"] true
    0 [empty_results] [] 0 [].

(** A world whose files the annotation service reads, finding nothing
    in them, and the image decoder cannot open; and a validator with
    one scene of it. *)
Definition unreadable_world : World :=
  mkWorld (fun _ => true) (fun _ => Ok ([], []))
          (fun _ => Raise ServiceError) true true.

Definition unreadable_state : State :=
  snd (add_scene unreadable_world "scan.raw" "s1" None None (init "demo" false 0)).

(** The world [w] with a document store whose first write (of a result
    document) and second write (of the project document) succeed as
    [first] and [second] say. *)
Definition with_store (w : World) (first second : bool) : World :=
  mkWorld (path_exists w) (annotate_image w) (image_size w) first second.

(** The validator after two scenes of the sample world have been added. *)
Definition ready_state : State := two_scenes sample_world "corner.jpg" "centered.jpg".

(** Two scenes of the twin world, and two of the shifted world, with
    their annotations. *)
Definition twin_state : State :=
  with_scenes (init "demo" false 0)
    [("s1", entry_of twin_world "a.jpg");
     ("s2", entry_of twin_world "b.jpg")].

Definition shifted_state : State :=
  with_scenes (init "demo" false 0)
    [("s1", entry_of shifted_world "a.jpg");
     ("s2", entry_of shifted_world "b.jpg")].

(** The sums of the coordinates of the vertices of every face are of
    magnitude at most [2^53], the range on which [int_truediv] is the
    division of Python. *)
Definition faces_in_range (a : Annotations) : bool :=
  forallb (fun face =>
             (Z.abs (fold_left Z.add (map v_x (face_vertices face)) 0) <=? 2 ^ 53)%Z
             && (Z.abs (fold_left Z.add (map v_y (face_vertices face)) 0) <=? 2 ^ 53)%Z)
          (get_list (faces a)).



End SceneValidator.

(* ================================================================== *)
(** * The words of the specification *)
(* ================================================================== *)

Module Spec.

Import Py Re StoryboardGen.
Local Open Scope string_scope.

(** The ids as the specification words them: [segment_n], [n] counting
    the segments produced from 1. *)
Definition segment_ids (segs : list Scene) : Prop :=
  map scene_id segs
  = map (fun n => "segment_" ++ str_of_nat n) (seq 1 (List.length segs)).

Definition has_marker (s : string) : bool :=
  match strip_prefix "INT." s, strip_prefix "EXT." s with
  | None, None => false
  | _, _ => true
  end.

(** The sluglines as the specification words them: the offsets of the
    lines that begin with an interior or exterior marker. *)
Fixpoint slugline_lines_from (s : string) (pos : nat) (line_start : bool)
  : list nat :=
  match s with
  | EmptyString => []
  | String c s' =>
      (if line_start && has_marker s then [pos] else [])
      ++ slugline_lines_from s' (S pos) (Ascii.eqb c LF)
  end%list.

Definition slugline_lines (text : string) : list nat :=
  slugline_lines_from text 0 true.

Import SceneValidator.

(** C6 in the words of the specification: a run over no scenes returns
    a result with no issue and a scene count of 0. *)
Definition empty_run (w : World) (st : State) : Prop :=
  scenes st = [] ->
  exists r st', validate w st = (Ok r, st')
                /\ issues (deref (heap st') r) = []
                /\ scene_count (deref (heap st') r) = 0.

(** C3 in the words of the specification, for a scene with no detected
    objects: no composition issue is added and the check of the scene
    does not fail. *)
Definition objectless_scene_passes (w : World) (st : State) (scene_id : string)
  : Prop :=
  forall scene,
    dict_get (scenes st) scene_id = Some scene ->
    get_list (objects (annotations scene)) = [] ->
    exists st', _validate_composition w scene_id st = (Ok tt, st')
                /\ issues (current st') = issues (current st).

(** The horizontal distance of two faces in normalized coordinates:
    the distance of their centres as a fraction of the image's width. *)
Definition normalized_shift (width : Z) (face1 face2 : FaceEntry) : float :=
  abs (fst (face_center face1) / float_of_Z width
       - fst (face_center face2) / float_of_Z width)%float.

End Spec.


(* ================================================================== *)
(** * Facts about the runtime and the pattern matcher *)
(* ================================================================== *)

Import Py Re StoryboardGen.
Local Open Scope string_scope.

Section StripFacts.

Lemma lstrip_spec s :
  exists l, s = l ++ lstrip s /\ all_space l = true
            /\ is_blank (first_char (lstrip s)) = false.
Proof.
  induction s as [|c s (l & Hs & Hl & Hf)]; simpl.
  - exists EmptyString. repeat split.
  - destruct (isspace c) eqn:E.
    + exists (String c l). simpl. rewrite E, Hl. split; [congruence|]. split; [reflexivity|assumption].
    + exists EmptyString. simpl. rewrite E. repeat split.
Qed.

Lemma rstrip_spec s :
  exists r, s = rstrip s ++ r /\ all_space r = true
            /\ is_blank (last_char (rstrip s)) = false
            /\ first_char (rstrip s)
               = if is_blank (first_char s) && negb (nonempty (rstrip s))
                 then None else first_char s.
Proof.
  induction s as [|c s (r & Hs & Hr & Hl & Hf)]; cbn [rstrip].
  - exists EmptyString. repeat split.
  - destruct (rstrip s) as [|c' t] eqn:Et.
    + destruct (isspace c) eqn:E.
      * exists (String c r). cbn. rewrite E, Hr. simpl in Hs. subst s. repeat split.
      * exists r. cbn. rewrite E. simpl in Hs. subst s. repeat split. assumption.
    + exists r. split; [simpl in *; congruence|]. split; [assumption|].
      split; [exact Hl|]. cbn. rewrite andb_false_r. reflexivity.
Qed.

(** [strip] removes blanks from both ends and nothing else: the text is
    its stripped form between two runs of blanks, and the stripped form
    neither begins nor ends with a blank. *)
Lemma strip_spec s :
  exists l r, s = l ++ strip s ++ r
              /\ all_space l = true /\ all_space r = true
              /\ is_blank (first_char (strip s)) = false
              /\ is_blank (last_char (strip s)) = false.
Proof.
  unfold strip.
  destruct (lstrip_spec s) as (l & Hs & Hl & Hf).
  destruct (rstrip_spec (lstrip s)) as (r & Hs' & Hr & Hlast & Hfirst).
  exists l, r. split; [congruence|]. split; [assumption|]. split; [assumption|].
  split; [|assumption].
  rewrite Hfirst. rewrite Hf. simpl. assumption.
Qed.

End StripFacts.



Section RegexFacts.

Lemma strip_prefix_app (p s s' : string) :
  strip_prefix p s = Some s' <-> s = p ++ s'.
Proof.
  revert s; induction p as [|a p IH]; intros s; simpl.
  - split; intros H; [injection H as ->|subst]; reflexivity.
  - destruct s as [|b s]; [split; discriminate|].
    destruct (Ascii.eqb_spec a b) as [->|Hne].
    + rewrite IH. split; intros H; [subst|injection H as ->]; reflexivity.
    + split; [discriminate|]. intros H; injection H as H _. congruence.
Qed.

Lemma strip_prefix_length (p s s' : string) :
  strip_prefix p s = Some s' -> String.length s = String.length p + String.length s'.
Proof.
  revert s; induction p as [|a p IH]; intros s; simpl.
  - intros H; injection H as ->; reflexivity.
  - destruct s as [|b s]; [discriminate|].
    destruct (Ascii.eqb a b); [|discriminate].
    intros H; apply IH in H; simpl; lia.
Qed.

Lemma plus_greedy_some cls s k x :
  plus_greedy cls s k = Some x ->
  exists s', k s' = Some x /\ String.length s' + 1 <= String.length s.
Proof.
  revert x; induction s as [|c s IH]; intros x; simpl; [discriminate|].
  destruct (cls c); [|discriminate].
  destruct (plus_greedy cls s k) as [y|] eqn:E.
  - intros H; injection H as ->. destruct (IH _ eq_refl) as (s' & Hk & Hl).
    exists s'; split; [assumption|lia].
  - intros H. exists s; split; [assumption|lia].
Qed.

Lemma plus_lazy_some cls s k x :
  plus_lazy cls s k = Some x ->
  exists s', k s' = Some x /\ String.length s' + 1 <= String.length s.
Proof.
  revert x; induction s as [|c s IH]; intros x; simpl; [discriminate|].
  destruct (cls c); [|discriminate].
  destruct (k s) as [y|] eqn:E.
  - intros H; injection H as ->. exists s; split; [assumption|lia].
  - intros H. destruct (IH _ H) as (s' & Hk & Hl).
    exists s'; split; [assumption|lia].
Qed.

(** A match hands on a shorter text: at least [min_len r] characters
    shorter. *)
Lemma rmatch_some r : forall s caps k x,
  rmatch r s caps k = Some x ->
  exists s' caps', k s' caps' = Some x
                   /\ String.length s' + min_len r <= String.length s.
Proof.
  induction r as [l|r1 IH1 r2 IH2|r1 IH1 r2 IH2|g cls|r1 IH1|r1 IH1|];
    intros s caps k x; simpl.
  - destruct (strip_prefix l s) as [s'|] eqn:E; [|discriminate].
    intros H. exists s', caps. split; [assumption|].
    apply strip_prefix_length in E. lia.
  - destruct (rmatch r1 s caps k) as [y|] eqn:E.
    + intros H; injection H as ->.
      destruct (IH1 _ _ _ _ E) as (s' & c' & Hk & Hl).
      exists s', c'; split; [assumption|lia].
    + intros H. destruct (IH2 _ _ _ _ H) as (s' & c' & Hk & Hl).
      exists s', c'; split; [assumption|lia].
  - intros H. destruct (IH1 _ _ _ _ H) as (s1 & c1 & Hk & Hl).
    destruct (IH2 _ _ _ _ Hk) as (s2 & c2 & Hk2 & Hl2).
    exists s2, c2; split; [assumption|lia].
  - intros H. destruct g.
    + apply plus_greedy_some in H. destruct H as (s' & Hk & Hl).
      exists s', caps; split; [assumption|lia].
    + apply plus_lazy_some in H. destruct H as (s' & Hk & Hl).
      exists s', caps; split; [assumption|lia].
  - intros H. destruct (IH1 _ _ _ _ H) as (s' & c' & Hk & Hl).
    exists s', (c' ++ [consumed s s'])%list; split; [assumption|lia].
  - destruct (rmatch r1 s caps _); [|discriminate].
    intros H. exists s, caps; split; [assumption|lia].
  - destruct s; [|discriminate]. intros H. exists EmptyString, caps.
    split; [assumption|simpl; lia].
Qed.

Lemma match_here_length s s' caps :
  match_here scene_pattern s = Some (s', caps) ->
  String.length s' + 6 <= String.length s.
Proof.
  intros H. apply rmatch_some in H. destruct H as (s1 & c1 & Hk & Hl).
  injection Hk as -> ->. exact Hl.
Qed.

End RegexFacts.

Section SplitFacts.

Lemma string_of_list_ascii_app l1 l2 :
  string_of_list_ascii (l1 ++ l2)
  = string_of_list_ascii l1 ++ string_of_list_ascii l2.
Proof.
  induction l1 as [|c l1 IH]; cbn; [reflexivity|]. rewrite IH. reflexivity.
Qed.

Lemma rev_string_cons c s : rev_string (String c s) = rev_string s ++ String c EmptyString.
Proof.
  unfold rev_string. cbn [list_ascii_of_string rev].
  rewrite string_of_list_ascii_app. reflexivity.
Qed.

Lemma append_assoc (a b c : string) : (a ++ b) ++ c = a ++ (b ++ c).
Proof. induction a as [|x a IH]; cbn; [reflexivity|]. rewrite IH. reflexivity. Qed.

Lemma append_empty_r (a : string) : a ++ EmptyString = a.
Proof. induction a as [|x a IH]; cbn; [reflexivity|]. rewrite IH. reflexivity. Qed.

Lemma drop_app_length (p s : string) : drop (String.length p) (p ++ s) = s.
Proof. induction p as [|c p IH]; cbn; [reflexivity|exact IH]. Qed.

Lemma split_loop_nonempty sep s : forall cur skip, split_loop sep s cur skip <> [].
Proof.
  induction s as [|c s IH]; intros cur skip; cbn [split_loop]; [discriminate|].
  destruct skip; [|apply IH].
  destruct (strip_prefix sep (String c s)); [discriminate|apply IH].
Qed.

Lemma join_cons sep x l : l <> [] -> join sep (x :: l) = x ++ sep ++ join sep l.
Proof. destruct l; [congruence|reflexivity]. Qed.

Lemma split_loop_join sep s : forall cur skip,
  sep <> EmptyString ->
  join sep (split_loop sep s cur skip) = rev_string cur ++ drop skip s.
Proof.
  induction s as [|c s IH]; intros cur skip Hsep; cbn [split_loop].
  - replace (drop skip EmptyString) with EmptyString by (destruct skip; reflexivity).
    rewrite append_empty_r. reflexivity.
  - destruct skip as [|k]; [|rewrite IH by exact Hsep; reflexivity].
    destruct (strip_prefix sep (String c s)) as [rest|] eqn:E.
    + rewrite join_cons by apply split_loop_nonempty.
      rewrite IH by exact Hsep. apply strip_prefix_app in E.
      destruct sep as [|c' sep']; [congruence|].
      cbn in E. injection E as -> ->.
      cbn [String.length Nat.sub]. rewrite Nat.sub_0_r, drop_app_length.
      reflexivity.
    + rewrite IH by exact Hsep. rewrite rev_string_cons, append_assoc. reflexivity.
Qed.

(** Joining the pieces of a split with the separator gives the text
    back. *)
Lemma join_split sep s : sep <> EmptyString -> join sep (split sep s) = s.
Proof. intros H. unfold split. rewrite split_loop_join by exact H. reflexivity. Qed.

End SplitFacts.


(* ================================================================== *)
(** * StoryboardGen: segmentation *)
(* ================================================================== *)

Section SearchFacts.

Lemma drop_length n s : String.length (drop n s) = String.length s - n.
Proof.
  revert s; induction n as [|n IH]; intros s; simpl; [lia|].
  destruct s; simpl; [reflexivity|apply IH].
Qed.

Lemma search_from_bounds s start m :
  search_from scene_pattern s start = Some m ->
  start <= m_start m /\ m_start m + 6 <= m_end m
  /\ m_end m <= start + String.length s.
Proof.
  revert start m; induction s as [|c s IH]; intros start m; cbn [search_from].
  - destruct (match_here scene_pattern EmptyString) as [[s' caps]|] eqn:E; [|discriminate].
    apply match_here_length in E. cbn [String.length] in E. lia.
  - destruct (match_here scene_pattern (String c s)) as [[s' caps]|] eqn:E.
    + intros H; injection H as <-. cbn [m_start m_end].
      apply match_here_length in E. clear IH.
      cbn [String.length] in *. destruct (String.length s'); lia.
    + intros H. apply IH in H. cbn [String.length]. lia.
Qed.

Lemma search_bounds text pos m :
  search scene_pattern text pos = Some m ->
  pos <= m_start m /\ m_start m + 6 <= m_end m.
Proof.
  unfold search. intros H. apply search_from_bounds in H. lia.
Qed.

Lemma search_past_end text pos :
  String.length text <= pos -> search scene_pattern text pos = None.
Proof.
  intros H. unfold search.
  destruct (search_from scene_pattern (drop pos text) pos) as [m|] eqn:E; [|reflexivity].
  apply search_from_bounds in E. rewrite drop_length in E. lia.
Qed.



(** Each match of [finditer] is the leftmost one from where the match
    before it ended. *)
Lemma finditer_from_chain fuel text pos ms1 m ms2 :
  finditer_from fuel scene_pattern text pos = (ms1 ++ m :: ms2)%list ->
  search scene_pattern text (last_end pos ms1) = Some m.
Proof.
  revert pos ms1; induction fuel as [|fuel IH]; intros pos ms1; simpl.
  - destruct ms1; discriminate.
  - destruct (search scene_pattern text pos) as [m0|] eqn:E.
    + destruct ms1 as [|m1 ms1]; simpl; intros H; injection H as -> H.
      * assumption.
      * apply IH. assumption.
    + destruct ms1; discriminate.
Qed.

End SearchFacts.

Section MarkerFacts.

Lemma lazy_any_reaches_end (k : string -> option (string * list string)) c s :
  k EmptyString <> None -> plus_lazy (fun _ => true) (String c s) k <> None.
Proof.
  intros Hk. revert c; induction s as [|c' s IH]; intros c; simpl.
  - destruct (k EmptyString); [discriminate|congruence].
  - destruct (k (String c' s)); [discriminate|]. apply (IH c').
Qed.

Lemma greedy_first cls c s (k : string -> option (string * list string)) :
  cls c = true -> k s <> None -> plus_greedy cls (String c s) k <> None.
Proof.
  intros Hc Hk. simpl. rewrite Hc.
  destruct (plus_greedy cls s k); [discriminate|assumption].
Qed.

(** What follows the marker and its blanks always matches: the lazy
    body can run to the end of the text. *)
Lemma body_matches caps c s :
  rmatch (Cat (Group (Plus false (fun _ => true)))
             (Ahead (Alt (Lit blank_line) EndZ)))
         (String c s) caps (fun s' caps' => Some (s', caps')) <> None.
Proof.
  cbn [rmatch]. apply lazy_any_reaches_end. cbn. discriminate.
Qed.

Lemma body_needs_char caps k :
  rmatch (Cat (Group (Plus false (fun _ => true)))
             (Ahead (Alt (Lit blank_line) EndZ)))
         EmptyString caps k = None.
Proof. reflexivity. Qed.

Lemma blanks_then_body_iff s caps :
  rmatch (Cat (Plus true isspace)
            (Cat (Group (Plus false (fun _ => true)))
               (Ahead (Alt (Lit blank_line) EndZ))))
         s caps (fun s' caps' => Some (s', caps')) <> None
  <-> match s with
      | String c (String _ _) => isspace c = true
      | _ => False
      end.
Proof.
  split.
  - intros H.
    destruct (rmatch _ s caps _) as [x|] eqn:E; [clear H|congruence].
    change (plus_greedy isspace s
              (fun s' => rmatch (Cat (Group (Plus false (fun _ => true)))
                                   (Ahead (Alt (Lit blank_line) EndZ)))
                           s' caps (fun s'' caps' => Some (s'', caps'))) = Some x) in E.
    destruct s as [|c s]; [discriminate|].
    simpl in E. destruct (isspace c); [|discriminate].
    destruct s as [|c' s]; [discriminate|]. reflexivity.
  - destruct s as [|c [|c' s]]; try contradiction. intros Hc.
    change (plus_greedy isspace (String c (String c' s))
              (fun s' => rmatch (Cat (Group (Plus false (fun _ => true)))
                                   (Ahead (Alt (Lit blank_line) EndZ)))
                           s' caps (fun s'' caps' => Some (s'', caps'))) <> None).
    apply greedy_first; [assumption|]. apply body_matches.
Qed.

(** The pattern matches at the start of a text exactly when the text
    starts with INT. or EXT., then a blank, then one more character. *)
Lemma match_here_marker s :
  match_here scene_pattern s <> None <-> marker_here s = true.
Proof.
  unfold match_here, marker_here, scene_pattern.
  cbn [rmatch].
  destruct (strip_prefix "INT." s) as [s1|] eqn:E1.
  - pose proof (blanks_then_body_iff s1 ([] ++ [consumed s s1])%list) as Hb.
    cbn [rmatch] in Hb.
    destruct (plus_greedy isspace s1 _) as [x|] eqn:Eg.
    + assert (Hs : Some x <> None) by discriminate.
      apply Hb in Hs. destruct s1 as [|c [|c' s1]]; try contradiction.
      split; [intros _; exact Hs|discriminate].
    + destruct (strip_prefix "EXT." s) as [s2|] eqn:E2.
      * apply strip_prefix_app in E1, E2. subst s. discriminate.
      * split; [congruence|]. intros Hm.
        destruct s1 as [|c [|c' s1]]; try discriminate.
        exfalso. apply Hb; [exact Hm|reflexivity].
  - destruct (strip_prefix "EXT." s) as [s2|] eqn:E2.
    + pose proof (blanks_then_body_iff s2 ([] ++ [consumed s s2])%list) as Hb.
      cbn [rmatch] in Hb.
      destruct (plus_greedy isspace s2 _) as [x|] eqn:Eg.
      * assert (Hs : Some x <> None) by discriminate.
        apply Hb in Hs. destruct s2 as [|c [|c' s2]]; try contradiction.
        split; [intros _; exact Hs|discriminate].
      * split; [congruence|]. intros Hm.
        destruct s2 as [|c [|c' s2]]; try discriminate.
        exfalso. apply Hb; [exact Hm|reflexivity].
    + split; [congruence|discriminate].
Qed.

End MarkerFacts.

Section Segmentation.

Lemma drop_drop n k s : drop k (drop n s) = drop (n + k) s.
Proof.
  revert s; induction n as [|n IH]; intros s; simpl; [reflexivity|].
  destruct s; [destruct k; reflexivity|apply IH].
Qed.

Lemma search_from_none s start :
  search_from scene_pattern s start = None <->
  forall k, match_here scene_pattern (drop k s) = None.
Proof.
  revert start; induction s as [|c s IH]; intros start; cbn [search_from].
  - split.
    + intros _ k. destruct k; reflexivity.
    + intros _. reflexivity.
  - destruct (match_here scene_pattern (String c s)) as [[s' caps]|] eqn:E.
    + split; [discriminate|]. intros H. specialize (H 0). simpl in H. congruence.
    + rewrite IH. split.
      * intros H [|k]; [exact E|apply H].
      * intros H k. apply (H (S k)).
Qed.

Lemma search_from_some s start m :
  search_from scene_pattern s start = Some m ->
  exists k, m_start m = start + k
            /\ match_here scene_pattern (drop k s) <> None
            /\ forall j, j < k -> match_here scene_pattern (drop j s) = None.
Proof.
  revert start m; induction s as [|c s IH]; intros start m; cbn [search_from].
  - destruct (match_here scene_pattern EmptyString) as [[s' caps]|] eqn:E; [|discriminate].
    discriminate.
  - destruct (match_here scene_pattern (String c s)) as [[s' caps]|] eqn:E.
    + intros H; injection H as <-. exists 0. cbn [m_start drop].
      split; [lia|]. split; [congruence|]. intros j Hj; lia.
    + intros H. apply IH in H. destruct H as (k & Hs & Hm & Hl).
      exists (S k). split; [lia|]. split; [exact Hm|].
      intros [|j] Hj; [exact E|]. apply Hl. lia.
Qed.

(** A match found by [search] begins at a marker, and no marker that
    can start a match stands between the position searched from and
    it. *)
Lemma search_some_marker text pos m :
  search scene_pattern text pos = Some m ->
  marker_here (drop (m_start m) text) = true
  /\ forall p, pos <= p < m_start m -> marker_here (drop p text) = false.
Proof.
  unfold search. intros H. apply search_from_some in H.
  destruct H as (k & Hs & Hm & Hl). rewrite Hs. split.
  - rewrite <- drop_drop. apply match_here_marker. exact Hm.
  - intros p Hp. specialize (Hl (p - pos)).
    rewrite drop_drop in Hl. replace (pos + (p - pos)) with p in Hl by lia.
    destruct (marker_here (drop p text)) eqn:E; [|reflexivity].
    apply match_here_marker in E. exfalso. apply E. apply Hl. lia.
Qed.

Lemma search_none_marker text pos :
  search scene_pattern text pos = None <->
  forall p, pos <= p -> marker_here (drop p text) = false.
Proof.
  unfold search. rewrite search_from_none. split.
  - intros H p Hp. specialize (H (p - pos)). rewrite drop_drop in H.
    replace (pos + (p - pos)) with p in H by lia.
    destruct (marker_here (drop p text)) eqn:E; [|reflexivity].
    apply match_here_marker in E. contradiction.
  - intros H k. rewrite drop_drop.
    destruct (match_here scene_pattern (drop (pos + k) text)) eqn:E; [|reflexivity].
    assert (Hm : marker_here (drop (pos + k) text) = true)
      by (apply match_here_marker; congruence).
    rewrite H in Hm by lia. discriminate.
Qed.

(** [findall] finds nothing exactly when no marker that can start a
    match stands anywhere in the text. *)
Lemma findall_nil_iff text :
  findall scene_pattern text = [] <->
  forall p, marker_here (drop p text) = false.
Proof.
  unfold findall, finditer. cbn [finditer_from].
  destruct (search scene_pattern text 0) as [m|] eqn:E.
  - split; [discriminate|]. intros H.
    apply search_some_marker in E. destruct E as [E _].
    rewrite H in E. discriminate.
  - split; [|reflexivity]. intros _ p.
    apply (proj1 (search_none_marker text 0) E). lia.
Qed.

Lemma paragraph_scenes_spec i chunks :
  paragraph_scenes i chunks =
  map (fun ic => mkScene ("scene_" ++ str_of_nat (fst ic + 1))
                         ("Scene " ++ str_of_nat (fst ic + 1))
                         (strip (snd ic)))
      (filter (fun ic => nonempty (strip (snd ic)))
              (combine (seq i (List.length chunks)) chunks)).
Proof.
  revert i; induction chunks as [|chunk rest IH]; intros i; simpl; [reflexivity|].
  destruct (nonempty (strip chunk)); simpl; rewrite IH; reflexivity.
Qed.

Lemma heading_scenes_spec fuel text : forall n i pos,
  n = i + List.length (finditer_from fuel scene_pattern text pos) ->
  heading_scenes text n i pos
    (map group_pair (finditer_from fuel scene_pattern text pos))
  = heading_spans text i (finditer_from fuel scene_pattern text pos).
Proof.
  induction fuel as [|fuel IH]; intros n i pos Hn; [reflexivity|].
  cbn [finditer_from] in *.
  destruct (search scene_pattern text pos) as [m|] eqn:E; [|reflexivity].
  cbn [map heading_scenes heading_spans List.length] in *.
  destruct (group_pair m) as [location_type scene_content] eqn:Eg.
  rewrite E. f_equal.
  - unfold heading_of. rewrite Eg. cbn [fst snd]. f_equal. f_equal. f_equal.
    destruct fuel as [|fuel']; cbn [finditer_from] in *.
    + replace (i <? n - 1)%nat with false; [reflexivity|].
      symmetry. apply Nat.ltb_ge. simpl in Hn. lia.
    + destruct (search scene_pattern text (m_end m)) as [m'|] eqn:E'.
      * replace (i <? n - 1)%nat with true; [reflexivity|].
        symmetry. apply Nat.ltb_lt. simpl in Hn. lia.
      * replace (i <? n - 1)%nat with false; [reflexivity|].
        symmetry. apply Nat.ltb_ge. simpl in Hn. lia.
  - apply IH. lia.
Qed.



End Segmentation.

Section SegmentationTheorems.

(** C1 (as amended).  When the scene pattern matches nowhere in the
    text, the segments are the paragraphs between blank lines that are
    not blank themselves, in order; the paragraph at position [k]
    (counted from 1 among all the paragraphs, the blank ones included)
    gets the id [scene_k], and its content is the paragraph stripped. *)
Theorem parse_script_paragraphs (text : string) :
  (forall p, marker_here (drop p text) = false) ->
  _parse_script text =
  map (fun ic => mkScene ("scene_" ++ str_of_nat (fst ic + 1))
                         ("Scene " ++ str_of_nat (fst ic + 1))
                         (strip (snd ic)))
      (filter (fun ic => nonempty (strip (snd ic)))
              (combine (seq 0 (List.length (split blank_line text)))
                       (split blank_line text))).
Proof.
  intros H. apply findall_nil_iff in H.
  unfold _parse_script. rewrite H. apply paragraph_scenes_spec.
Qed.

Lemma parse_script_paragraphs_witness :
  _parse_script para_example
  = [mkScene "scene_1" "Scene 1" "a"; mkScene "scene_3" "Scene 3" "b"].
Proof.
  rewrite (parse_script_paragraphs para_example).
  - reflexivity.
  - apply findall_nil_iff. reflexivity.
Defined.

(** C1 fails as stated: in a text without any slugline whose first
    paragraph is blank, the first paragraph that is not blank is given
    the number 2, and no id is of the form [segment_n].  Nor is a text
    without slugline lines always split into paragraphs: a marker in
    the middle of a line sends the text to the heading branch, which
    drops what precedes the marker. *)
Lemma parse_script_paragraphs_counterexample :
  let text := blank_line ++ "foo" in
  let aside := "see INT. door" in
  (forall p, marker_here (drop p text) = false)
  /\ Spec.slugline_lines text = []
  /\ map scene_id (_parse_script text) = ["scene_2"]
  /\ ~ Spec.segment_ids (_parse_script text)
  /\ Spec.slugline_lines aside = []
  /\ _parse_script aside = [mkScene "scene_1" "INT. door" "INT. door"].
Proof.
  cbv zeta. split; [apply findall_nil_iff; reflexivity|].
  split; [reflexivity|]. split; [reflexivity|].
  split; [unfold Spec.segment_ids; vm_compute; discriminate|].
  split; reflexivity.
Qed.




End SegmentationTheorems.

Section LibraryChecks.

(** The values below are those Python 3 gives for the same texts. *)

Example isspace_codes :
  filter (fun n => isspace (ascii_of_nat n)) (seq 0 256)
  = [9; 10; 11; 12; 13; 28; 29; 30; 31; 32; 133; 160].
Proof. vm_compute. reflexivity. Qed.

Example split_blank_lines :
  split blank_line ("a" ++ blank_line ++ line "" ++ " b " ++ blank_line ++ "  "
                    ++ blank_line ++ "c")
  = ["a"; line "" ++ " b "; "  "; "c"].
Proof. vm_compute. reflexivity. Qed.

Example split_leading_blank_line : split blank_line (blank_line ++ "foo") = [""; "foo"].
Proof. vm_compute. reflexivity. Qed.

Example split_paren : split "(" "ab(c(d" = ["ab"; "c"; "d"].
Proof. vm_compute. reflexivity. Qed.

Example replace_overlap : replace "ab" "X" "aabab abb" = "aXX Xb".
Proof. vm_compute. reflexivity. Qed.

Example spans_demo : spans demo_script = [(5, 53); (59, 91)].
Proof. vm_compute. reflexivity. Qed.

Example groups_demo :
  findall scene_pattern demo_script
  = [("INT.", line "COFFEE SHOP - DAY" ++ line "    " ++ "    JOHN sits alone.");
     ("EXT.", "PARKING LOT - MOMENTS LATER")].
Proof. vm_compute. reflexivity. Qed.

Example spans_same_paragraph : spans (line "INT. A" ++ "EXT. B") = [(0, 13)].
Proof. vm_compute. reflexivity. Qed.

Example spans_mid_line : spans "foo INT. bar" = [(4, 12)].
Proof. vm_compute. reflexivity. Qed.

Example spans_marker_then_blank : spans "INT. " = [].
Proof. vm_compute. reflexivity. Qed.

Example spans_marker_then_blanks :
  finditer scene_pattern "INT.  " = [mkMatch 0 6 ["INT."; " "]].
Proof. vm_compute. reflexivity. Qed.

Example spans_blank_lines_after_marker :
  spans ("INT. " ++ blank_line ++ "foo" ++ blank_line ++ "bar") = [(0, 10)].
Proof. vm_compute. reflexivity. Qed.

Example spans_marker_in_body :
  spans ("INT." ++ blank_line ++ blank_line ++ "EXT. x") = [(0, 14)].
Proof. vm_compute. reflexivity. Qed.

Example spans_two_blocks :
  spans ("INT. a" ++ blank_line ++ line "" ++ "EXT. b" ++ blank_line) = [(0, 6); (9, 15)].
Proof. vm_compute. reflexivity. Qed.

Example parse_demo_ids :
  map scene_id (_parse_script demo_script) = ["scene_1"; "scene_2"].
Proof. vm_compute. reflexivity. Qed.

End LibraryChecks.

(* ================================================================== *)
(** * StoryboardGen: frames and shot breakdown *)
(* ================================================================== *)

Section DecimalFacts.

Lemma str_of_nat_inj n m : str_of_nat n = str_of_nat m -> n = m.
Proof.
  unfold str_of_nat. intros H.
  apply (f_equal NilEmpty.uint_of_string) in H.
  rewrite !NilEmpty.usu in H. injection H as H.
  apply (f_equal Nat.of_uint) in H.
  rewrite !DecimalNat.Unsigned.of_to in H. exact H.
Qed.

Lemma append_inj_l (p a b : string) : p ++ a = p ++ b -> a = b.
Proof.
  induction p as [|c p IH]; simpl; intros H; [exact H|].
  injection H as H. apply IH. exact H.
Qed.

Lemma frame_name_inj scene k k' : frame_name scene k = frame_name scene k' -> k = k'.
Proof.
  unfold frame_name. intros H.
  apply append_inj_l in H. apply append_inj_l in H.
  apply str_of_nat_inj. exact H.
Qed.

Lemma in_combine_seq {A : Type} (l : list A) i k x :
  In (k, x) (combine (seq i (List.length l)) l)
  <-> (i <= k /\ nth_error l (k - i) = Some x).
Proof.
  revert i; induction l as [|y l IH]; intros i; cbn [List.length seq combine In].
  - split; [contradiction|]. intros [_ H]. destruct (k - i); discriminate.
  - rewrite IH. split.
    + intros [H|[Hle H]].
      * injection H as -> ->. rewrite Nat.sub_diag. split; [lia|reflexivity].
      * split; [lia|]. replace (k - i) with (S (k - S i)) by lia. exact H.
    + intros [Hle H]. destruct (Nat.eq_dec i k) as [->|Hne].
      * rewrite Nat.sub_diag in H. injection H as ->. left; reflexivity.
      * right. split; [lia|]. replace (k - i) with (S (k - S i)) in H by lia. exact H.
Qed.

End DecimalFacts.

Section FrameSynthesis.

Variable draw_placeholder : Scene -> json -> string -> result unit.

Lemma frames_loop_spec scene output_dir shots : forall i,
  frames_loop draw_placeholder scene output_dir i shots
  = flat_map (frame_at draw_placeholder scene output_dir)
      (combine (seq i (List.length shots)) shots).
Proof.
  induction shots as [|shot rest IH]; intros i; [reflexivity|].
  cbn [frames_loop List.length seq combine flat_map].
  unfold frame_at at 1. cbn [fst snd]. unfold frame_name.
  destruct (make_frame _ _ _ _ _); rewrite IH; reflexivity.
Qed.

Lemma make_frame_id scene shot fid p f :
  make_frame draw_placeholder scene shot fid p = Ok f ->
  frame_id f = fid /\ frame_scene_id f = scene_id scene
  /\ _generate_image_for_shot draw_placeholder scene shot p = Ok tt.
Proof.
  unfold make_frame.
  destruct (_generate_image_for_shot _ _ _ _) as [[]|e]; [|discriminate].
  cbn [rbind].
  destruct (py_getitem shot "description"); [|discriminate].
  destruct (py_getitem shot "shot_type"); [|discriminate].
  destruct (py_getitem shot "camera_movement"); [|discriminate].
  destruct (py_get shot "characters" _); [|discriminate].
  cbn [rbind]. intros H; injection H as <-. repeat split.
Qed.

Lemma make_frame_needs_image scene shot fid p e :
  _generate_image_for_shot draw_placeholder scene shot p = Raise e ->
  make_frame draw_placeholder scene shot fid p = Raise e.
Proof. unfold make_frame. intros ->. reflexivity. Qed.

(** C10.  The frames of a segment are the frames of its shots in the
    order of the shot list, a shot whose frame cannot be made giving
    none.  The frame of the shot at position [k] (from 1) has the id
    [{scene_id}_shot_{k}] whatever happened to the shots before it, and
    when the image of a shot cannot be generated no frame carries its
    position: the ids of the segment then have a gap. *)
Theorem frames_keep_shot_positions (scene : Scene) (shots : json)
  (output_dir : string) (items : list json) :
  py_iter shots = Ok items ->
  exists frames,
    _generate_frames_for_shots draw_placeholder scene shots output_dir = Ok frames
    /\ frames = flat_map (frame_at draw_placeholder scene output_dir)
                  (combine (seq 0 (List.length items)) items)
    /\ (forall f, In f frames ->
          exists k shot,
            nth_error items k = Some shot
            /\ frame_id f = frame_name scene (k + 1)
            /\ frame_at draw_placeholder scene output_dir (k, shot) = [f])
    /\ (forall k shot e,
          nth_error items k = Some shot ->
          _generate_image_for_shot draw_placeholder scene shot
            (path_join output_dir (frame_name scene (k + 1) ++ ".png")) = Raise e ->
          forall f, In f frames -> frame_id f <> frame_name scene (k + 1)).
Proof.
  intros Hiter. unfold _generate_frames_for_shots. rewrite Hiter. cbn [rbind].
  eexists. split; [reflexivity|]. rewrite frames_loop_spec.
  split; [reflexivity|].
  assert (Hin : forall f,
             In f (flat_map (frame_at draw_placeholder scene output_dir)
                     (combine (seq 0 (List.length items)) items)) ->
             exists k shot, nth_error items k = Some shot
               /\ frame_id f = frame_name scene (k + 1)
               /\ frame_at draw_placeholder scene output_dir (k, shot) = [f]).
  { intros f Hf. apply in_flat_map in Hf. destruct Hf as ([k shot] & Hks & Hf).
    apply in_combine_seq in Hks. destruct Hks as [_ Hks].
    rewrite Nat.sub_0_r in Hks. exists k, shot. split; [exact Hks|].
    unfold frame_at in Hf |- *. cbn [fst snd] in *.
    destruct (make_frame _ _ _ _ _) as [f'|] eqn:E; [|contradiction].
    destruct Hf as [->|[]]. apply make_frame_id in E.
    split; [apply E|reflexivity]. }
  split; [exact Hin|].
  intros k shot e Hk Hfail f Hf Hid.
  destruct (Hin f Hf) as (k' & shot' & Hk' & Hid' & Hat).
  rewrite Hid' in Hid. apply frame_name_inj in Hid.
  assert (k' = k) by lia. subst k'. rewrite Hk in Hk'. injection Hk' as <-.
  unfold frame_at in Hat. cbn [fst snd] in Hat.
  rewrite (make_frame_needs_image _ _ _ _ _ Hfail) in Hat. discriminate.
Qed.

End FrameSynthesis.

Lemma frames_keep_shot_positions_witness :
  exists frames,
    _generate_frames_for_shots gap_draw gap_scene (JArr gap_shots) "out" = Ok frames
    /\ map frame_id frames = ["scene_1_shot_1"; "scene_1_shot_3"].
Proof.
  destruct (frames_keep_shot_positions gap_draw gap_scene (JArr gap_shots) "out"
              gap_shots eq_refl) as (frames & Hgen & Heq & _).
  exists frames. split; [exact Hgen|]. rewrite Heq. reflexivity.
Defined.

Section ShotBreakdown.

Variable json_loads : string -> result json.
Variable draw_placeholder : Scene -> json -> string -> result unit.
Variable upload_frames : list StoryboardFrame -> result unit.

Lemma analyze_fallback generate_content scene :
  reply_unusable generate_content json_loads scene ->
  _analyze_scene_for_shots generate_content json_loads scene = fallback_shots scene.
Proof.
  unfold reply_unusable, _analyze_scene_for_shots.
  destruct (generate_content (shot_prompt scene)) as [reply|e]; [|reflexivity].
  intros [e He]. rewrite He. destruct e; reflexivity.
Qed.

(** Whatever the service answers, the shots of a scene can be gone
    through. *)
Lemma analyze_iterable generate_content scene :
  exists items,
    py_iter (_analyze_scene_for_shots generate_content json_loads scene) = Ok items.
Proof.
  unfold _analyze_scene_for_shots.
  destruct (generate_content (shot_prompt scene)) as [reply|e];
    [|eexists; reflexivity].
  destruct (json_loads _) as [shots|e].
  - destruct shots; cbn; eexists; reflexivity.
  - destruct e; eexists; reflexivity.
Qed.

(** The shots of a scene depend on the service only through its reply
    to the prompt of that scene. *)
Lemma analyze_local (g g' : string -> result string) scene :
  g' (shot_prompt scene) = g (shot_prompt scene) ->
  _analyze_scene_for_shots g' json_loads scene
  = _analyze_scene_for_shots g json_loads scene.
Proof. unfold _analyze_scene_for_shots. intros ->. reflexivity. Qed.

(** A run that does not upload cannot fail: its frames are those of its
    segments, one after the other. *)
Lemma storyboard_loop_total text_model output_dir script_scenes : forall calls frames,
  storyboard_loop text_model json_loads draw_placeholder upload_frames
    false output_dir calls frames script_scenes
  = Ok (frames ++ List.concat (map (segment_frames text_model json_loads
                                 draw_placeholder output_dir)
                            (combine (seq calls (List.length script_scenes))
                                     script_scenes)))%list.
Proof.
  induction script_scenes as [|scene rest IH]; intros calls frames;
    cbn [storyboard_loop List.length seq combine map List.concat].
  - rewrite app_nil_r. reflexivity.
  - unfold _generate_frames_for_shots, segment_frames at 1. cbn [fst snd].
    destruct (analyze_iterable (text_model calls) scene) as [items Hitems].
    rewrite Hitems. cbn [rbind]. rewrite IH. rewrite app_assoc. reflexivity.
Qed.

Lemma nth_error_combine_seq {A : Type} (l : list A) i j :
  nth_error (combine (seq i (List.length l)) l) j
  = option_map (fun x => (i + j, x)) (nth_error l j).
Proof.
  revert i j; induction l as [|x l IH]; intros i j; cbn [List.length seq combine].
  - destruct j; reflexivity.
  - destruct j as [|j]; cbn [nth_error option_map].
    + rewrite Nat.add_0_r. reflexivity.
    + rewrite IH. replace (S i + j) with (i + S j) by lia. reflexivity.
Qed.

(** The frames of a segment are those [_generate_frames_for_shots]
    returns for the shots of its own generation call. *)
Lemma segment_frames_run tm output_dir j s :
  _generate_frames_for_shots draw_placeholder s
    (_analyze_scene_for_shots (tm j) json_loads s) output_dir
  = Ok (segment_frames tm json_loads draw_placeholder output_dir (j, s)).
Proof.
  unfold _generate_frames_for_shots, segment_frames. cbn [fst snd].
  destruct (analyze_iterable (tm j) s) as [items Hitems].
  rewrite Hitems. reflexivity.
Qed.

(** C8.  When the generation call for a segment fails, or its reply
    cannot be parsed as JSON, the shot analysis of that segment returns
    the one fallback shot, of type WS and movement STATIC, and raises
    nothing.  A run that does not upload then still returns: its frames
    are, segment by segment, those [_generate_frames_for_shots] makes
    of the shots of the segment's own call.  In a run in which only the
    reply to this segment's call is another one, the shots of every
    other segment are the same, and so are its frames. *)
Theorem shot_fallback_isolated (text_model : nat -> string -> result string)
  (script_scenes : list Scene) (i : nat) (scene : Scene) (output_dir : string) :
  nth_error script_scenes i = Some scene ->
  reply_unusable (text_model i) json_loads scene ->
  let frames_of (tm : nat -> string -> result string) (j : nat) (s : Scene) :=
    _generate_frames_for_shots draw_placeholder s
      (_analyze_scene_for_shots (tm j) json_loads s) output_dir in
  _analyze_scene_for_shots (text_model i) json_loads scene
    = JArr [fallback_shot scene]
  /\ py_getitem (fallback_shot scene) "shot_type" = Ok (JStr "WS")
  /\ py_getitem (fallback_shot scene) "camera_movement" = Ok (JStr "STATIC")
  /\ exists per_segment,
       generate_storyboard text_model json_loads draw_placeholder upload_frames
         false script_scenes output_dir = Ok (List.concat per_segment)
       /\ List.length per_segment = List.length script_scenes
       /\ (forall j s, nth_error script_scenes j = Some s ->
             exists fs, nth_error per_segment j = Some fs
                        /\ frames_of text_model j s = Ok fs)
       /\ nth_error per_segment i
          = Some (frames_loop draw_placeholder scene output_dir 0
                    [fallback_shot scene])
       /\ forall text_model' : nat -> string -> result string,
            (forall j p, j <> i -> text_model' j p = text_model j p) ->
            exists per_segment',
              generate_storyboard text_model' json_loads draw_placeholder
                upload_frames false script_scenes output_dir
              = Ok (List.concat per_segment')
              /\ List.length per_segment' = List.length script_scenes
              /\ (forall j s, nth_error script_scenes j = Some s ->
                    exists fs, nth_error per_segment' j = Some fs
                               /\ frames_of text_model' j s = Ok fs)
              /\ (forall j s, j <> i -> nth_error script_scenes j = Some s ->
                    _analyze_scene_for_shots (text_model' j) json_loads s
                    = _analyze_scene_for_shots (text_model j) json_loads s)
              /\ forall j, j <> i ->
                   nth_error per_segment' j = nth_error per_segment j.
Proof.
  intros Hi Hbad. cbv zeta.
  pose proof (analyze_fallback _ _ Hbad) as Hfb.
  split; [exact Hfb|]. split; [reflexivity|]. split; [reflexivity|].
  assert (Hrun : forall tm,
            generate_storyboard tm json_loads draw_placeholder upload_frames
              false script_scenes output_dir
            = Ok (List.concat (map (segment_frames tm json_loads draw_placeholder output_dir)
                            (combine (seq 0 (List.length script_scenes)) script_scenes)))).
  { intros tm. unfold generate_storyboard.
    destruct script_scenes as [|s0 rest] eqn:E; [destruct i; discriminate|].
    rewrite <- E. rewrite storyboard_loop_total. reflexivity. }
  assert (Hlen : forall tm,
            List.length (map (segment_frames tm json_loads draw_placeholder output_dir)
                           (combine (seq 0 (List.length script_scenes)) script_scenes))
            = List.length script_scenes)
    by (intros tm; rewrite length_map, length_combine, length_seq; lia).
  assert (Hslot : forall tm j s, nth_error script_scenes j = Some s ->
            exists fs,
              nth_error (map (segment_frames tm json_loads draw_placeholder output_dir)
                           (combine (seq 0 (List.length script_scenes)) script_scenes)) j
              = Some fs
              /\ _generate_frames_for_shots draw_placeholder s
                   (_analyze_scene_for_shots (tm j) json_loads s) output_dir = Ok fs).
  { intros tm j s Hj. eexists. split; [|apply segment_frames_run].
    rewrite nth_error_map, nth_error_combine_seq, Hj. reflexivity. }
  eexists. split; [apply Hrun|]. split; [apply Hlen|]. split; [apply Hslot|].
  split.
  - rewrite nth_error_map, nth_error_combine_seq, Hi. cbn [option_map Nat.add].
    unfold segment_frames. cbn [fst snd]. rewrite Hfb. reflexivity.
  - intros text_model' Hsame. eexists. split; [apply Hrun|].
    split; [apply Hlen|]. split; [apply Hslot|]. split.
    + intros j s Hj _. apply analyze_local. apply Hsame. exact Hj.
    + intros j Hj. rewrite !nth_error_map, !nth_error_combine_seq.
      destruct (nth_error script_scenes j) as [other|]; [|reflexivity].
      cbn [option_map Nat.add]. f_equal. unfold segment_frames. cbn [fst snd].
      rewrite (analyze_local (text_model j) (text_model' j)); [reflexivity|].
      apply Hsame. exact Hj.
Qed.

End ShotBreakdown.

Lemma shot_fallback_isolated_witness :
  _analyze_scene_for_shots (flaky_model 0) tiny_loads scene_a
  = JArr [fallback_shot scene_a]
  /\ _analyze_scene_for_shots (flaky_model 1) tiny_loads scene_b
     = JArr [plain_shot "one"]
  /\ exists frames,
       generate_storyboard flaky_model tiny_loads (fun _ _ _ => Ok tt)
         (fun _ => Ok tt) false [scene_a; scene_b] "out" = Ok frames.
Proof.
  assert (Hbad : reply_unusable (flaky_model 0) tiny_loads scene_a) by exact I.
  destruct (shot_fallback_isolated tiny_loads (fun _ _ _ => Ok tt) (fun _ => Ok tt)
              flaky_model [scene_a; scene_b] 0 scene_a "out" eq_refl Hbad)
    as (H & _ & _ & per & Hrun & _).
  split; [exact H|]. split; [vm_compute; reflexivity|].
  exists (List.concat per). exact Hrun.
Defined.

(* ================================================================== *)
(** * SceneValidator: heuristics and validation runs *)
(* ================================================================== *)

Import SceneValidator.

Section FloatOrder.

Lemma SFcompare_lt_trans x y z :
  SFcompare x y = Some Lt -> SFcompare y z = Some Lt -> SFcompare x z = Some Lt.
Proof.
  destruct x as [sx|sx| |sx mx ex], y as [sy|sy| |sy my ey], z as [sz|sz| |sz mz ez];
    cbn [SFcompare]; try discriminate; try (intros; assumption);
    repeat match goal with s : bool |- _ => destruct s end;
    try discriminate; try reflexivity; try (intros; assumption).
  - intros H1 H2.
    destruct (Z.compare_spec ex ey) as [E1|E1|E1]; try discriminate;
    destruct (Z.compare_spec ey ez) as [E2|E2|E2]; try discriminate;
    destruct (Z.compare_spec ex ez) as [E3|E3|E3]; try lia; try reflexivity.
    + rewrite Pos.compare_cont_spec in *. cbn [Pos.switch_Eq] in *.
      destruct (Pos.compare_spec mx my) as [F1|F1|F1]; try discriminate;
      destruct (Pos.compare_spec my mz) as [F2|F2|F2]; try discriminate;
      destruct (Pos.compare_spec mx mz) as [F3|F3|F3]; try lia; reflexivity.
  - intros H1 H2.
    destruct (Z.compare_spec ex ey) as [E1|E1|E1]; try discriminate;
    destruct (Z.compare_spec ey ez) as [E2|E2|E2]; try discriminate;
    destruct (Z.compare_spec ex ez) as [E3|E3|E3]; try lia; try reflexivity.
    + rewrite Pos.compare_cont_spec in *. cbn [Pos.switch_Eq] in *.
      destruct (Pos.compare_spec mx my) as [F1|F1|F1]; try discriminate;
      destruct (Pos.compare_spec my mz) as [F2|F2|F2]; try discriminate;
      destruct (Pos.compare_spec mx mz) as [F3|F3|F3]; try lia; reflexivity.
Qed.

Lemma SFcompare_lt_gt x y :
  SFcompare x y = Some Lt -> SFcompare y x = Some Gt.
Proof.
  destruct x as [sx|sx| |sx mx ex], y as [sy|sy| |sy my ey];
    cbn [SFcompare]; try discriminate;
    repeat match goal with s : bool |- _ => destruct s end;
    try discriminate; try reflexivity.
  - rewrite (Z.compare_antisym ey ex).
    destruct (ey ?= ex)%Z; cbn [CompOpp]; try discriminate; try reflexivity.
    rewrite !Pos.compare_cont_spec. cbn [Pos.switch_Eq].
    rewrite (Pos.compare_antisym my mx).
    destruct (my ?= mx)%positive; cbn [CompOpp]; try discriminate; reflexivity.
  - rewrite (Z.compare_antisym ey ex).
    destruct (ey ?= ex)%Z; cbn [CompOpp]; try discriminate; try reflexivity.
    rewrite !Pos.compare_cont_spec. cbn [Pos.switch_Eq].
    rewrite (Pos.compare_antisym my mx).
    destruct (my ?= mx)%positive; cbn [CompOpp]; try discriminate; reflexivity.
Qed.

(** The order of binary64 numbers is transitive. *)
Lemma ltb_trans (x y z : float) :
  (x <? y)%float = true -> (y <? z)%float = true -> (x <? z)%float = true.
Proof.
  rewrite !ltb_spec. unfold SFltb.
  destruct (SFcompare (Prim2SF x) (Prim2SF y)) as [[]|] eqn:E1; try discriminate.
  destruct (SFcompare (Prim2SF y) (Prim2SF z)) as [[]|] eqn:E2; try discriminate.
  rewrite (SFcompare_lt_trans _ _ _ E1 E2). reflexivity.
Qed.

(** A number that is at most another does not exceed it. *)
Lemma leb_not_gt (x y : float) :
  (x <=? y)%float = true -> (y <? x)%float = false.
Proof.
  rewrite leb_spec, ltb_spec. unfold SFleb, SFltb.
  destruct (SFcompare (Prim2SF y) (Prim2SF x)) as [[]|] eqn:E; try reflexivity.
  rewrite (SFcompare_lt_gt _ _ E). discriminate.
Qed.

End FloatOrder.

Section MaxFacts.

Lemma ltb_irrefl (x : float) : (x <? x)%float = false.
Proof.
  destruct (x <? x)%float eqn:E; [|reflexivity].
  pose proof E as E'. rewrite ltb_spec in E'. unfold SFltb in E'.
  destruct (SFcompare (Prim2SF x) (Prim2SF x)) as [[]|] eqn:C; try discriminate.
  pose proof (SFcompare_lt_gt _ _ C) as C'. congruence.
Qed.

Context {A : Type}.
Variable key : A -> result float.
Variable keyf : A -> float.

Lemma max_loop_spec rest : forall seen best,
  key best = Ok (keyf best) ->
  (forall x, In x rest -> key x = Ok (keyf x)) ->
  In best seen ->
  (forall x, In x seen -> (keyf best <? keyf x)%float = false) ->
  exists m, max_loop key best (keyf best) rest = Ok m
            /\ In m (seen ++ rest)
            /\ forall x, In x (seen ++ rest) -> (keyf m <? keyf x)%float = false.
Proof.
  induction rest as [|x rest IH]; intros seen best Hb Hrest Hin Hmax.
  - exists best. rewrite app_nil_r. repeat split; assumption.
  - cbn [max_loop]. rewrite (Hrest x (or_introl eq_refl)). cbn [rbind].
    destruct (keyf best <? keyf x)%float eqn:E.
    + destruct (IH (seen ++ [x])%list x) as (m & Hm & Hmin & Hmmax).
      * apply Hrest. left; reflexivity.
      * intros y Hy. apply Hrest. right; exact Hy.
      * apply in_or_app. right. left. reflexivity.
      * intros y Hy. apply in_app_or in Hy. destruct Hy as [Hy|[<-|[]]].
        -- destruct (keyf x <? keyf y)%float eqn:E2; [|reflexivity].
           pose proof (ltb_trans _ _ _ E E2) as E3.
           rewrite (Hmax y Hy) in E3. discriminate E3.
        -- apply ltb_irrefl.
      * exists m. rewrite <- app_assoc in Hmin, Hmmax. cbn [app] in Hmin, Hmmax.
        repeat split; assumption.
    + destruct (IH (seen ++ [x])%list best) as (m & Hm & Hmin & Hmmax).
      * exact Hb.
      * intros y Hy. apply Hrest. right; exact Hy.
      * apply in_or_app. left. exact Hin.
      * intros y Hy. apply in_app_or in Hy. destruct Hy as [Hy|[<-|[]]].
        -- apply Hmax. exact Hy.
        -- exact E.
      * exists m. rewrite <- app_assoc in Hmin, Hmmax. cbn [app] in Hmin, Hmmax.
        repeat split; assumption.
Qed.

(** [max] returns an item of the list that no item exceeds, when every
    key can be computed. *)
Lemma py_max_spec l :
  l <> [] ->
  (forall x, In x l -> key x = Ok (keyf x)) ->
  exists m, py_max key l = Ok m /\ In m l
            /\ forall x, In x l -> (keyf m <? keyf x)%float = false.
Proof.
  destruct l as [|x rest]; [congruence|]. intros _ Hk.
  cbn [py_max]. rewrite (Hk x (or_introl eq_refl)). cbn [rbind].
  destruct (max_loop_spec rest [x] x) as (m & Hm & Hin & Hmax).
  - apply Hk. left; reflexivity.
  - intros y Hy. apply Hk. right; exact Hy.
  - left; reflexivity.
  - intros y [<-|[]]. apply ltb_irrefl.
  - exists m. repeat split; assumption.
Qed.

End MaxFacts.

Section DictFacts.

Context {V : Type}.

Lemma dict_get_set (d : dict V) k v k' :
  dict_get (dict_set d k v) k' = if String.eqb k' k then Some v else dict_get d k'.
Proof.
  induction d as [|[k0 v0] d IH]; cbn [dict_set dict_get].
  - destruct (String.eqb k' k); reflexivity.
  - destruct (String.eqb_spec k k0) as [->|Hne]; cbn [dict_get].
    + destruct (String.eqb k' k0); reflexivity.
    + rewrite IH. destruct (String.eqb_spec k' k0) as [->|Hne'].
      * destruct (String.eqb_spec k0 k); [congruence|reflexivity].
      * reflexivity.
Qed.

Lemma dict_get_in_keys (d : dict V) k :
  dict_get d k <> None <-> In k (dict_keys d).
Proof.
  induction d as [|[k0 v0] d IH]; cbn [dict_get dict_keys map fst In].
  - split; [congruence|contradiction].
  - destruct (String.eqb_spec k k0) as [->|Hne].
    + split; [intros _; left; reflexivity|discriminate].
    + rewrite IH. unfold dict_keys. split; [intros H; right; exact H|].
      intros [H|H]; [congruence|exact H].
Qed.

Lemma dict_keys_set_old (d : dict V) k v :
  dict_get d k <> None -> dict_keys (dict_set d k v) = dict_keys d.
Proof.
  induction d as [|[k0 v0] d IH]; cbn [dict_set dict_get dict_keys map fst].
  - congruence.
  - destruct (String.eqb_spec k k0) as [->|Hne]; cbn [map fst].
    + reflexivity.
    + intros H. f_equal. apply IH. exact H.
Qed.

Lemma dict_keys_set_new (d : dict V) k v :
  dict_get d k = None -> dict_keys (dict_set d k v) = (dict_keys d ++ [k])%list.
Proof.
  induction d as [|[k0 v0] d IH]; cbn [dict_set dict_get dict_keys map fst app].
  - reflexivity.
  - destruct (String.eqb_spec k k0) as [->|Hne]; cbn [map fst].
    + discriminate.
    + intros H. f_equal. apply IH. exact H.
Qed.

End DictFacts.

Section HeapFacts.

Lemma update_ext {A : Type} (f g : A -> A) l i :
  (forall x, f x = g x) -> update l i f = update l i g.
Proof.
  intros H. revert i; induction l as [|x l IH]; intros [|i]; cbn [update];
    try reflexivity; [rewrite H|rewrite IH]; reflexivity.
Qed.

Lemma update_update {A : Type} (f g : A -> A) l i :
  update (update l i f) i g = update l i (fun x => g (f x)).
Proof.
  revert i; induction l as [|x l IH]; intros [|i]; cbn [update];
    try reflexivity. rewrite IH. reflexivity.
Qed.

Lemma update_length {A : Type} (f : A -> A) l i :
  List.length (update l i f) = List.length l.
Proof.
  revert i; induction l as [|x l IH]; intros [|i]; cbn [update List.length];
    try reflexivity. rewrite IH. reflexivity.
Qed.

Lemma nth_update {A : Type} (f : A -> A) l i j d :
  nth j (update l i f) d
  = if (j =? i)%nat && (j <? List.length l)%nat then f (nth j l d) else nth j l d.
Proof.
  revert i j; induction l as [|x l IH]; intros i j.
  - replace (update [] i f) with (@nil A) by (destruct i; reflexivity).
    replace (j <? List.length (@nil A))%nat with false
      by (symmetry; apply Nat.ltb_ge; cbn; lia).
    rewrite andb_false_r. reflexivity.
  - destruct i as [|i], j as [|j]; cbn [update nth List.length]; try reflexivity.
    rewrite IH. reflexivity.
Qed.

(** Adding issues touches nothing but the result set held. *)
Lemma emit_frame st l :
  project_id (emit st l) = project_id st
  /\ scenes (emit st l) = scenes st
  /\ scene_order (emit st l) = scene_order st
  /\ use_firebase (emit st l) = use_firebase st
  /\ results (emit st l) = results st
  /\ log (emit st l) = log st
  /\ clock (emit st l) = clock st
  /\ stored (emit st l) = stored st
  /\ heap (emit st l)
     = update (heap st) (results st)
         (fun v => mkResults (issues v ++ l) (validation_time v) (scene_count v)).
Proof.
  revert st; induction l as [|i l IH]; intros st.
  - repeat split. cbn. symmetry.
    assert (H : forall h r, update h r (fun v : ValidationResults =>
                 mkResults (issues v ++ []) (validation_time v) (scene_count v)) = h).
    { intros h. induction h as [|v h IHh]; intros [|r]; cbn [update]; try reflexivity.
      - destruct v. cbn. rewrite app_nil_r. reflexivity.
      - rewrite IHh. reflexivity. }
    apply H.
  - change (emit st (i :: l)) with (emit (snd (add_issue (results st) i st)) l).
    destruct (IH (snd (add_issue (results st) i st)))
      as (H1 & H2 & H3 & H4 & H5 & H6 & H7 & H8 & H9).
    rewrite H1, H2, H3, H4, H5, H6, H7, H8, H9. cbn.
    repeat split. rewrite update_update. apply update_ext.
    intros v. cbn. rewrite <- app_assoc. reflexivity.
Qed.

Lemma emit_app st l1 l2 : emit st (l1 ++ l2) = emit (emit st l1) l2.
Proof. apply fold_left_app. Qed.

Lemma emit_current st l :
  results st < List.length (heap st) ->
  issues (current (emit st l)) = (issues (current st) ++ l)%list
  /\ scene_count (current (emit st l)) = scene_count (current st)
  /\ validation_time (current (emit st l)) = validation_time (current st)
  /\ List.length (heap (emit st l)) = List.length (heap st).
Proof.
  intros Hv. unfold current.
  destruct (emit_frame st l) as (_ & _ & _ & _ & Hr & _ & _ & _ & Hh).
  rewrite Hr, Hh. unfold deref. rewrite nth_update, update_length.
  rewrite Nat.eqb_refl. apply Nat.ltb_lt in Hv. rewrite Hv. cbn.
  repeat split.
Qed.

Lemma emit_other st l r :
  r <> results st -> deref (heap (emit st l)) r = deref (heap st) r.
Proof.
  intros Hr. destruct (emit_frame st l) as (_ & _ & _ & _ & _ & _ & _ & _ & Hh).
  rewrite Hh. unfold deref. rewrite nth_update.
  apply Nat.eqb_neq in Hr. rewrite Hr. reflexivity.
Qed.

End HeapFacts.

Section RunFacts.

Variable w : World.

Lemma validate_composition_run scene_id st :
  _validate_composition w scene_id st
  = match dict_get (scenes st) scene_id with
    | None => (Raise KeyError, st)
    | Some scene =>
        match image_size w (path scene) with
        | Raise e => (Raise e, st)
        | Ok size =>
            match composition_issues scene_id (fst size) (snd size)
                    (get_list (objects (annotations scene))) with
            | Ok l => (Ok tt, emit st l)
            | Raise e => (Raise e, st)
            end
        end
    end.
Proof.
  unfold _validate_composition, scene_of, bind, get, lift, dict_item.
  destruct (dict_get (scenes st) scene_id) as [scene|]; [|reflexivity].
  destruct (image_size w (path scene)) as [size|e]; [|reflexivity].
  unfold composition_issues, get_list.
  destruct (objects (annotations scene)) as [[|o objs]|]; try reflexivity.
  destruct (py_max box_area (o :: objs)) as [largest|e]; [|reflexivity].
  cbn [rbind].
  destruct (center largest (fst size) (snd size)) as [c|e]; [|reflexivity].
  cbn [rbind].
  destruct (near_thirds (fst size) (snd size) c); [reflexivity|].
  destruct (py_int (fst c)) as [x|e]; [|reflexivity]. cbn [rbind].
  destruct (py_int (snd c)) as [y|e]; reflexivity.
Qed.

Lemma analyze_with_vision_run scene_id st :
  _analyze_with_vision w scene_id st
  = match dict_get (scenes st) scene_id with
    | None => (Raise KeyError, st)
    | Some scene =>
        match annotate_image w (path scene) with
        | Raise e => (Raise e, st)
        | Ok found =>
            (Ok tt, put_scene st scene_id (annotated scene (annotations_of found)))
        end
    end.
Proof.
  unfold _analyze_with_vision, store_annotations, scene_of, bind, get, lift, dict_item.
  destruct (dict_get (scenes st) scene_id) as [scene|]; [|reflexivity].
  destruct (annotate_image w (path scene)) as [found|e]; reflexivity.
Qed.

Lemma process_scene_run scene_id st :
  _process_scene w scene_id st
  = match dict_get (scenes st) scene_id with
    | None => (Raise KeyError, st)
    | Some scene =>
        match annotate_image w (path scene) with
        | Raise e => (Raise e, st)
        | Ok found =>
            let st1 := put_scene st scene_id (annotated scene (annotations_of found)) in
            match image_size w (path scene) with
            | Raise e => (Raise e, st1)
            | Ok size =>
                match composition_issues scene_id (fst size) (snd size)
                        (map object_entry (fst found)) with
                | Ok l => (Ok tt, emit st1 l)
                | Raise e => (Raise e, st1)
                end
            end
        end
    end.
Proof.
  unfold _process_scene, _analyze_with_ml.
  unfold bind at 1. unfold scene_of at 1. unfold bind, get, lift, dict_item.
  destruct (dict_get (scenes st) scene_id) as [scene|] eqn:E; [|reflexivity].
  rewrite analyze_with_vision_run, E.
  destruct (annotate_image w (path scene)) as [found|e]; [|reflexivity].
  cbn [ret]. rewrite validate_composition_run.
  unfold put_scene at 1. cbn [set_scenes snd scenes].
  rewrite dict_get_set, String.eqb_refl. reflexivity.
Qed.

Lemma report_run issue st :
  (st' <- get ;; add_issue (results st') issue) st = (Ok tt, emit st [issue]).
Proof. reflexivity. Qed.

Lemma missing_loop_run scene1_id scene2_id objects2 objects1 : forall st,
  for_each objects1 (fun item =>
    when ((0.7 <? score (snd item))%float && negb (dict_mem objects2 (fst item)))
      (st <- get ;;
       add_issue (results st) (missing_issue scene1_id scene2_id (fst item)))) st
  = (Ok tt, emit st (missing_issues scene1_id scene2_id objects1 objects2)).
Proof.
  induction objects1 as [|item rest IH]; intros st; [reflexivity|].
  cbn [for_each]. unfold bind at 1. unfold missing_issues, missing_items.
  cbn [filter].
  destruct ((0.7 <? score (snd item))%float && negb (dict_mem objects2 (fst item))).
  - cbn [when map]. rewrite report_run. cbn iota beta. rewrite IH. reflexivity.
  - cbn [when ret]. rewrite IH. reflexivity.
Qed.

Lemma position_loop_run scene1_id scene2_id pairs : forall i st,
  position_loop scene1_id scene2_id i pairs st
  = (Ok tt, emit st (position_issues scene1_id scene2_id i pairs)).
Proof.
  induction pairs as [|[face1 face2] rest IH]; intros i st; [reflexivity|].
  cbn [position_loop position_issues]. unfold bind at 1. unfold face_shift.
  destruct (0.4 <? abs (fst (face_center face1) - fst (face_center face2)))%float.
  - cbn [when]. rewrite report_run. cbn iota beta. rewrite IH. reflexivity.
  - cbn [when ret]. rewrite IH. reflexivity.
Qed.

Lemma compare_scenes_run scene1_id scene2_id st :
  _compare_scenes scene1_id scene2_id st
  = match dict_get (scenes st) scene1_id with
    | None => (Raise KeyError, st)
    | Some scene1 =>
        match dict_get (scenes st) scene2_id with
        | None => (Raise KeyError, st)
        | Some scene2 =>
            (Ok tt, emit st (continuity_issues scene1_id scene2_id
                               (annotations scene1) (annotations scene2)))
        end
    end.
Proof.
  unfold _compare_scenes.
  unfold bind at 1. unfold scene_of at 1. unfold bind at 1, get, lift, dict_item.
  destruct (dict_get (scenes st) scene1_id) as [scene1|]; [|reflexivity].
  unfold bind at 1. unfold scene_of at 1. unfold bind at 1, get, lift, dict_item.
  destruct (dict_get (scenes st) scene2_id) as [scene2|]; [|reflexivity].
  unfold bind at 1. unfold missing_loop. rewrite missing_loop_run.
  unfold continuity_issues, faces_comparable. rewrite emit_app.
  destruct (truthy (faces (annotations scene1)) && truthy (faces (annotations scene2))).
  - cbn [when andb].
    destruct (List.length (get_list (faces (annotations scene1)))
              =? List.length (get_list (faces (annotations scene2))))%nat.
    + cbn [when]. rewrite position_loop_run. reflexivity.
    + reflexivity.
  - reflexivity.
Qed.

End RunFacts.

Section CompositionRule.

Variable w : World.

Lemma box_area_total (obj : ObjectEntry) :
  List.length (vertices obj) = 4 -> box_area obj = Ok (area_of obj).
Proof.
  unfold area_of, box_area, list_item.
  destruct (vertices obj) as [|v0 [|v1 [|v2 [|v3 [|]]]]]; try discriminate.
  reflexivity.
Qed.

Lemma near_thirds_false width height c :
  near_thirds width height c = false <->
  forall p, In p (thirds_points width height) ->
    near_point width height c p = false.
Proof.
  unfold near_thirds. split.
  - intros H p Hp. destruct (near_point width height c p) eqn:E; [|reflexivity].
    assert (Hex : existsb (near_point width height c) (thirds_points width height) = true)
      by (apply existsb_exists; exists p; split; assumption).
    congruence.
  - intros H.
    destruct (existsb (near_point width height c) (thirds_points width height)) eqn:E;
      [|reflexivity].
    apply existsb_exists in E. destruct E as (p & Hp & Hn).
    rewrite (H p Hp) in Hn. discriminate.
Qed.

(** C3.  The composition check of a scene opens the image before it
    looks at the objects: when the image cannot be opened the check
    raises, whether or not objects were detected.  When it can be
    opened, a scene without detected objects gets no issue and raises
    nothing.  For a scene with detected objects, each with its four
    vertices, the subject is an object whose area (the product of the
    differences of vertices 2 and 0) no object exceeds, and its centre
    is the mean of vertices 0 and 2, scaled to pixels.  When the centre
    is within a tenth of the width and a tenth of the height of one of
    the four points at a third and two thirds of the width and of the
    height, the result set is left as it is; when it is so for none of
    the four, the result set gains exactly one issue, of severity Low,
    whose location is the centre in whole pixels; no other result set
    changes. *)
Theorem composition_rule (st : State) (scene_id : string) (scene : SceneEntry) :
  dict_get (scenes st) scene_id = Some scene ->
  results st < List.length (heap st) ->
  (forall o, In o (get_list (objects (annotations scene))) ->
             List.length (vertices o) = 4) ->
  let objs := get_list (objects (annotations scene)) in
  (forall e, image_size w (path scene) = Raise e ->
     _validate_composition w scene_id st = (Raise e, st))
  /\ (forall width height, image_size w (path scene) = Ok (width, height) ->
      (objs = [] -> _validate_composition w scene_id st = (Ok tt, st))
      /\ (objs <> [] ->
          exists subject v0 v1 v2 v3,
            py_max box_area objs = Ok subject
            /\ In subject objs
            /\ vertices subject = [v0; v1; v2; v3]
            /\ (forall o a b c d, In o objs -> vertices o = [a; b; c; d] ->
                  ((nv_x v2 - nv_x v0) * (nv_y v2 - nv_y v0)
                   <? (nv_x c - nv_x a) * (nv_y c - nv_y a))%float = false)
            /\ let cx := ((nv_x v0 + nv_x v2) / float_of_Z 2 * float_of_Z width)%float in
               let cy := ((nv_y v0 + nv_y v2) / float_of_Z 2 * float_of_Z height)%float in
               let near px py :=
                 ((abs (cx - px) <? int_truediv width 10)
                  && (abs (cy - py) <? int_truediv height 10))%float in
               let hit :=
                 near (int_truediv width 3) (int_truediv height 3)
                 || (near (int_truediv (width * 2) 3) (int_truediv height 3)
                     || (near (int_truediv width 3) (int_truediv (height * 2) 3)
                         || near (int_truediv (width * 2) 3)
                              (int_truediv (height * 2) 3))) in
               (hit = true -> _validate_composition w scene_id st = (Ok tt, st))
               /\ (hit = false ->
                   forall x y, py_int cx = Ok x -> py_int cy = Ok y ->
                     exists st' issue,
                       _validate_composition w scene_id st = (Ok tt, st')
                       /\ issues (current st') = (issues (current st) ++ [issue])%list
                       /\ issue_id issue = "comp_thirds_" ++ scene_id
                       /\ issue_type issue = "Composition Rule of Thirds"
                       /\ severity issue = "Low"
                       /\ scenes_of issue = [scene_id]
                       /\ location issue = Some (x, y)
                       /\ results st' = results st
                       /\ scenes st' = scenes st
                       /\ forall r, r <> results st ->
                            deref (heap st') r = deref (heap st) r))).
Proof.
  intros Hscene Hvalid Hbox. cbv zeta.
  rewrite validate_composition_run, Hscene.
  split; [intros e ->; reflexivity|].
  intros width height ->. cbn [fst snd].
  remember (get_list (objects (annotations scene))) as objs eqn:Eobjs.
  clear Eobjs. split.
  - intros ->. reflexivity.
  - intros Hne.
    destruct (py_max_spec box_area area_of objs Hne) as (subject & Hmax & Hin & Hle).
    { intros o Ho. apply box_area_total. apply Hbox. exact Ho. }
    pose proof (Hbox subject Hin) as Hlen.
    destruct (vertices subject) as [|v0 [|v1 [|v2 [|v3 [|]]]]] eqn:Ev;
      try discriminate Hlen.
    exists subject, v0, v1, v2, v3.
    split; [exact Hmax|]. split; [exact Hin|]. split; [exact Ev|].
    split.
    { intros o a b c d Ho Hv. pose proof (Hle o Ho) as H.
      unfold area_of, box_area, list_item in H. rewrite Ev, Hv in H. exact H. }
    unfold composition_issues. destruct objs as [|o rest]; [congruence|].
    rewrite Hmax. cbn [rbind]. unfold center, list_item. rewrite Ev.
    cbn [nth_error rbind]. unfold near_thirds, thirds_points, near_point.
    cbn [existsb fst snd]. rewrite orb_false_r. split.
    + intros ->. reflexivity.
    + intros -> x y -> ->. cbn [rbind].
      destruct (emit_current st [thirds_issue scene_id x y] Hvalid) as (Hi & _).
      destruct (emit_frame st [thirds_issue scene_id x y])
        as (_ & Hsc & _ & _ & Hres & _).
      eexists. eexists. split; [reflexivity|]. split; [exact Hi|].
      do 5 (split; [reflexivity|]). split; [exact Hres|]. split; [exact Hsc|].
      intros r Hr. apply emit_other. exact Hr.
Qed.

End CompositionRule.

Lemma composition_rule_witness :
  exists st',
    _validate_composition sample_world "s2" sample_state = (Ok tt, st')
    /\ map location (issues (current st')) = [Some (165, 30)%Z].
Proof.
  assert (H4 : forall o,
             In o (get_list (objects (annotations (entry_of sample_world "corner.jpg")))) ->
             List.length (vertices o) = 4).
  { intros o H. cbn in H.
    repeat (destruct H as [<-|H]; [reflexivity|]). contradiction. }
  destruct (composition_rule sample_world sample_state "s2"
              (entry_of sample_world "corner.jpg") eq_refl Nat.lt_0_1 H4) as [_ H].
  destruct (H 300%Z 300%Z eq_refl) as [_ Hobjs].
  destruct Hobjs as (subject & v0 & v1 & v2 & v3 & Hmax & _ & Hv & _ & _ & Hfar);
    [discriminate|].
  vm_compute in Hmax. injection Hmax as <-.
  cbn in Hv. injection Hv as <- <- <- <-.
  destruct (Hfar eq_refl 165%Z 30%Z eq_refl eq_refl)
    as (st' & issue & Hrun & Hissues & _ & _ & _ & _ & Hloc & _).
  exists st'. split; [exact Hrun|]. rewrite Hissues. cbn. rewrite Hloc. reflexivity.
Defined.

(** C3 fails as stated for a scene without detected objects: the image
    is opened before the objects are looked at, so when the decoder
    cannot open the file of such a scene the check raises, and so does
    the run. *)
Lemma composition_rule_counterexample :
  (exists scene,
     dict_get (scenes unreadable_state) "s1" = Some scene
     /\ get_list (objects (annotations scene)) = [])
  /\ _validate_composition unreadable_world "s1" unreadable_state
     = (Raise ServiceError, unreadable_state)
  /\ fst (validate unreadable_world unreadable_state) = Raise ServiceError
  /\ ~ Spec.objectless_scene_passes unreadable_world unreadable_state "s1".
Proof.
  split; [eexists; split; reflexivity|].
  split; [reflexivity|]. split; [reflexivity|].
  intros H. destruct (H _ eq_refl eq_refl) as (st' & Hrun & _).
  discriminate Hrun.
Qed.

Section ObjectPersistence.

Lemma find_app {A : Type} (p : A -> bool) l1 l2 :
  find p (l1 ++ l2) = match find p l1 with Some x => Some x | None => find p l2 end.
Proof.
  induction l1 as [|x l1 IH]; cbn [app find]; [reflexivity|].
  destruct (p x); [reflexivity|exact IH].
Qed.

Lemma by_name_from objs : forall (d : dict ObjectEntry) n,
  dict_get (fold_left (fun d obj => dict_set d (name obj) obj) objs d) n
  = match last_named objs n with
    | Some o => Some o
    | None => dict_get d n
    end.
Proof.
  unfold last_named.
  induction objs as [|o rest IH]; intros d n; cbn [fold_left rev find]; [reflexivity|].
  rewrite IH, find_app. cbn [find].
  destruct (find _ (rev rest)); [reflexivity|].
  rewrite dict_get_set. destruct (String.eqb n (name o)); reflexivity.
Qed.

(** The map built for a scene gives, for each name, the last object of
    the scene that has it. *)
Lemma by_name_last objs n : dict_get (by_name objs) n = last_named objs n.
Proof.
  unfold by_name. rewrite by_name_from. destruct (last_named objs n); reflexivity.
Qed.

Lemma dict_get_key {V : Type} (d : dict V) k v :
  In (k, v) d -> NoDup (dict_keys d) -> dict_get d k = Some v.
Proof.
  induction d as [|[k0 v0] d IH]; cbn [In dict_get dict_keys map fst]; [contradiction|].
  intros [H|H] Hnd.
  - injection H as -> ->. rewrite String.eqb_refl. reflexivity.
  - inversion Hnd as [|? ? Hnotin Hnd']; subst.
    destruct (String.eqb_spec k k0) as [->|Hne].
    + exfalso. apply Hnotin. change (In (fst (k0, v)) (map fst d)).
      apply in_map. exact H.
    + apply IH; assumption.
Qed.

Lemma dict_set_nodup {V : Type} (d : dict V) k v :
  NoDup (dict_keys d) -> NoDup (dict_keys (dict_set d k v)).
Proof.
  intros Hnd. destruct (dict_get d k) as [v0|] eqn:E.
  - rewrite dict_keys_set_old by congruence. exact Hnd.
  - rewrite dict_keys_set_new by exact E.
    apply NoDup_app; [exact Hnd|repeat constructor; intros []|].
    intros x Hx [<-|[]]. apply dict_get_in_keys in Hx. congruence.
Qed.

Lemma by_name_nodup objs : NoDup (dict_keys (by_name objs)).
Proof.
  unfold by_name.
  assert (H : forall d : dict ObjectEntry, NoDup (dict_keys d) ->
            NoDup (dict_keys (fold_left (fun d obj => dict_set d (name obj) obj) objs d))).
  { induction objs as [|o rest IH]; intros d Hd; cbn [fold_left]; [exact Hd|].
    apply IH. apply dict_set_nodup. exact Hd. }
  apply H. constructor.
Qed.

Lemma last_named_in objs n o : last_named objs n = Some o -> In o objs /\ name o = n.
Proof.
  unfold last_named. intros H. apply find_some in H. destruct H as [Hin Hn].
  split; [apply in_rev; exact Hin|]. apply String.eqb_eq in Hn. congruence.
Qed.

Lemma dict_get_in {V : Type} (d : dict V) k v :
  dict_get d k = Some v -> In (k, v) d.
Proof.
  induction d as [|[k0 v0] d IH]; cbn [dict_get In]; [discriminate|].
  destruct (String.eqb_spec k k0) as [->|Hne].
  - intros H; injection H as ->. left; reflexivity.
  - intros H. right. apply IH. exact H.
Qed.

Lemma position_issues_type s1 s2 pairs : forall i iss,
  In iss (position_issues s1 s2 i pairs) ->
  issue_type iss = "Continuity Character Position"
  /\ severity iss = "Medium" /\ scenes_of iss = [s1; s2].
Proof.
  induction pairs as [|[f1 f2] rest IH]; intros i iss; cbn [position_issues];
    [contradiction|].
  intros H. apply in_app_or in H. destruct H as [H|H].
  - destruct (0.4 <? face_shift f1 f2)%float; [|contradiction].
    destruct H as [<-|[]]. repeat split.
  - apply (IH (S i)). exact H.
Qed.

Lemma missing_issue_inj s1 s2 n n' :
  missing_issue s1 s2 n = missing_issue s1 s2 n' -> n = n'.
Proof.
  intros H. apply (f_equal issue_id) in H. cbn [issue_id missing_issue] in H.
  repeat apply append_inj_l in H. exact H.
Qed.

Lemma NoDup_map_fst_filter {V : Type} (p : string * V -> bool) (d : dict V) :
  NoDup (map fst d) -> NoDup (map fst (filter p d)).
Proof.
  induction d as [|kv d IH]; cbn [filter map]; [intros; constructor|].
  intros Hnd. inversion Hnd as [|? ? Hnotin Hnd']; subst.
  destruct (p kv); cbn [map]; [|apply IH; exact Hnd'].
  constructor; [|apply IH; exact Hnd'].
  intros Hin. apply Hnotin. apply in_map_iff in Hin.
  destruct Hin as (kv' & Hk & Hin'). apply filter_In in Hin'.
  rewrite <- Hk. apply in_map. apply Hin'.
Qed.

(** C4.  Between two adjacent scenes the object check works on one map
    from names to objects for each scene, the last object of a name
    winning.  The result set the validator holds gains one issue for
    each name of the earlier map whose object has a confidence above
    0.7 and that the later map lacks, and for no other name; each is of
    severity High and names both scenes.  What else the result set
    gains are character-position issues, and no other result set
    changes.  When no object of the earlier scene has a confidence
    above 0.7, no object-missing issue is added. *)
Theorem object_persistence (st : State) (scene1_id scene2_id : string)
  (scene1 scene2 : SceneEntry) :
  dict_get (scenes st) scene1_id = Some scene1 ->
  dict_get (scenes st) scene2_id = Some scene2 ->
  results st < List.length (heap st) ->
  let objs1 := get_list (objects (annotations scene1)) in
  let objs2 := get_list (objects (annotations scene2)) in
  let names := missing_names (by_name objs1) (by_name objs2) in
  exists st' others,
    _compare_scenes scene1_id scene2_id st = (Ok tt, st')
    /\ issues (current st')
       = (issues (current st)
          ++ map (missing_issue scene1_id scene2_id) names ++ others)%list
    /\ results st' = results st
    /\ (forall r, r <> results st -> deref (heap st') r = deref (heap st) r)
    /\ (forall i, In i others -> issue_type i = "Continuity Character Position")
    /\ (forall n, dict_get (by_name objs1) n = last_named objs1 n)
    /\ (forall n, dict_get (by_name objs2) n = last_named objs2 n)
    /\ NoDup names
    /\ (forall n, In n names <->
          exists obj, last_named objs1 n = Some obj
                      /\ (0.7 <? score obj)%float = true
                      /\ last_named objs2 n = None)
    /\ (forall n, severity (missing_issue scene1_id scene2_id n) = "High"
                  /\ issue_type (missing_issue scene1_id scene2_id n)
                     = "Continuity Object Missing"
                  /\ scenes_of (missing_issue scene1_id scene2_id n)
                     = [scene1_id; scene2_id])
    /\ ((forall o, In o objs1 -> (score o <=? 0.7)%float = true) -> names = []).
Proof.
  intros H1 H2 Hvalid. cbv zeta.
  set (objs1 := get_list (objects (annotations scene1))).
  set (objs2 := get_list (objects (annotations scene2))).
  assert (Hnames : forall n,
            In n (missing_names (by_name objs1) (by_name objs2)) <->
            exists obj, last_named objs1 n = Some obj
                        /\ (0.7 <? score obj)%float = true
                        /\ last_named objs2 n = None).
  { intros n. unfold missing_names, missing_items. rewrite in_map_iff. split.
    - intros ([n' obj] & Hn & Hin). cbn [fst] in Hn. subst n'.
      apply filter_In in Hin. destruct Hin as [Hin Hcond]. cbn [fst snd] in Hcond.
      apply andb_true_iff in Hcond. destruct Hcond as [Hscore Habsent].
      exists obj. rewrite <- !by_name_last.
      split; [apply dict_get_key; [exact Hin|apply by_name_nodup]|].
      split; [exact Hscore|].
      unfold dict_mem in Habsent.
      destruct (dict_get (by_name objs2) n); [discriminate|reflexivity].
    - intros (obj & Hlast & Hscore & Habsent).
      rewrite <- by_name_last in Hlast, Habsent.
      exists (n, obj). split; [reflexivity|].
      apply filter_In. split; [apply dict_get_in; exact Hlast|].
      cbn [fst snd]. rewrite Hscore. unfold dict_mem. rewrite Habsent. reflexivity. }
  set (others := if faces_comparable (annotations scene1) (annotations scene2)
                 then position_issues scene1_id scene2_id 0
                        (combine (get_list (faces (annotations scene1)))
                                 (get_list (faces (annotations scene2))))
                 else []).
  set (added := (map (missing_issue scene1_id scene2_id)
                   (missing_names (by_name objs1) (by_name objs2)) ++ others)%list).
  exists (emit st added), others.
  split.
  { rewrite compare_scenes_run, H1, H2. unfold continuity_issues, missing_issues.
    fold objs1 objs2. unfold added, missing_names. rewrite map_map. reflexivity. }
  split; [apply (emit_current st added Hvalid)|].
  split; [apply (emit_frame st added)|].
  split; [intros r Hr; apply emit_other; exact Hr|].
  split.
  { intros i Hi. unfold others in Hi.
    destruct (faces_comparable _ _); [|contradiction].
    apply position_issues_type in Hi. apply Hi. }
  split; [intros n; apply by_name_last|].
  split; [intros n; apply by_name_last|].
  split.
  { unfold missing_names, missing_items. apply NoDup_map_fst_filter.
    apply by_name_nodup. }
  split; [exact Hnames|]. split; [intros n; repeat split|].
  intros Hlow.
  destruct (missing_names (by_name objs1) (by_name objs2)) as [|n rest] eqn:E;
    [reflexivity|].
  exfalso. destruct (proj1 (Hnames n) (or_introl eq_refl)) as (obj & Hlast & Hscore & _).
  apply last_named_in in Hlast. destruct Hlast as [Hin _].
  rewrite (leb_not_gt _ _ (Hlow obj Hin)) in Hscore. discriminate.
Qed.

End ObjectPersistence.

Lemma object_persistence_witness :
  exists st' others,
    _compare_scenes "s2" "s1" sample_state = (Ok tt, st')
    /\ issues (current st') = missing_issue "s2" "s1" "door" :: others.
Proof.
  destruct (object_persistence sample_state "s2" "s1"
              (entry_of sample_world "corner.jpg")
              (entry_of sample_world "centered.jpg") eq_refl eq_refl Nat.lt_0_1)
    as (st' & others & Hrun & Hissues & _).
  exists st', others. split; [exact Hrun|]. rewrite Hissues. reflexivity.
Defined.


Section CharacterDisplacement.

Lemma position_issue_inj s1 s2 i j :
  position_issue s1 s2 i = position_issue s1 s2 j -> i = j.
Proof.
  intros H. apply (f_equal issue_id) in H. cbn [issue_id position_issue] in H.
  do 5 apply append_inj_l in H. apply str_of_nat_inj. exact H.
Qed.

Lemma position_issues_in s1 s2 pairs : forall i0 i,
  In (position_issue s1 s2 i) (position_issues s1 s2 i0 pairs)
  <-> exists face1 face2,
        i0 <= i /\ nth_error pairs (i - i0) = Some (face1, face2)
        /\ (0.4 <? face_shift face1 face2)%float = true.
Proof.
  induction pairs as [|[f1 f2] rest IH]; intros i0 i; cbn [position_issues].
  - split; [contradiction|]. intros (a & b & _ & H & _). destruct (i - i0); discriminate.
  - rewrite in_app_iff, IH. split.
    + intros [H|(a & b & Hle & Hnth & Hs)].
      * destruct (0.4 <? face_shift f1 f2)%float eqn:E; [|contradiction].
        destruct H as [H|[]]. apply position_issue_inj in H. subst i0.
        exists f1, f2. rewrite Nat.sub_diag. repeat split; [lia|exact E].
      * exists a, b. split; [lia|]. split; [|exact Hs].
        replace (i - i0) with (S (i - S i0)) by lia. exact Hnth.
    + intros (a & b & Hle & Hnth & Hs).
      destruct (Nat.eq_dec i i0) as [->|Hne].
      * left. rewrite Nat.sub_diag in Hnth. injection Hnth as -> ->.
        rewrite Hs. left; reflexivity.
      * right. exists a, b. split; [lia|]. split; [|exact Hs].
        replace (i - i0) with (S (i - S i0)) in Hnth by lia. exact Hnth.
Qed.

Lemma position_issues_shape s1 s2 pairs : forall i0 iss,
  In iss (position_issues s1 s2 i0 pairs) -> exists k, iss = position_issue s1 s2 k.
Proof.
  induction pairs as [|[f1 f2] rest IH]; intros i0 iss; cbn [position_issues];
    [contradiction|].
  intros H. apply in_app_or in H. destruct H as [H|H]; [|apply (IH (S i0)), H].
  destruct (0.4 <? face_shift f1 f2)%float; [|contradiction].
  destruct H as [<-|[]]. exists i0. reflexivity.
Qed.

Lemma nth_error_combine {A B : Type} (l1 : list A) (l2 : list B) i a b :
  nth_error (combine l1 l2) i = Some (a, b)
  <-> nth_error l1 i = Some a /\ nth_error l2 i = Some b.
Proof.
  revert l2 i; induction l1 as [|x l1 IH]; intros [|y l2] [|i]; cbn;
    try (split; [discriminate|intros [H1 H2]; discriminate]).
  - split; [intros H; injection H as -> ->; split; reflexivity|].
    intros [H1 H2]. congruence.
  - apply IH.
Qed.

(** X21.  What the second check of [_compare_scenes] does with the
    vertices it is given.  The result set the validator holds gains the
    object-missing issues, then the position issues, and no other
    result set changes.  There is no position issue when the two
    scenes do not show the same number of faces; otherwise there is
    one, of severity Medium and naming both scenes, for each index at
    which the two faces are more than 0.4 apart horizontally, the
    place of a face being the sum of the x coordinates of its
    vertices divided by 4. *)
Lemma character_displacement_rule (st : State) (scene1_id scene2_id : string)
  (scene1 scene2 : SceneEntry) :
  dict_get (scenes st) scene1_id = Some scene1 ->
  dict_get (scenes st) scene2_id = Some scene2 ->
  results st < List.length (heap st) ->
  let faces1 := get_list (faces (annotations scene1)) in
  let faces2 := get_list (faces (annotations scene2)) in
  let place face :=
    (float_of_Z (fold_left Z.add (map v_x (face_vertices face)) 0%Z)
     / float_of_Z 4)%float in
  exists st' before positions,
    _compare_scenes scene1_id scene2_id st = (Ok tt, st')
    /\ issues (current st') = (issues (current st) ++ before ++ positions)%list
    /\ results st' = results st
    /\ (forall r, r <> results st -> deref (heap st') r = deref (heap st) r)
    /\ (forall i, In i before -> issue_type i = "Continuity Object Missing")
    /\ (List.length faces1 <> List.length faces2 -> positions = [])
    /\ (forall i,
          In (position_issue scene1_id scene2_id i) positions
          <-> List.length faces1 = List.length faces2
              /\ exists face1 face2,
                   nth_error faces1 i = Some face1
                   /\ nth_error faces2 i = Some face2
                   /\ (0.4 <? abs (place face1 - place face2))%float = true)
    /\ (forall i, In i positions ->
          exists k, i = position_issue scene1_id scene2_id k)
    /\ (forall i, In i positions ->
          issue_type i = "Continuity Character Position"
          /\ severity i = "Medium"
          /\ scenes_of i = [scene1_id; scene2_id]).
Proof.
  intros H1 H2 Hvalid. cbv zeta.
  rewrite compare_scenes_run, H1, H2. unfold continuity_issues.
  match goal with |- context [emit st (?b ++ ?p)%list] =>
    exists (emit st (b ++ p)%list), b, p end.
  split; [reflexivity|].
  split; [apply (emit_current st _ Hvalid)|].
  split; [apply (emit_frame st)|].
  split; [intros r Hr; apply emit_other; exact Hr|].
  split.
  { intros i Hi. unfold missing_issues in Hi. apply in_map_iff in Hi.
    destruct Hi as (item & <- & _). reflexivity. }
  unfold faces_comparable.
  destruct (truthy (faces (annotations scene1))) eqn:T1,
           (truthy (faces (annotations scene2))) eqn:T2; cbn [andb].
  - destruct (Nat.eqb_spec (List.length (get_list (faces (annotations scene1))))
                           (List.length (get_list (faces (annotations scene2)))))
      as [Hlen|Hlen].
    + split; [congruence|]. split; [|split].
      * intros i. rewrite position_issues_in. split.
        -- intros (a & b & _ & Hnth & Hs). rewrite Nat.sub_0_r in Hnth.
           apply nth_error_combine in Hnth. split; [exact Hlen|].
           exists a, b. split; [apply Hnth|]. split; [apply Hnth|exact Hs].
        -- intros (_ & a & b & Ha & Hb & Hs). exists a, b. split; [lia|].
           rewrite Nat.sub_0_r. split; [|exact Hs].
           apply nth_error_combine. split; assumption.
      * intros i Hi. apply position_issues_shape in Hi. exact Hi.
      * intros i Hi. apply position_issues_type in Hi. exact Hi.
    + split; [reflexivity|]. split; [|split; intros i []].
      intros i. split; [contradiction|]. intros [Hl _]. contradiction.
  - split; [reflexivity|]. split; [|split; intros i []].
    intros i. split; [contradiction|]. intros (Hl & a & b & Ha & Hb & _).
    destruct (faces (annotations scene2)) as [[|x l]|]; try discriminate T2;
      destruct i; discriminate Hb.
  - split; [reflexivity|]. split; [|split; intros i []].
    intros i. split; [contradiction|]. intros (Hl & a & b & Ha & Hb & _).
    destruct (faces (annotations scene1)) as [[|x l]|]; try discriminate T1;
      destruct i; discriminate Ha.
  - split; [reflexivity|]. split; [|split; intros i []].
    intros i. split; [contradiction|]. intros (Hl & a & b & Ha & Hb & _).
    destruct (faces (annotations scene1)) as [[|x l]|]; try discriminate T1;
      destruct i; discriminate Ha.
Qed.

End CharacterDisplacement.

Section FrameFacts.

Variable w : World.

Lemma same_scenes_refl a : same_scenes a a.
Proof. repeat split. Qed.

Lemma same_scenes_sym a b : same_scenes a b -> same_scenes b a.
Proof. intros (H1 & H2 & H3 & H4). repeat split; congruence. Qed.

Lemma same_scenes_trans a b c : same_scenes a b -> same_scenes b c -> same_scenes a c.
Proof.
  intros (H1 & H2 & H3 & H4) (G1 & G2 & G3 & G4). repeat split; congruence.
Qed.

Lemma body_frame_refl a : body_frame a a.
Proof. split; [apply same_scenes_refl|]. repeat split. Qed.

Lemma body_frame_trans a b c : body_frame a b -> body_frame b c -> body_frame a c.
Proof.
  intros (H1 & H2 & H3 & H4) (G1 & G2 & G3 & G4).
  split; [eapply same_scenes_trans; eassumption|].
  split; [congruence|]. split; [congruence|].
  intros r Hr. rewrite G4 by congruence. apply H4. exact Hr.
Qed.

Lemma key_paths_keys d : map fst (key_paths d) = dict_keys d.
Proof. unfold key_paths, dict_keys. rewrite map_map. reflexivity. Qed.

Lemma key_paths_get d d' id :
  key_paths d = key_paths d' ->
  option_map path (dict_get d id) = option_map path (dict_get d' id).
Proof.
  revert d'; induction d as [|[k v] d IH]; intros [|[k' v'] d']; cbn [key_paths map];
    try discriminate; [reflexivity|].
  cbn [fst snd]. intros H. injection H as -> Hp Hrest. cbn [dict_get].
  destruct (String.eqb id k'); [cbn; congruence|]. apply IH. exact Hrest.
Qed.

Lemma key_paths_set d id v v0 :
  dict_get d id = Some v0 -> path v = path v0 ->
  key_paths (dict_set d id v) = key_paths d.
Proof.
  induction d as [|[k x] d IH]; cbn [dict_get dict_set]; [discriminate|].
  intros Hget Hp. destruct (String.eqb_spec id k) as [->|Hne].
  - injection Hget as ->. cbn [key_paths map fst snd]. rewrite Hp. reflexivity.
  - cbn [key_paths map]. f_equal. apply IH; assumption.
Qed.

Lemma body_frame_emit st l : body_frame st (emit st l).
Proof.
  destruct (emit_frame st l) as (H1 & H2 & H3 & H4 & H5 & _ & _ & _ & H9).
  split; [repeat split; congruence|]. split; [exact H5|].
  split; [rewrite H9; apply update_length|].
  intros r Hr. apply emit_other. exact Hr.
Qed.

Lemma body_frame_put st id scene a :
  dict_get (scenes st) id = Some scene ->
  body_frame st (put_scene st id (annotated scene a)).
Proof.
  intros Hget. split; [|repeat split].
  repeat split. cbn. symmetry. apply (key_paths_set _ _ _ scene); [exact Hget|reflexivity].
Qed.

Lemma body_frame_process id st : body_frame st (snd (_process_scene w id st)).
Proof.
  rewrite process_scene_run.
  destruct (dict_get (scenes st) id) as [scene|] eqn:E; [|apply body_frame_refl].
  destruct (annotate_image w (path scene)) as [found|e]; [|apply body_frame_refl].
  cbv zeta.
  pose proof (body_frame_put st id scene (annotations_of found) E) as Hput.
  destruct (image_size w (path scene)) as [size|e]; [|exact Hput].
  destruct (composition_issues _ _ _ _) as [l|e]; [|exact Hput].
  cbn [snd]. eapply body_frame_trans; [exact Hput|apply body_frame_emit].
Qed.

Lemma body_frame_compare id1 id2 st :
  body_frame st (snd (_compare_scenes id1 id2 st)).
Proof.
  rewrite compare_scenes_run.
  destruct (dict_get (scenes st) id1); [|apply body_frame_refl].
  destruct (dict_get (scenes st) id2); [|apply body_frame_refl].
  apply body_frame_emit.
Qed.

Lemma for_each_frame {A : Type} (R : State -> State -> Prop) (body : A -> M unit) l :
  (forall a, R a a) ->
  (forall a b c, R a b -> R b c -> R a c) ->
  (forall x st, R st (snd (body x st))) ->
  forall st, R st (snd (for_each l body st)).
Proof.
  intros Hrefl Htrans Hbody. induction l as [|x l IH]; intros st; cbn [for_each].
  - apply Hrefl.
  - unfold bind. pose proof (Hbody x st) as Hx.
    destruct (body x st) as [[[]|e] st']; cbn [snd] in *.
    + eapply Htrans; [exact Hx|apply IH].
    + exact Hx.
Qed.

Lemma body_frame_store st : body_frame st (snd (_store_results w st)).
Proof.
  unfold _store_results, bind, get.
  destruct (use_firebase st); cbn [negb]; [|apply body_frame_refl].
  cbn [now]. destruct (firestore_up w), (project_up w); cbn; repeat split.
Qed.

Lemma body_frame_process_all order st :
  body_frame st (snd (process_all w order st)).
Proof.
  unfold process_all. apply (for_each_frame body_frame);
    [apply body_frame_refl|apply body_frame_trans|apply body_frame_process].
Qed.

Lemma body_frame_compare_all order st :
  body_frame st (snd (compare_all order st)).
Proof.
  unfold compare_all. apply (for_each_frame body_frame);
    [apply body_frame_refl|apply body_frame_trans|].
  intros p s. apply body_frame_compare.
Qed.

(** The shape of a run. *)
Lemma validate_run st :
  validate w st
  = match scenes st with
    | [] => (Ok (results st), snd (logger WARNING "No scenes to validate" st))
    | _ :: _ =>
        match process_all w (scene_order st) (prelude st) with
        | (Raise e, s) => (Raise e, s)
        | (Ok _, s1) =>
            match compare_all (scene_order st) s1 with
            | (Raise e, s) => (Raise e, s)
            | (Ok _, s2) =>
                match when (use_firebase s2) (_store_results w) s2 with
                | (Raise e, s) => (Raise e, s)
                | (Ok _, s3) =>
                    (Ok (results s3),
                     snd (logger INFO
                            ("Validation completed with "
                             ++ str_of_nat (List.length (issues (current s3)))
                             ++ " issues found") s3))
                end
            end
        end
    end.
Proof.
  cbv beta iota delta [validate prelude process_all compare_all bind get logger
                       new_results now set_heap ret set_results set_scene_count
                       fst snd scenes results heap].
  destruct st as [pid sc order fb r h lg ck sto]. cbn [scenes scene_order].
  destruct sc as [|kv rest]; [reflexivity|].
  cbv beta iota delta [fst snd scenes results heap project_id scene_order
                       use_firebase log clock stored].
  match goal with |- context [for_each order (_process_scene w) ?s] =>
    destruct (for_each order (_process_scene w) s) as [[[]|e] s1] end;
    [|reflexivity].
  match goal with |- context [for_each (adjacent_pairs order) ?f ?s] =>
    destruct (for_each (adjacent_pairs order) f s) as [[[]|e] s2] end;
    [|reflexivity].
  destruct (when _ (_store_results w) s2) as [[[]|e] s3]; reflexivity.
Qed.

End FrameFacts.

Section SyncFacts.

Variable w : World.

Lemma body_frame_valid a b : body_frame a b -> valid a -> valid b.
Proof. unfold valid. intros (_ & Hr & Hl & _) Hv. rewrite Hr, Hl. exact Hv. Qed.

Lemma put_scene_current st id scene : current (put_scene st id scene) = current st.
Proof. reflexivity. Qed.

Lemma same_scenes_get a b id :
  same_scenes a b ->
  option_map path (dict_get (scenes a) id) = option_map path (dict_get (scenes b) id).
Proof. intros (_ & _ & _ & H). apply key_paths_get. exact H. Qed.

Lemma process_step_sync id a b done :
  same_scenes a b -> valid a -> valid b ->
  issues (current a) = issues (current b) ->
  synced a b done ->
  fst (_process_scene w id a) = fst (_process_scene w id b)
  /\ issues (current (snd (_process_scene w id a)))
     = issues (current (snd (_process_scene w id b)))
  /\ (fst (_process_scene w id a) = Ok tt ->
      synced (snd (_process_scene w id a)) (snd (_process_scene w id b)) (id :: done)).
Proof.
  intros Hsame Hva Hvb Hcur Hsync.
  pose proof (same_scenes_get a b id Hsame) as Hget.
  rewrite !process_scene_run.
  destruct (dict_get (scenes a) id) as [sa|] eqn:Ea,
           (dict_get (scenes b) id) as [sb|] eqn:Eb; try discriminate Hget.
  2:{ cbn [fst snd]. split; [reflexivity|]. split; [exact Hcur|discriminate]. }
  cbn [option_map] in Hget. injection Hget as Hpath. rewrite <- Hpath.
  destruct (annotate_image w (path sa)) as [found|e].
  2:{ cbn [fst snd]. split; [reflexivity|]. split; [exact Hcur|discriminate]. }
  cbv zeta.
  destruct (image_size w (path sa)) as [size|e].
  2:{ cbn [fst snd]. split; [reflexivity|]. split; [exact Hcur|discriminate]. }
  destruct (composition_issues id (fst size) (snd size) (map object_entry (fst found)))
    as [l|e].
  2:{ cbn [fst snd]. split; [reflexivity|]. split; [exact Hcur|discriminate]. }
  cbn [fst snd]. split; [reflexivity|]. split.
  - destruct (emit_current (put_scene a id (annotated sa (annotations_of found))) l Hva)
      as (-> & _).
    destruct (emit_current (put_scene b id (annotated sb (annotations_of found))) l Hvb)
      as (-> & _).
    rewrite !put_scene_current, Hcur. reflexivity.
  - intros _ id' Hin.
    destruct (emit_frame (put_scene a id (annotated sa (annotations_of found))) l)
      as (_ & -> & _).
    destruct (emit_frame (put_scene b id (annotated sb (annotations_of found))) l)
      as (_ & -> & _).
    cbn [put_scene set_scenes snd scenes]. rewrite !dict_get_set.
    destruct (String.eqb_spec id' id) as [->|Hne]; [reflexivity|].
    destruct Hin as [Heq|Hin]; [congruence|]. apply Hsync. exact Hin.
Qed.

Lemma process_all_sync ids : forall done a b,
  same_scenes a b -> valid a -> valid b ->
  issues (current a) = issues (current b) ->
  synced a b done ->
  fst (process_all w ids a) = fst (process_all w ids b)
  /\ issues (current (snd (process_all w ids a)))
     = issues (current (snd (process_all w ids b)))
  /\ (fst (process_all w ids a) = Ok tt ->
      synced (snd (process_all w ids a)) (snd (process_all w ids b)) (ids ++ done)).
Proof.
  unfold process_all.
  induction ids as [|id ids IH]; intros done a b Hsame Hva Hvb Hcur Hsync.
  - cbn. split; [reflexivity|]. split; [exact Hcur|]. intros _. exact Hsync.
  - cbn [for_each]. unfold bind.
    destruct (process_step_sync id a b done Hsame Hva Hvb Hcur Hsync)
      as (Hfst & Hcur' & Hsync').
    pose proof (body_frame_process w id a) as Hfa.
    pose proof (body_frame_process w id b) as Hfb.
    destruct (_process_scene w id a) as [[[]|e] a'],
             (_process_scene w id b) as [[[]|e'] b']; cbn [fst snd] in *;
      try discriminate Hfst.
    + assert (Hsame' : same_scenes a' b').
      { eapply same_scenes_trans; [apply same_scenes_sym; apply Hfa|].
        eapply same_scenes_trans; [exact Hsame|apply Hfb]. }
      destruct (IH (id :: done) a' b' Hsame'
                  (body_frame_valid _ _ Hfa Hva) (body_frame_valid _ _ Hfb Hvb)
                  Hcur' (Hsync' eq_refl)) as (H1 & H2 & H3).
      split; [exact H1|]. split; [exact H2|].
      intros Hok id' Hin. apply (H3 Hok).
      apply in_app_or in Hin. apply in_or_app.
      destruct Hin as [[<-|Hin]|Hin]; [right; left; reflexivity|left; exact Hin|].
      right. right. exact Hin.
    + split; [exact Hfst|]. split; [exact Hcur'|discriminate].
Qed.

Lemma compare_step_sync id1 id2 a b ids :
  same_scenes a b -> valid a -> valid b ->
  issues (current a) = issues (current b) ->
  synced a b ids -> In id1 ids -> In id2 ids ->
  fst (_compare_scenes id1 id2 a) = fst (_compare_scenes id1 id2 b)
  /\ issues (current (snd (_compare_scenes id1 id2 a)))
     = issues (current (snd (_compare_scenes id1 id2 b)))
  /\ synced (snd (_compare_scenes id1 id2 a)) (snd (_compare_scenes id1 id2 b)) ids.
Proof.
  intros Hsame Hva Hvb Hcur Hsync H1 H2.
  pose proof (Hsync id1 H1) as Ha1. pose proof (Hsync id2 H2) as Ha2.
  rewrite !compare_scenes_run.
  destruct (dict_get (scenes a) id1) as [a1|], (dict_get (scenes b) id1) as [b1|];
    try discriminate Ha1;
    [|cbn [fst snd]; split; [reflexivity|]; split; [exact Hcur|exact Hsync]].
  destruct (dict_get (scenes a) id2) as [a2|], (dict_get (scenes b) id2) as [b2|];
    try discriminate Ha2;
    [|cbn [fst snd]; split; [reflexivity|]; split; [exact Hcur|exact Hsync]].
  cbn [option_map] in Ha1, Ha2. injection Ha1 as ->. injection Ha2 as ->.
  cbn [fst snd]. split; [reflexivity|]. split.
  - destruct (emit_current a (continuity_issues id1 id2 (annotations b1) (annotations b2)) Hva)
      as (-> & _).
    destruct (emit_current b (continuity_issues id1 id2 (annotations b1) (annotations b2)) Hvb)
      as (-> & _).
    rewrite Hcur. reflexivity.
  - intros id Hin.
    destruct (emit_frame a (continuity_issues id1 id2 (annotations b1) (annotations b2)))
      as (_ & -> & _).
    destruct (emit_frame b (continuity_issues id1 id2 (annotations b1) (annotations b2)))
      as (_ & -> & _).
    apply Hsync. exact Hin.
Qed.

Lemma adjacent_pairs_in order x y :
  In (x, y) (adjacent_pairs order) -> In x order /\ In y order.
Proof.
  induction order as [|a [|b rest] IH]; cbn [adjacent_pairs]; try contradiction.
  intros [H|H].
  - injection H as <- <-. split; [left; reflexivity|right; left; reflexivity].
  - destruct (IH H) as [Hx Hy]. split; right; assumption.
Qed.

Lemma compare_pairs_sync pairs : forall ids a b,
  same_scenes a b -> valid a -> valid b ->
  issues (current a) = issues (current b) ->
  synced a b ids ->
  (forall p, In p pairs -> In (fst p) ids /\ In (snd p) ids) ->
  fst (for_each pairs (fun p => _compare_scenes (fst p) (snd p)) a)
  = fst (for_each pairs (fun p => _compare_scenes (fst p) (snd p)) b)
  /\ issues (current (snd (for_each pairs (fun p => _compare_scenes (fst p) (snd p)) a)))
     = issues (current (snd (for_each pairs (fun p => _compare_scenes (fst p) (snd p)) b))).
Proof.
  induction pairs as [|p pairs IH]; intros ids a b Hsame Hva Hvb Hcur Hsync Hin.
  - cbn. split; [reflexivity|exact Hcur].
  - cbn [for_each]. unfold bind.
    destruct (Hin p (or_introl eq_refl)) as [Hp1 Hp2].
    destruct (compare_step_sync (fst p) (snd p) a b ids Hsame Hva Hvb Hcur Hsync Hp1 Hp2)
      as (Hfst & Hcur' & Hsync').
    pose proof (body_frame_compare (fst p) (snd p) a) as Hfa.
    pose proof (body_frame_compare (fst p) (snd p) b) as Hfb.
    destruct (_compare_scenes (fst p) (snd p) a) as [[[]|e] a'],
             (_compare_scenes (fst p) (snd p) b) as [[[]|e'] b']; cbn [fst snd] in *;
      try discriminate Hfst.
    + apply (IH ids); try assumption.
      * eapply same_scenes_trans; [apply same_scenes_sym; apply Hfa|].
        eapply same_scenes_trans; [exact Hsame|apply Hfb].
      * exact (body_frame_valid _ _ Hfa Hva).
      * exact (body_frame_valid _ _ Hfb Hvb).
      * intros q Hq. apply Hin. right. exact Hq.
    + split; [exact Hfst|exact Hcur'].
Qed.

End SyncFacts.

Section RunTheorems.

Variable w : World.

Lemma update_last {A : Type} (f : A -> A) h x :
  update (h ++ [x]) (List.length h) f = (h ++ [f x])%list.
Proof.
  induction h as [|y h IH]; cbn [app List.length update]; [reflexivity|].
  rewrite IH. reflexivity.
Qed.

Lemma prelude_facts st :
  same_scenes st (prelude st)
  /\ results (prelude st) = List.length (heap st)
  /\ heap (prelude st)
     = (heap st ++ [mkResults [] (clock st) (List.length (scenes st))])%list.
Proof.
  unfold prelude.
  cbv beta iota delta [bind get logger new_results now set_heap ret set_results
                       set_scene_count fst snd].
  cbn [project_id scenes scene_order use_firebase results heap log clock stored].
  split; [repeat split|]. split; [reflexivity|].
  rewrite update_last. reflexivity.
Qed.

Lemma prelude_current st :
  valid (prelude st)
  /\ current (prelude st) = mkResults [] (clock st) (List.length (scenes st)).
Proof.
  destruct (prelude_facts st) as (_ & Hr & Hh). unfold valid, current.
  rewrite Hr, Hh. split; [rewrite length_app; cbn; lia|].
  unfold deref. rewrite app_nth2 by lia. rewrite Nat.sub_diag. reflexivity.
Qed.

Lemma prelude_old st r0 :
  r0 < List.length (heap st) -> deref (heap (prelude st)) r0 = deref (heap st) r0.
Proof.
  intros Hlt. destruct (prelude_facts st) as (_ & _ & ->).
  unfold deref. apply app_nth1. exact Hlt.
Qed.

Lemma store_step st :
  body_frame st (snd (when (use_firebase st) (_store_results w) st))
  /\ heap (snd (when (use_firebase st) (_store_results w) st)) = heap st
  /\ fst (when (use_firebase st) (_store_results w) st)
     = if use_firebase st && negb (firestore_up w && project_up w)
       then Raise ServiceError else Ok tt.
Proof.
  destruct (use_firebase st) eqn:E; cbn [when andb].
  - split; [apply body_frame_store|].
    unfold _store_results, bind, get. rewrite E. cbn [negb now].
    destruct (firestore_up w), (project_up w); cbn; split; reflexivity.
  - split; [apply body_frame_refl|]. split; reflexivity.
Qed.

(** A run leaves the scenes to validate as they were. *)
Lemma validate_frame st : same_scenes st (snd (validate w st)).
Proof.
  rewrite validate_run. destruct (scenes st) as [|kv rest] eqn:E.
  - repeat split.
  - destruct (prelude_facts st) as (H0 & _).
    pose proof (body_frame_process_all w (scene_order st) (prelude st)) as (H1 & _).
    destruct (process_all w (scene_order st) (prelude st)) as [[[]|e] s1]; cbn [snd] in *.
    2:{ eapply same_scenes_trans; [exact H0|exact H1]. }
    pose proof (body_frame_compare_all (scene_order st) s1) as (H2 & _).
    destruct (compare_all (scene_order st) s1) as [[[]|e] s2]; cbn [snd] in *.
    2:{ eapply same_scenes_trans; [exact H0|].
        eapply same_scenes_trans; [exact H1|exact H2]. }
    destruct (store_step s2) as ((H3 & _) & _).
    assert (H02 : same_scenes st s2).
    { eapply same_scenes_trans; [exact H0|].
      eapply same_scenes_trans; [exact H1|exact H2]. }
    destruct (when (use_firebase s2) (_store_results w) s2) as [[[]|e] s3]; cbn [snd] in *.
    + eapply same_scenes_trans; [exact H02|].
      eapply same_scenes_trans; [exact H3|]. repeat split.
    + eapply same_scenes_trans; [exact H02|exact H3].
Qed.

Lemma same_scenes_nonempty a b :
  same_scenes a b -> scenes a <> [] -> scenes b <> [].
Proof.
  intros (_ & _ & _ & H) Ha Hb. rewrite Hb in H.
  destruct (scenes a); [congruence|discriminate].
Qed.

(** What a run over scenes hands back depends on the scenes, their
    order and the world alone. *)
Lemma validate_sync a b :
  same_scenes a b -> scenes a <> [] ->
  issues_of (validate w a) = issues_of (validate w b).
Proof.
  intros Hsame Hne. pose proof (same_scenes_nonempty a b Hsame Hne) as Hne'.
  rewrite !validate_run.
  destruct (scenes a) as [|kva resta] eqn:Ea; [congruence|].
  destruct (scenes b) as [|kvb restb] eqn:Eb; [congruence|].
  destruct (prelude_facts a) as (Hpa & _). destruct (prelude_facts b) as (Hpb & _).
  destruct (prelude_current a) as (Hva & Hca).
  destruct (prelude_current b) as (Hvb & Hcb).
  assert (Hsame0 : same_scenes (prelude a) (prelude b)).
  { eapply same_scenes_trans; [apply same_scenes_sym; exact Hpa|].
    eapply same_scenes_trans; [exact Hsame|exact Hpb]. }
  assert (Horder : scene_order a = scene_order b) by apply Hsame.
  rewrite <- Horder.
  destruct (process_all_sync w (scene_order a) [] (prelude a) (prelude b)
              Hsame0 Hva Hvb) as (Hf1 & Hc1 & Hs1).
  { rewrite Hca, Hcb. reflexivity. }
  { intros id []. }
  pose proof (body_frame_process_all w (scene_order a) (prelude a)) as Hfa1.
  pose proof (body_frame_process_all w (scene_order a) (prelude b)) as Hfb1.
  destruct (process_all w (scene_order a) (prelude a)) as [[[]|e] a1],
           (process_all w (scene_order a) (prelude b)) as [[[]|e'] b1];
    cbn [fst snd] in *; try discriminate Hf1.
  2:{ unfold issues_of. cbn [fst]. congruence. }
  assert (Hsame1 : same_scenes a1 b1).
  { eapply same_scenes_trans; [apply same_scenes_sym; apply Hfa1|].
    eapply same_scenes_trans; [exact Hsame0|apply Hfb1]. }
  pose proof (body_frame_valid _ _ Hfa1 Hva) as Hva1.
  pose proof (body_frame_valid _ _ Hfb1 Hvb) as Hvb1.
  unfold compare_all.
  destruct (compare_pairs_sync (adjacent_pairs (scene_order a))
              (scene_order a ++ []) a1 b1 Hsame1 Hva1 Hvb1 Hc1 (Hs1 eq_refl))
    as (Hf2 & Hc2).
  { intros [x y] Hp. apply adjacent_pairs_in in Hp. rewrite app_nil_r. exact Hp. }
  pose proof (body_frame_compare_all (scene_order a) a1) as Hfa2.
  pose proof (body_frame_compare_all (scene_order a) b1) as Hfb2.
  unfold compare_all in Hfa2, Hfb2.
  destruct (for_each (adjacent_pairs (scene_order a)) _ a1) as [[[]|e] a2],
           (for_each (adjacent_pairs (scene_order a)) _ b1) as [[[]|e'] b2];
    cbn [fst snd] in *; try discriminate Hf2.
  2:{ unfold issues_of. cbn [fst]. congruence. }
  assert (Hsame2 : same_scenes a2 b2).
  { eapply same_scenes_trans; [apply same_scenes_sym; apply Hfa2|].
    eapply same_scenes_trans; [exact Hsame1|apply Hfb2]. }
  destruct (store_step a2) as ((_ & Hra & _ & _) & Hha & Hfa3).
  destruct (store_step b2) as ((_ & Hrb & _ & _) & Hhb & Hfb3).
  assert (Hfb : use_firebase a2 = use_firebase b2) by apply Hsame2.
  assert (Hf3 : fst (when (use_firebase a2) (_store_results w) a2)
                = fst (when (use_firebase b2) (_store_results w) b2))
    by (rewrite Hfa3, Hfb3, Hfb; reflexivity).
  clear Hfa3 Hfb3.
  destruct (when (use_firebase a2) (_store_results w) a2) as [[[]|e] a3],
           (when (use_firebase b2) (_store_results w) b2) as [[[]|e'] b3];
    cbn [fst snd] in *; try discriminate Hf3.
  2:{ unfold issues_of. cbn [fst]. congruence. }
  unfold issues_of. cbn [fst snd logger heap].
  unfold current in Hc2. rewrite Hra, Hrb, Hha, Hhb, Hc2. reflexivity.
Qed.

End RunTheorems.

Section ResultSets.

Variable w : World.

Lemma count_frame_refl a : count_frame a a.
Proof. intros H. split; [exact H|reflexivity]. Qed.

Lemma count_frame_trans a b c : count_frame a b -> count_frame b c -> count_frame a c.
Proof.
  intros Hab Hbc Ha. destruct (Hab Ha) as [Hb E1]. destruct (Hbc Hb) as [Hc E2].
  split; [exact Hc|congruence].
Qed.

Lemma count_frame_emit st l : count_frame st (emit st l).
Proof.
  intros Hv. split; [exact (body_frame_valid _ _ (body_frame_emit st l) Hv)|].
  apply (emit_current st l Hv).
Qed.

Lemma count_frame_process id st : count_frame st (snd (_process_scene w id st)).
Proof.
  rewrite process_scene_run.
  destruct (dict_get (scenes st) id) as [scene|]; [|apply count_frame_refl].
  destruct (annotate_image w (path scene)) as [found|e]; [|apply count_frame_refl].
  cbv zeta.
  assert (Hput : count_frame st (put_scene st id (annotated scene (annotations_of found))))
    by (intros Hv; split; [exact Hv|reflexivity]).
  destruct (image_size w (path scene)) as [size|e]; [|exact Hput].
  destruct (composition_issues _ _ _ _) as [l|e]; [|exact Hput].
  cbn [snd]. eapply count_frame_trans; [exact Hput|apply count_frame_emit].
Qed.

Lemma count_frame_compare id1 id2 st :
  count_frame st (snd (_compare_scenes id1 id2 st)).
Proof.
  rewrite compare_scenes_run.
  destruct (dict_get (scenes st) id1); [|apply count_frame_refl].
  destruct (dict_get (scenes st) id2); [|apply count_frame_refl].
  apply count_frame_emit.
Qed.

(** What a completed run over scenes returns: a new result set, the old
    ones left as they were. *)
Lemma validate_fresh st r st' :
  scenes st <> [] -> validate w st = (Ok r, st') ->
  r = List.length (heap st)
  /\ results st' = r
  /\ scene_count (deref (heap st') r) = List.length (scenes st)
  /\ forall r0, r0 < List.length (heap st) -> deref (heap st') r0 = deref (heap st) r0.
Proof.
  intros Hne. rewrite validate_run.
  destruct (scenes st) as [|kv rest] eqn:E; [congruence|]. rewrite <- E. clear Hne.
  destruct (prelude_facts st) as (_ & Hr0 & _).
  destruct (prelude_current st) as (Hv0 & Hc0).
  pose proof (body_frame_process_all w (scene_order st) (prelude st)) as (_ & Hr1 & Hl1 & Ho1).
  assert (Hk1 : count_frame (prelude st) (snd (process_all w (scene_order st) (prelude st)))).
  { unfold process_all. apply (for_each_frame count_frame);
      [apply count_frame_refl|apply count_frame_trans|apply count_frame_process]. }
  destruct (process_all w (scene_order st) (prelude st)) as [[[]|e] s1];
    cbn [snd] in *; [|discriminate].
  pose proof (body_frame_compare_all (scene_order st) s1) as (_ & Hr2 & Hl2 & Ho2).
  assert (Hk2 : count_frame s1 (snd (compare_all (scene_order st) s1))).
  { unfold compare_all. apply (for_each_frame count_frame);
      [apply count_frame_refl|apply count_frame_trans|].
    intros p s. apply count_frame_compare. }
  destruct (compare_all (scene_order st) s1) as [[[]|e] s2];
    cbn [snd] in *; [|discriminate].
  destruct (store_step w s2) as ((_ & Hr3 & _ & _) & Hh3 & _).
  destruct (when (use_firebase s2) (_store_results w) s2) as [[[]|e] s3];
    cbn [snd] in *; [|discriminate].
  intros H; injection H as <- <-. cbn [logger snd heap results].
  destruct (Hk1 Hv0) as (Hv1 & Hc1). destruct (Hk2 Hv1) as (Hv2 & Hc2).
  assert (Hr : results s3 = List.length (heap st)) by congruence.
  split; [exact Hr|]. split; [reflexivity|]. split.
  - rewrite Hh3, Hr3. fold (current s2). rewrite Hc2, Hc1, Hc0. reflexivity.
  - intros r0 Hlt. rewrite Hh3.
    rewrite Ho2 by (rewrite Hr1, Hr0; lia).
    rewrite Ho1 by (rewrite Hr0; lia).
    apply prelude_old. exact Hlt.
Qed.

Lemma validate_raise_old st r0 :
  r0 < List.length (heap st) ->
  deref (heap (snd (validate w st))) r0 = deref (heap st) r0.
Proof.
  intros Hlt. rewrite validate_run.
  destruct (scenes st) as [|kv rest] eqn:E; [reflexivity|].
  destruct (prelude_facts st) as (_ & Hr0 & _).
  pose proof (body_frame_process_all w (scene_order st) (prelude st)) as (_ & Hr1 & Hl1 & Ho1).
  destruct (process_all w (scene_order st) (prelude st)) as [[[]|e] s1]; cbn [snd] in *.
  2:{ rewrite Ho1 by (rewrite Hr0; lia). apply prelude_old. exact Hlt. }
  pose proof (body_frame_compare_all (scene_order st) s1) as (_ & Hr2 & Hl2 & Ho2).
  destruct (compare_all (scene_order st) s1) as [[[]|e] s2]; cbn [snd] in *.
  2:{ rewrite Ho2 by (rewrite Hr1, Hr0; lia).
      rewrite Ho1 by (rewrite Hr0; lia). apply prelude_old. exact Hlt. }
  destruct (store_step w s2) as ((_ & Hr3 & _ & _) & Hh3 & _).
  destruct (when (use_firebase s2) (_store_results w) s2) as [[[]|e] s3]; cbn [snd] in *.
  - cbn [logger snd heap]. rewrite Hh3.
    rewrite Ho2 by (rewrite Hr1, Hr0; lia).
    rewrite Ho1 by (rewrite Hr0; lia). apply prelude_old. exact Hlt.
  - rewrite Hh3.
    rewrite Ho2 by (rewrite Hr1, Hr0; lia).
    rewrite Ho1 by (rewrite Hr0; lia). apply prelude_old. exact Hlt.
Qed.

(** [add_scene] as a function of the state. *)
Lemma add_scene_run scene_path scene_id timestamp metadata st :
  add_scene w scene_path scene_id timestamp metadata st
  = if path_exists w scene_path then
      (Ok tt,
       mkState (project_id st)
         (dict_set (scenes st) scene_id (new_entry scene_path timestamp metadata))
         (if str_in scene_id (scene_order st) then scene_order st
          else scene_order st ++ [scene_id])%list
         (use_firebase st) (results st) (heap st)
         ((if dict_mem (scenes st) scene_id
           then log st ++ [overwrite_warning scene_id] else log st)
          ++ [added_info scene_id])%list
         (clock st) (stored st))
    else (Raise FileNotFoundError, st).
Proof.
  unfold add_scene, bind. destruct (path_exists w scene_path); [|reflexivity].
  cbn [ret get]. destruct (dict_mem (scenes st) scene_id);
    cbn [when ret logger set_scenes scenes scene_order];
    destruct (str_in scene_id (scene_order st)); reflexivity.
Qed.

Lemma str_in_iff x l : str_in x l = true <-> In x l.
Proof.
  unfold str_in. rewrite existsb_exists. split.
  - intros (y & Hy & E). apply String.eqb_eq in E. subst. exact Hy.
  - intros H. exists x. split; [exact H|apply String.eqb_refl].
Qed.

Lemma dict_mem_iff {V : Type} (d : dict V) k : dict_mem d k = true <-> In k (dict_keys d).
Proof.
  rewrite <- dict_get_in_keys. unfold dict_mem.
  destruct (dict_get d k); split; congruence.
Qed.

Lemma well_formed_add_scene scene_path scene_id timestamp metadata st :
  well_formed st ->
  well_formed (snd (add_scene w scene_path scene_id timestamp metadata st)).
Proof.
  intros [Hord Hnd]. rewrite add_scene_run.
  destruct (path_exists w scene_path); [|split; assumption].
  unfold well_formed. cbn [snd scene_order scenes].
  destruct (str_in scene_id (scene_order st)) eqn:E.
  - apply str_in_iff in E. rewrite Hord in E.
    rewrite dict_keys_set_old by (apply dict_get_in_keys; exact E).
    split; assumption.
  - assert (Hnot : ~ In scene_id (scene_order st))
      by (intros H; apply str_in_iff in H; congruence).
    rewrite dict_keys_set_new.
    + split; [congruence|].
      apply NoDup_app; [exact Hnd|repeat constructor; intros []|].
      intros x Hx [<-|[]]. contradiction.
    + destruct (dict_get (scenes st) scene_id) eqn:G; [|reflexivity].
      exfalso. apply Hnot. rewrite Hord. apply dict_get_in_keys. congruence.
Qed.

Lemma well_formed_same a b : same_scenes a b -> well_formed a -> well_formed b.
Proof.
  intros (_ & Ho & _ & Hk) [Hord Hnd]. unfold well_formed.
  rewrite <- Ho. split; [|exact Hnd].
  rewrite Hord, <- !key_paths_keys, Hk. reflexivity.
Qed.

(** The scenes of a validator and their order agree in every state it
    goes through. *)
Lemma reachable_well_formed st : reachable w st -> well_formed st.
Proof.
  induction 1 as [pid fb t|st st' _ IH Hstep|st st' _ IH Hstep].
  - split; [reflexivity|constructor].
  - destruct Hstep.
    + apply well_formed_add_scene. exact IH.
    + exact (well_formed_same _ _ (validate_frame w st) IH).
  - destruct Hstep. exact IH.
Qed.

(** A validator without scenes that only its methods have touched
    holds the result set it was constructed with. *)
Lemma untouched_empty st :
  untouched w st -> scenes st = [] ->
  issues (current st) = [] /\ scene_count (current st) = 0.
Proof.
  induction 1 as [pid fb t|st st' _ IH Hstep]; [split; reflexivity|].
  destruct Hstep as [scene_path scene_id timestamp metadata st|st].
  - rewrite add_scene_run. destruct (path_exists w scene_path); [|exact IH].
    cbn [snd scenes]. intros H. destruct (scenes st) as [|[k v] d]; cbn in H.
    + discriminate.
    + destruct (String.eqb scene_id k); discriminate.
  - intros Hempty.
    assert (Hst : scenes st = []).
    { destruct (scenes st) eqn:E; [reflexivity|].
      exfalso. apply (same_scenes_nonempty _ _ (validate_frame w st)); [congruence|].
      exact Hempty. }
    revert Hempty. rewrite validate_run, Hst. intros _. exact (IH Hst).
Qed.

End ResultSets.

Section ValidationRun.

Variable w : World.

(** C9.  A second run of [validate] on the state the first run left,
    in the same world, hands back the same issues in the same order, or
    raises the same exception; and it leaves the result set of the
    first run as it was. *)
Theorem validate_deterministic (st : State) :
  issues_of (validate w st) = issues_of (validate w (snd (validate w st)))
  /\ (forall r, fst (validate w st) = Ok r ->
        deref (heap (snd (validate w (snd (validate w st))))) r
        = deref (heap (snd (validate w st))) r).
Proof.
  destruct (scenes st) as [|kv rest] eqn:E.
  - assert (H1 : validate w st
                 = (Ok (results st), snd (logger WARNING "No scenes to validate" st)))
      by (rewrite validate_run, E; reflexivity).
    rewrite H1. cbn [snd].
    assert (H2 : validate w (snd (logger WARNING "No scenes to validate" st))
                 = (Ok (results st),
                    snd (logger WARNING "No scenes to validate"
                           (snd (logger WARNING "No scenes to validate" st)))))
      by (rewrite validate_run; cbn [logger snd scenes]; rewrite E; reflexivity).
    rewrite H2. split; reflexivity.
  - assert (Hne : scenes st <> []) by congruence.
    split; [apply validate_sync; [apply validate_frame|exact Hne]|].
    intros r Hr. apply validate_raise_old.
    destruct (validate w st) as [out st'] eqn:Ev. cbn [fst snd] in *. subst out.
    destruct (validate_fresh w st r st' Hne Ev) as (-> & Hres & _ & _).
    revert Ev. rewrite validate_run, E.
    destruct (prelude_current st) as (Hv0 & _).
    pose proof (body_frame_process_all w (scene_order st) (prelude st)) as Hf1.
    destruct (process_all w (scene_order st) (prelude st)) as [[[]|e] s1];
      cbn [snd] in *; [|discriminate].
    pose proof (body_frame_compare_all (scene_order st) s1) as Hf2.
    destruct (compare_all (scene_order st) s1) as [[[]|e] s2];
      cbn [snd] in *; [|discriminate].
    destruct (store_step w s2) as (Hf3 & _).
    destruct (when (use_firebase s2) (_store_results w) s2) as [[[]|e] s3];
      cbn [snd] in *; [|discriminate].
    intros H; injection H as Hr3 <-. cbn [logger snd heap].
    pose proof (body_frame_valid _ _ Hf3
                  (body_frame_valid _ _ Hf2 (body_frame_valid _ _ Hf1 Hv0))) as Hv3.
    unfold valid in Hv3. rewrite Hr3 in Hv3. exact Hv3.
Qed.

(** C6 (as amended).  A run over no scenes raises nothing and returns
    the result set the validator holds, as it is and not a new one; in a
    validator that only its methods have touched this result set has no
    issue and a scene count of 0.  A run over scenes that completes
    returns a new result set, which records the number of scenes and
    whose issues do not depend on the result sets made before; these
    are left as they were. *)
Theorem validate_result_set (st : State) :
  (scenes st = [] ->
     fst (validate w st) = Ok (results st)
     /\ heap (snd (validate w st)) = heap st
     /\ results (snd (validate w st)) = results st
     /\ (untouched w st ->
         issues (current st) = [] /\ scene_count (current st) = 0))
  /\ (scenes st <> [] ->
      forall r st', validate w st = (Ok r, st') ->
        r = List.length (heap st)
        /\ results st' = r
        /\ scene_count (deref (heap st') r) = List.length (scenes st)
        /\ (forall r0, r0 < List.length (heap st) ->
              deref (heap st') r0 = deref (heap st) r0)
        /\ (forall h r0,
              issues_of (validate w (with_results st h r0))
              = Ok (issues (deref (heap st') r)))).
Proof.
  split.
  - intros E. rewrite validate_run, E. cbn [fst snd logger heap results].
    repeat split; try apply (untouched_empty w st); assumption.
  - intros Hne r st' Hrun.
    destruct (validate_fresh w st r st' Hne Hrun) as (H1 & H2 & H3 & H4).
    repeat split; try assumption.
    intros h r0.
    rewrite <- (validate_sync w st (with_results st h r0));
      [|repeat split|exact Hne].
    unfold issues_of. rewrite Hrun. reflexivity.
Qed.

(** C7.  In every state a validator goes through: [add_scene] on a path
    that is no file raises the not-found error and changes nothing;
    on a path that is a file it stores a new entry under the id and
    leaves the other entries alone; when the id was there the order of
    the scenes stays as it was and the call logs the overwrite warning
    and then the usual message, when it was not the id goes to the end
    of the order and only the usual message is logged; the order keeps
    naming each scene once. *)
Theorem add_scene_contract (st : State) (scene_path scene_id : string)
  (timestamp : option string) (metadata : option (dict string)) :
  reachable w st ->
  (path_exists w scene_path = false ->
     add_scene w scene_path scene_id timestamp metadata st
     = (Raise FileNotFoundError, st))
  /\ (path_exists w scene_path = true ->
      exists st',
        add_scene w scene_path scene_id timestamp metadata st = (Ok tt, st')
        /\ dict_get (scenes st') scene_id
           = Some (new_entry scene_path timestamp metadata)
        /\ (forall id, id <> scene_id ->
              dict_get (scenes st') id = dict_get (scenes st) id)
        /\ (dict_mem (scenes st) scene_id = true ->
              scene_order st' = scene_order st
              /\ dict_keys (scenes st') = dict_keys (scenes st)
              /\ log st'
                 = (log st ++ [overwrite_warning scene_id;
                               added_info scene_id])%list)
        /\ (dict_mem (scenes st) scene_id = false ->
              scene_order st' = (scene_order st ++ [scene_id])%list
              /\ log st' = (log st ++ [added_info scene_id])%list)
        /\ well_formed st').
Proof.
  intros Hreach. pose proof (reachable_well_formed w st Hreach) as Hwf.
  pose proof (well_formed_add_scene w scene_path scene_id timestamp metadata st Hwf)
    as Hwf'.
  rewrite add_scene_run in *. split; intros Hp; rewrite Hp in *; [reflexivity|].
  eexists. split; [reflexivity|]. cbn [snd scenes scene_order log] in *.
  split; [rewrite dict_get_set, String.eqb_refl; reflexivity|].
  split.
  { intros id Hid. rewrite dict_get_set.
    destruct (String.eqb_spec id scene_id); [contradiction|reflexivity]. }
  destruct Hwf as [Hord _].
  split; [|split; [|exact Hwf']].
  - intros Hmem. rewrite Hmem.
    assert (Hin : In scene_id (scene_order st))
      by (rewrite Hord; apply dict_mem_iff; exact Hmem).
    rewrite (proj2 (str_in_iff _ _) Hin).
    split; [reflexivity|]. split.
    + apply dict_keys_set_old. apply dict_get_in_keys. rewrite <- Hord. exact Hin.
    + rewrite <- app_assoc. reflexivity.
  - intros Hmem. rewrite Hmem.
    destruct (str_in scene_id (scene_order st)) eqn:E; [|split; reflexivity].
    apply str_in_iff in E. rewrite Hord in E. apply dict_mem_iff in E. congruence.
Qed.

End ValidationRun.

Lemma validate_result_set_witness :
  fst (validate quiet_world (init "demo" false 0)) = Ok 0
  /\ issues (current (init "demo" false 0)) = [].
Proof.
  destruct (validate_result_set quiet_world (init "demo" false 0)) as [H _].
  destruct (H eq_refl) as (Hfst & _ & _ & Hclean).
  split; [exact Hfst|]. apply Hclean. constructor.
Defined.

(** C6 fails as stated: a caller that adds an issue to the result set a
    run over no scenes handed it has added it to the result set the
    validator holds, and the next run over no scenes returns it. *)
Lemma validate_result_set_counterexample :
  reachable quiet_world noted_state
  /\ scenes noted_state = []
  /\ issues_of (validate quiet_world noted_state) = Ok [note]
  /\ ~ Spec.empty_run quiet_world noted_state.
Proof.
  split.
  { unfold noted_state. cbn [fst snd validate].
    eapply reach_caller.
    - eapply reach_method; [apply reach_init|apply step_validate].
    - apply (step_add_issue 0 note). cbn. lia. }
  split; [reflexivity|]. split; [reflexivity|].
  intros H. destruct (H eq_refl) as (r & st' & Hrun & Hissues & _).
  vm_compute in Hrun. injection Hrun as <- <-. discriminate Hissues.
Qed.

Lemma add_scene_contract_witness :
  scene_order (two_scenes shifted_world "a.jpg" "b.jpg") = ["s1"; "s2"]
  /\ scene_order (snd (add_scene shifted_world "c.jpg" "s1" None None
                         (two_scenes shifted_world "a.jpg" "b.jpg")))
     = ["s1"; "s2"].
Proof.
  assert (Hreach : reachable shifted_world (two_scenes shifted_world "a.jpg" "b.jpg")).
  { unfold two_scenes. eapply reach_method; [|apply step_add_scene].
    eapply reach_method; [apply reach_init|apply step_add_scene]. }
  destruct (add_scene_contract shifted_world _ "c.jpg" "s1" None None Hreach)
    as [_ H].
  destruct (H eq_refl) as (st' & Hrun & _ & _ & Hold & _).
  rewrite Hrun. cbn [snd]. destruct (Hold eq_refl) as (-> & _).
  split; reflexivity.
Defined.

(** C5 at a failing input.  Two adjacent scenes 1920 pixels wide show
    one face each, the second 10 pixels to the right of the first: in
    normalized coordinates the faces are about 0.005 apart, far below
    0.4, and yet the run reports a character-position issue, because
    the distance compared with 0.4 is the distance in pixels. *)
Theorem face_shift_is_in_pixels :
  let st := two_scenes shifted_world "a.jpg" "b.jpg" in
  let face1 := face_entry (face_at 100) in
  let face2 := face_entry (face_at 110) in
  issues_of (validate shifted_world st) = Ok [position_issue "s1" "s2" 0]
  /\ face_shift face1 face2 = 10%float
  /\ (Spec.normalized_shift 1920 face1 face2 <? 0.0053)%float = true
  /\ (0.4 <? Spec.normalized_shift 1920 face1 face2)%float = false.
Proof.
  cbv zeta. repeat split; vm_compute; reflexivity.
Qed.

(* ================================================================== *)
(** * Segmentation: what every script gives *)
(* ================================================================== *)

Section TextFacts.

Lemma all_space_app a b : all_space (a ++ b) = all_space a && all_space b.
Proof.
  induction a as [|c a IH]; cbn; [reflexivity|].
  rewrite IH. apply andb_assoc.
Qed.

Lemma ink_app a b : ink (a ++ b) = (ink a ++ ink b)%list.
Proof.
  induction a as [|c a IH]; cbn; [reflexivity|].
  destruct (isspace c); rewrite IH; reflexivity.
Qed.

Lemma ink_all_space s : all_space s = true -> ink s = [].
Proof.
  induction s as [|c s IH]; cbn; [reflexivity|].
  destruct (isspace c); [exact IH|discriminate].
Qed.

Lemma ink_nil_all_space s : ink s = [] -> all_space s = true.
Proof.
  induction s as [|c s IH]; cbn; [reflexivity|].
  destruct (isspace c); [exact IH|discriminate].
Qed.

Lemma ink_strip s : ink (strip s) = ink s.
Proof.
  destruct (strip_spec s) as (l & r & Hs & Hl & Hr & _).
  rewrite Hs at 2. rewrite !ink_app, (ink_all_space l Hl), (ink_all_space r Hr).
  rewrite app_nil_r. reflexivity.
Qed.

Lemma strip_empty_iff s : strip s = EmptyString <-> all_space s = true.
Proof.
  split; intros H.
  - apply ink_nil_all_space. rewrite <- ink_strip, H. reflexivity.
  - destruct (strip_spec s) as (l & r & Hs & Hl & Hr & Hf & _).
    destruct (strip s) as [|c t]; [reflexivity|exfalso].
    rewrite Hs, !all_space_app in H. cbn in H, Hf.
    rewrite Hf in H. cbn in H. rewrite andb_false_r in H. discriminate.
Qed.

Lemma ink_join_blank_line chunks :
  ink (join blank_line chunks) = flat_map ink chunks.
Proof.
  induction chunks as [|c rest IH]; [reflexivity|].
  destruct rest as [|c' rest].
  - cbn. rewrite app_nil_r. reflexivity.
  - change (join blank_line (c :: c' :: rest))
      with (c ++ blank_line ++ join blank_line (c' :: rest)).
    rewrite !ink_app, IH. reflexivity.
Qed.

Lemma drop_all s : drop (String.length s) s = EmptyString.
Proof. induction s as [|c s IH]; cbn; [reflexivity|exact IH]. Qed.

Lemma substring_empty a n : substring a n EmptyString = EmptyString.
Proof. destruct a, n; reflexivity. Qed.

Lemma slice_drop text : forall a b,
  a <= b -> slice text a b ++ drop b text = drop a text.
Proof.
  unfold slice. induction text as [|c t IH]; intros a b Hab.
  - rewrite substring_empty. destruct a, b; reflexivity.
  - destruct a as [|a], b as [|b]; try lia; cbn [substring drop Nat.sub].
    + reflexivity.
    + cbn. f_equal. specialize (IH 0 b (Nat.le_0_l b)).
      rewrite Nat.sub_0_r in IH. exact IH.
    + apply IH. lia.
Qed.

Lemma slice_to_end text a :
  a <= String.length text -> slice text a (String.length text) = drop a text.
Proof.
  intros H. rewrite <- (slice_drop text a (String.length text) H).
  rewrite drop_all, append_empty_r. reflexivity.
Qed.

Lemma first_char_slice text : forall a b,
  a < b -> first_char (slice text a b) = first_char (drop a text).
Proof.
  unfold slice. induction text as [|c t IH]; intros a b Hab.
  - rewrite substring_empty. destruct a; reflexivity.
  - destruct a as [|a]; cbn [drop].
    + destruct b as [|b]; [lia|]. reflexivity.
    + destruct b as [|b]; [lia|]. cbn [substring Nat.sub]. apply IH. lia.
Qed.

Lemma all_space_drop n : forall s, all_space s = true -> all_space (drop n s) = true.
Proof.
  induction n as [|n IH]; intros s H; [exact H|].
  destruct s as [|c s]; [reflexivity|]. cbn in *.
  apply andb_prop in H. apply IH, H.
Qed.

Lemma marker_first_char s :
  marker_here s = true -> exists c, first_char s = Some c /\ isspace c = false.
Proof.
  unfold marker_here. intros H.
  destruct (strip_prefix "INT." s) as [r|] eqn:E1.
  - apply strip_prefix_app in E1. subst s. eexists. split; reflexivity.
  - destruct (strip_prefix "EXT." s) as [r|] eqn:E2; [|discriminate].
    apply strip_prefix_app in E2. subst s. eexists. split; reflexivity.
Qed.

Lemma marker_not_blank text p :
  marker_here (drop p text) = true -> all_space text = false.
Proof.
  intros H. destruct (all_space text) eqn:E; [|reflexivity].
  apply (all_space_drop p) in E.
  destruct (marker_first_char _ H) as (c & Hc & Hs).
  destruct (drop p text) as [|c' t]; [discriminate|].
  cbn in Hc, E. injection Hc as ->. rewrite Hs in E. discriminate.
Qed.

(** A text that begins and ends with a character that is no blank is
    what [strip] leaves of it. *)
Lemma lstrip_fixed s : is_blank (first_char s) = false -> lstrip s = s.
Proof. destruct s as [|c s]; cbn; [reflexivity|]. intros ->. reflexivity. Qed.

Lemma rstrip_fixed s : is_blank (last_char s) = false -> rstrip s = s.
Proof.
  induction s as [|c s IH]; [reflexivity|].
  destruct s as [|c' s'].
  - cbn. intros ->. reflexivity.
  - intros H. change (last_char (String c (String c' s')))
      with (last_char (String c' s')) in H.
    change (rstrip (String c (String c' s')))
      with (match rstrip (String c' s') with
            | EmptyString => if isspace c then EmptyString else String c EmptyString
            | String a r => String c (String a r)
            end).
    rewrite (IH H). reflexivity.
Qed.

Lemma strip_strip s : strip (strip s) = strip s.
Proof.
  destruct (strip_spec s) as (_ & _ & _ & _ & _ & Hf & Hl).
  unfold strip at 1. rewrite (lstrip_fixed _ Hf). apply rstrip_fixed, Hl.
Qed.

Lemma strip_keeps_first s c :
  first_char s = Some c -> isspace c = false -> first_char (strip s) = Some c.
Proof.
  intros Hc Hs. unfold strip.
  assert (Hb : is_blank (first_char s) = false) by (rewrite Hc; exact Hs).
  rewrite (lstrip_fixed s Hb).
  destruct (rstrip_spec s) as (_ & _ & _ & _ & Hf).
  rewrite Hb in Hf. cbn in Hf. congruence.
Qed.

End TextFacts.

Section SegmentFacts.

Lemma finditer_from_in_order fuel text : forall pos,
  in_order (String.length text) pos (finditer_from fuel scene_pattern text pos).
Proof.
  induction fuel as [|fuel IH]; intros pos; [exact I|].
  cbn [finditer_from].
  destruct (search scene_pattern text pos) as [m|] eqn:E; [|exact I].
  cbn [in_order]. pose proof (search_bounds _ _ _ E) as [H1 H2].
  unfold search in E. pose proof (search_from_bounds _ _ _ E) as (_ & _ & H3).
  rewrite drop_length in H3.
  assert (pos < String.length text).
  { destruct (Nat.le_gt_cases (String.length text) pos) as [Hge|Hlt]; [|exact Hlt].
    apply search_past_end in Hge. unfold search in Hge. congruence. }
  repeat split; try lia. apply IH.
Qed.

(** The two tiers of [_parse_script]. *)
Lemma parse_script_tiers text :
  _parse_script text
  = match finditer scene_pattern text with
    | [] => paragraph_scenes 0 (split blank_line text)
    | m :: rest => heading_spans text 0 (m :: rest)
    end.
Proof.
  unfold _parse_script, findall.
  destruct (finditer scene_pattern text) as [|m0 rest] eqn:Ems; [reflexivity|].
  rewrite <- Ems.
  replace (map group_pair (finditer scene_pattern text))
    with (group_pair m0 :: map group_pair rest) by (rewrite Ems; reflexivity).
  change (group_pair m0 :: map group_pair rest) with (map group_pair (m0 :: rest)).
  rewrite <- Ems, length_map. unfold finditer.
  apply heading_scenes_spec. reflexivity.
Qed.

Lemma finditer_marker text m rest :
  finditer scene_pattern text = m :: rest ->
  forall m', In m' (m :: rest) -> marker_here (drop (m_start m') text) = true.
Proof.
  intros E m' Hin. rewrite <- E in Hin.
  destruct (in_split _ _ Hin) as (ms1 & ms2 & Hms).
  pose proof (finditer_from_chain _ _ _ _ _ _ Hms) as Hs.
  apply search_some_marker in Hs. apply Hs.
Qed.

Lemma paragraph_scenes_ink chunks : forall i,
  flat_map (fun s => ink (content s)) (paragraph_scenes i chunks)
  = flat_map ink chunks.
Proof.
  induction chunks as [|chunk rest IH]; intros i; cbn [paragraph_scenes flat_map];
    [reflexivity|].
  destruct (nonempty (strip chunk)) eqn:E.
  - cbn [flat_map content]. rewrite IH, ink_strip. reflexivity.
  - rewrite IH. assert (H : strip chunk = EmptyString)
      by (destruct (strip chunk); [reflexivity|discriminate]).
    apply strip_empty_iff, ink_all_space in H. rewrite H. reflexivity.
Qed.

Lemma heading_spans_ink text ms : forall i pos,
  in_order (String.length text) pos ms ->
  flat_map (fun s => ink (content s)) (heading_spans text i ms)
  = match ms with
    | [] => []
    | m :: _ => ink (drop (m_start m) text)
    end.
Proof.
  induction ms as [|m rest IH]; intros i pos Hord; [reflexivity|].
  cbn [heading_spans flat_map content]. destruct Hord as (H1 & H2 & H3 & Hrest).
  rewrite ink_strip, (IH (S i) (m_end m) Hrest).
  destruct rest as [|m' rest'].
  - rewrite app_nil_r, slice_to_end by lia. reflexivity.
  - destruct Hrest as (H4 & _).
    rewrite <- ink_app, slice_drop by lia. reflexivity.
Qed.

Lemma paragraph_scenes_ids chunks : forall i s,
  In s (paragraph_scenes i chunks) ->
  exists k, i < k /\ scene_id s = "scene_" ++ str_of_nat k
            /\ nonempty (content s) = true
            /\ strip (content s) = content s.
Proof.
  induction chunks as [|chunk rest IH]; intros i s Hin; [contradiction|].
  cbn [paragraph_scenes] in Hin.
  destruct (nonempty (strip chunk)) eqn:E.
  - destruct Hin as [<-|Hin].
    + exists (i + 1). cbn. repeat split; [lia|exact E|apply strip_strip].
    + destruct (IH _ _ Hin) as (k & Hk & H). exists k. split; [lia|exact H].
  - destruct (IH _ _ Hin) as (k & Hk & H). exists k. split; [lia|exact H].
Qed.

Lemma scene_name_inj k k' :
  "scene_" ++ str_of_nat k = "scene_" ++ str_of_nat k' -> k = k'.
Proof. intros H. apply append_inj_l in H. apply str_of_nat_inj, H. Qed.

Lemma paragraph_scenes_nodup chunks : forall i,
  NoDup (map scene_id (paragraph_scenes i chunks)).
Proof.
  induction chunks as [|chunk rest IH]; intros i; [constructor|].
  cbn [paragraph_scenes]. destruct (nonempty (strip chunk)); [|apply IH].
  cbn [map scene_id]. constructor; [|apply IH].
  intros Hin. apply in_map_iff in Hin. destruct Hin as (s & Hs & Hin).
  destruct (paragraph_scenes_ids _ _ _ Hin) as (k & Hk & Hid & _).
  rewrite Hid in Hs. apply scene_name_inj in Hs. lia.
Qed.

Lemma heading_spans_ids text ms : forall i pos s,
  in_order (String.length text) pos ms ->
  (forall m, In m ms -> marker_here (drop (m_start m) text) = true) ->
  In s (heading_spans text i ms) ->
  exists k, i < k /\ scene_id s = "scene_" ++ str_of_nat k
            /\ nonempty (content s) = true
            /\ strip (content s) = content s.
Proof.
  induction ms as [|m rest IH]; intros i pos s Hord Hmark Hin; [contradiction|].
  cbn [heading_spans] in Hin. destruct Hord as (H1 & H2 & H3 & Hrest).
  destruct Hin as [<-|Hin].
  - exists (i + 1). cbn [scene_id content].
    split; [lia|]. split; [reflexivity|]. split; [|apply strip_strip].
    destruct (marker_first_char _ (Hmark m (or_introl eq_refl))) as (c & Hc & Hs).
    assert (Hspan : m_start m
                    < match rest with
                      | m' :: _ => m_start m'
                      | [] => String.length text
                      end).
    { destruct rest as [|m' rest']; [lia|]. destruct Hrest as (H4 & _). lia. }
    rewrite <- (first_char_slice text _ _ Hspan) in Hc.
    pose proof (strip_keeps_first _ _ Hc Hs) as Hf.
    destruct (strip _); [discriminate|reflexivity].
  - destruct (IH (S i) (m_end m) s Hrest) as (k & Hk & H); [|exact Hin|].
    + intros m' Hm'. apply Hmark. right. exact Hm'.
    + exists k. split; [lia|exact H].
Qed.

Lemma heading_spans_nodup text ms : forall i,
  NoDup (map scene_id (heading_spans text i ms)).
Proof.
  induction ms as [|m rest IH]; intros i; [constructor|].
  cbn [heading_spans map scene_id]. constructor; [|apply IH].
  intros Hin. apply in_map_iff in Hin. destruct Hin as (s & Hs & Hin).
  assert (Hk : exists k, i + 1 < k /\ scene_id s = "scene_" ++ str_of_nat k).
  { clear Hs IH. revert i Hin. induction rest as [|m' rest' IHr]; intros i Hin;
      [contradiction|].
    cbn [heading_spans] in Hin. destruct Hin as [<-|Hin].
    - exists (S i + 1). split; [lia|reflexivity].
    - destruct (IHr (S i) Hin) as (k & Hk & Hid). exists k. split; [lia|exact Hid]. }
  destruct Hk as (k & Hk & Hid). rewrite Hid in Hs.
  apply scene_name_inj in Hs. lia.
Qed.

End SegmentFacts.

Section SegmentationExtras.

(** X1.  [_parse_script] leaves no scene exactly when every character
    of the script is a blank: a script with any other character gives
    a scene, whichever tier is used. *)
Theorem parse_script_empty_iff (text : string) :
  _parse_script text = [] <-> all_space text = true.
Proof.
  rewrite parse_script_tiers.
  destruct (finditer scene_pattern text) as [|m rest] eqn:E.
  - rewrite <- (join_split blank_line text) at 2 by discriminate.
    split; intros H.
    + apply ink_nil_all_space. rewrite ink_join_blank_line.
      rewrite <- (paragraph_scenes_ink _ 0), H. reflexivity.
    + apply ink_all_space in H. rewrite ink_join_blank_line in H.
      rewrite <- (paragraph_scenes_ink _ 0) in H.
      destruct (paragraph_scenes 0 (split blank_line text)) as [|s l] eqn:Ep;
        [reflexivity|exfalso].
      assert (Hin : In s (paragraph_scenes 0 (split blank_line text)))
        by (rewrite Ep; left; reflexivity).
      destruct (paragraph_scenes_ids _ _ _ Hin) as (_ & _ & _ & Hne & _).
      cbn [flat_map] in H. apply app_eq_nil in H. destruct H as [H _].
      apply ink_nil_all_space, strip_empty_iff in H.
      destruct (paragraph_scenes_ids _ _ _ Hin) as (_ & _ & _ & _ & Hst).
      rewrite Hst in H. rewrite H in Hne. discriminate.
  - split; [discriminate|]. intros H. exfalso.
    pose proof (finditer_marker text m rest E m (or_introl eq_refl)) as Hm.
    apply marker_not_blank in Hm. congruence.
Qed.

(** X2.  The scenes of a script have ids [scene_k] that differ from one
    another, and the content of each is not empty and neither begins
    nor ends with a blank. *)
Theorem parse_script_scenes_wf (text : string) :
  NoDup (map scene_id (_parse_script text))
  /\ forall s, In s (_parse_script text) ->
       (exists k, 1 <= k /\ scene_id s = "scene_" ++ str_of_nat k)
       /\ nonempty (content s) = true
       /\ strip (content s) = content s
       /\ is_blank (first_char (content s)) = false
       /\ is_blank (last_char (content s)) = false.
Proof.
  rewrite parse_script_tiers.
  assert (Hends : forall s : Scene, strip (content s) = content s ->
            is_blank (first_char (content s)) = false
            /\ is_blank (last_char (content s)) = false).
  { intros s Hs. destruct (strip_spec (content s)) as (_ & _ & _ & _ & _ & Hf & Hl).
    rewrite Hs in Hf, Hl. split; assumption. }
  destruct (finditer scene_pattern text) as [|m rest] eqn:E.
  - split; [apply paragraph_scenes_nodup|]. intros s Hin.
    destruct (paragraph_scenes_ids _ _ _ Hin) as (k & Hk & Hid & Hne & Hst).
    split; [exists k; split; [lia|exact Hid]|].
    split; [exact Hne|]. split; [exact Hst|]. apply Hends, Hst.
  - split; [apply heading_spans_nodup|]. intros s Hin.
    pose proof (finditer_from_in_order (S (String.length text)) text 0) as Hord.
    fold (finditer scene_pattern text) in Hord. rewrite E in Hord.
    destruct (heading_spans_ids text _ 0 0 s Hord (finditer_marker text m rest E) Hin)
      as (k & Hk & Hid & Hne & Hst).
    split; [exists k; split; [lia|exact Hid]|].
    split; [exact Hne|]. split; [exact Hst|]. apply Hends, Hst.
Qed.

(** X3.  No character of the script that is no blank is lost or moved
    by the paragraph tier; the heading tier loses the text before the
    first match of the scene pattern and nothing after it. *)
Theorem parse_script_keeps_text (text : string) :
  flat_map (fun s => ink (content s)) (_parse_script text)
  = match finditer scene_pattern text with
    | [] => ink text
    | m :: _ => ink (drop (m_start m) text)
    end.
Proof.
  rewrite parse_script_tiers.
  pose proof (finditer_from_in_order (S (String.length text)) text 0) as Hord.
  fold (finditer scene_pattern text) in Hord.
  destruct (finditer scene_pattern text) as [|m rest] eqn:E.
  - rewrite paragraph_scenes_ink, <- ink_join_blank_line, join_split by discriminate.
    reflexivity.
  - apply (heading_spans_ink text (m :: rest) 0 0 Hord).
Qed.

End SegmentationExtras.

(* ================================================================== *)
(** * The generator: scripts, runs and frame ids *)
(* ================================================================== *)

Section GeneratorRuns.

Variable text_model : nat -> string -> result string.
Variable json_loads : string -> result json.
Variable draw_placeholder : Scene -> json -> string -> result unit.
Variable upload_frames : list StoryboardFrame -> result unit.

Local Abbreviation segment := (segment_frames text_model json_loads draw_placeholder).
Local Abbreviation steps :=
  (storyboard_steps text_model json_loads draw_placeholder upload_frames).

(** The loop with [self.frames] kept: the frames are those of the
    scenes gone through, all of them when nothing is raised, and the
    value is that of the loop of [generate_storyboard]. *)
Lemma storyboard_steps_spec fb output_dir todo : forall calls made,
  exists n,
    n <= List.length todo
    /\ snd (steps fb output_dir calls made todo)
       = (made ++ List.concat (map (segment output_dir)
                                 (combine (seq calls n) (firstn n todo))))%list
    /\ (fst (steps fb output_dir calls made todo) = Ok tt -> n = List.length todo)
    /\ (fb = false -> fst (steps fb output_dir calls made todo) = Ok tt)
    /\ storyboard_loop text_model json_loads draw_placeholder upload_frames
         fb output_dir calls made todo
       = match fst (steps fb output_dir calls made todo) with
         | Ok _ => Ok (snd (steps fb output_dir calls made todo))
         | Raise e => Raise e
         end.
Proof.
  induction todo as [|scene rest IH]; intros calls made.
  - exists 0. cbn. rewrite app_nil_r. repeat split. lia.
  - cbn [storyboard_steps storyboard_loop].
    unfold _generate_frames_for_shots.
    destruct (analyze_iterable json_loads (text_model calls) scene) as [items Hitems].
    rewrite Hitems. cbn [rbind].
    assert (Hseg : segment_frames text_model json_loads draw_placeholder
                     output_dir (calls, scene)
                   = frames_loop draw_placeholder scene output_dir 0 items)
      by (unfold segment_frames; cbn [fst snd]; rewrite Hitems; reflexivity).
    destruct (if fb then upload_frames _ else Ok tt) as [[]|e] eqn:Eup.
    + destruct (IH (S calls) (made ++ frames_loop draw_placeholder scene output_dir 0 items)%list)
        as (n & Hn & Hsnd & Hok & Hfb & Hloop).
      exists (S n). cbn [List.length fst snd seq firstn combine map List.concat rbind].
      split; [lia|]. split; [rewrite Hsnd, Hseg, <- app_assoc; reflexivity|].
      split; [intros H; rewrite (Hok H); reflexivity|].
      split; [exact Hfb|exact Hloop].
    + exists 1. cbn [List.length fst snd seq firstn combine map List.concat rbind].
      split; [lia|]. split; [rewrite Hseg, app_nil_r; reflexivity|].
      split; [discriminate|]. split; [|reflexivity].
      intros ->. discriminate.
Qed.

Lemma digits_no_underscore (d : Decimal.uint) :
  ~ In "_"%char (list_ascii_of_string (NilEmpty.string_of_uint d)).
Proof.
  induction d; cbn; [tauto| | | | | | | | | |];
    intros [H|H]; try discriminate; auto.
Qed.

Lemma split_at_underscore a : forall a' r r',
  ~ In "_"%char (list_ascii_of_string a) ->
  ~ In "_"%char (list_ascii_of_string a') ->
  a ++ String "_" r = a' ++ String "_" r' -> a = a' /\ r = r'.
Proof.
  induction a as [|x a IH]; intros [|y a'] r r' Ha Ha' H; cbn in *.
  - injection H as ->. split; reflexivity.
  - injection H as <- _. tauto.
  - injection H as -> _. tauto.
  - injection H as -> H. destruct (IH a' r r') as [-> ->]; auto.
Qed.

Lemma append_inj_r (s : string) : forall a b, a ++ s = b ++ s -> a = b.
Proof.
  assert (Hlen : forall a b : string, String.length (a ++ b)
                                      = String.length a + String.length b).
  { intros a b. induction a as [|x a IH]; cbn; [reflexivity|]. rewrite IH. reflexivity. }
  induction a as [|x a IH]; intros [|y b] H.
  - reflexivity.
  - apply (f_equal String.length) in H. cbn in H. rewrite Hlen in H. lia.
  - apply (f_equal String.length) in H. cbn in H. rewrite Hlen in H. lia.
  - cbn in H. injection H as -> H. rewrite (IH b H). reflexivity.
Qed.

Lemma frame_name_joint s s' n n' k k' :
  scene_id s = "scene_" ++ str_of_nat n ->
  scene_id s' = "scene_" ++ str_of_nat n' ->
  frame_name s k = frame_name s' k' -> n = n' /\ k = k'.
Proof.
  unfold frame_name. intros -> -> H. rewrite !append_assoc in H.
  apply append_inj_l in H.
  change ("_shot_" ++ str_of_nat k) with (String "_" ("shot_" ++ str_of_nat k)) in H.
  change ("_shot_" ++ str_of_nat k') with (String "_" ("shot_" ++ str_of_nat k')) in H.
  apply split_at_underscore in H; try apply digits_no_underscore.
  destruct H as [Hn Hk]. apply str_of_nat_inj in Hn. apply append_inj_l in Hk.
  apply str_of_nat_inj in Hk. split; assumption.
Qed.

Lemma path_join_inj dir a b : path_join dir a = path_join dir b -> a = b.
Proof.
  unfold path_join. destruct (rev_string dir) as [|c r]; [auto|].
  destruct (Ascii.eqb c "/"); intros H.
  - apply append_inj_l in H. exact H.
  - apply append_inj_l in H. apply append_inj_l in H. exact H.
Qed.

Lemma path_join_nonempty dir a : nonempty a = true -> nonempty (path_join dir a) = true.
Proof.
  intros Ha. unfold path_join. destruct (rev_string dir) as [|c r] eqn:E; [exact Ha|].
  destruct dir as [|d dir]; [discriminate E|].
  destruct (Ascii.eqb c "/"); reflexivity.
Qed.

Lemma make_frame_fields scene shot fid p f :
  make_frame draw_placeholder scene shot fid p = Ok f ->
  frame_id f = fid /\ frame_scene_id f = scene_id scene /\ image_path f = p
  /\ py_getitem shot "description" = Ok (StoryboardGen.description f)
  /\ py_getitem shot "shot_type" = Ok (shot_type f)
  /\ py_getitem shot "camera_movement" = Ok (camera_movement f)
  /\ py_get shot "characters" (JArr []) = Ok (characters f)
  /\ _generate_image_for_shot draw_placeholder scene shot p = Ok tt.
Proof.
  unfold make_frame.
  destruct (_generate_image_for_shot _ _ _ _) as [[]|e]; [|discriminate].
  cbn [rbind].
  destruct (py_getitem shot "description"); [|discriminate].
  destruct (py_getitem shot "shot_type"); [|discriminate].
  destruct (py_getitem shot "camera_movement"); [|discriminate].
  destruct (py_get shot "characters" _); [|discriminate].
  cbn [rbind]. intros H; injection H as <-. repeat split.
Qed.

Lemma frames_loop_ids scene output_dir items : forall i f,
  In f (frames_loop draw_placeholder scene output_dir i items) ->
  exists k, i <= k /\ frame_id f = frame_name scene (k + 1)
            /\ frame_scene_id f = scene_id scene
            /\ image_path f = path_join output_dir (frame_id f ++ ".png").
Proof.
  induction items as [|shot rest IH]; intros i f Hin; [contradiction|].
  cbn [frames_loop] in Hin.
  destruct (make_frame _ _ _ _ _) as [f0|e] eqn:E.
  - destruct Hin as [<-|Hin].
    + apply make_frame_fields in E. destruct E as (H1 & H2 & H3 & _).
      exists i. rewrite H1, H3. repeat split; [lia|exact H2].
    + destruct (IH _ _ Hin) as (k & Hk & H). exists k. split; [lia|exact H].
  - destruct (IH _ _ Hin) as (k & Hk & H). exists k. split; [lia|exact H].
Qed.

Lemma frames_loop_made scene output_dir items : forall i f,
  In f (frames_loop draw_placeholder scene output_dir i items) ->
  exists shot fid p, make_frame draw_placeholder scene shot fid p = Ok f.
Proof.
  induction items as [|shot rest IH]; intros i f Hin; [contradiction|].
  cbn [frames_loop] in Hin.
  destruct (make_frame _ _ _ _ _) as [f0|e] eqn:E; [|apply (IH _ _ Hin)].
  destruct Hin as [<-|Hin]; [|apply (IH _ _ Hin)].
  eexists. eexists. eexists. exact E.
Qed.

Lemma frames_loop_nodup scene output_dir items : forall i,
  NoDup (map frame_id (frames_loop draw_placeholder scene output_dir i items)).
Proof.
  induction items as [|shot rest IH]; intros i; [constructor|].
  cbn [frames_loop]. destruct (make_frame _ _ _ _ _) as [f0|e] eqn:E; [|apply IH].
  cbn [map]. constructor; [|apply IH].
  intros Hin. apply in_map_iff in Hin. destruct Hin as (f & Hf & Hin).
  destruct (frames_loop_ids _ _ _ _ _ Hin) as (k & Hk & Hid & _).
  apply make_frame_fields in E. destruct E as (H1 & _).
  rewrite H1, Hid in Hf. apply frame_name_inj in Hf. lia.
Qed.

Lemma segment_is_loop output_dir ns :
  exists items,
    segment output_dir ns
    = frames_loop draw_placeholder (snd ns) output_dir 0 items.
Proof. unfold segment_frames. eexists. reflexivity. Qed.

Lemma segments_nodup output_dir (l : list (nat * Scene)) :
  NoDup (map (fun ns => scene_id (snd ns)) l) ->
  numbered (map snd l) ->
  NoDup (map frame_id (List.concat (map (segment output_dir) l))).
Proof.
  induction l as [|ns l IH]; intros Hnd Hnum; [constructor|].
  cbn [map List.concat]. rewrite map_app.
  inversion Hnd as [|x xs Hnotin Hnd' Heq]; subst.
  apply NoDup_app.
  - destruct (segment_is_loop output_dir ns) as [items ->]. apply frames_loop_nodup.
  - apply IH; [exact Hnd'|]. intros s Hs. apply Hnum. right. exact Hs.
  - intros fid H1 H2. apply Hnotin.
    apply in_map_iff in H1. destruct H1 as (f1 & Hf1 & H1).
    apply in_map_iff in H2. destruct H2 as (f2 & Hf2 & H2).
    apply in_concat in H2. destruct H2 as (seg2 & Hseg2 & H2).
    apply in_map_iff in Hseg2. destruct Hseg2 as (ns2 & <- & Hns2).
    destruct (segment_is_loop output_dir ns) as [items1 E1]. rewrite E1 in H1.
    destruct (segment_is_loop output_dir ns2) as [items2 E2]. rewrite E2 in H2.
    destruct (frames_loop_ids _ _ _ _ _ H1) as (k1 & _ & Hid1 & _).
    destruct (frames_loop_ids _ _ _ _ _ H2) as (k2 & _ & Hid2 & _).
    destruct (Hnum (snd ns) (or_introl eq_refl)) as [n1 Hn1].
    destruct (Hnum (snd ns2)) as [n2 Hn2];
      [right; apply in_map; exact Hns2|].
    assert (Hsame : frame_name (snd ns) (k1 + 1) = frame_name (snd ns2) (k2 + 1))
      by congruence.
    destruct (frame_name_joint _ _ _ _ _ _ Hn1 Hn2 Hsame) as [-> _].
    apply in_map_iff. exists ns2. split; [congruence|exact Hns2].
Qed.

Lemma map_snd_combine_seq {A : Type} (l : list A) i :
  map snd (combine (seq i (List.length l)) l) = l.
Proof.
  revert i; induction l as [|x l IH]; intros i; cbn; [reflexivity|].
  rewrite IH. reflexivity.
Qed.

Lemma NoDup_map_injective {A B : Type} (f : A -> B) l :
  (forall x y, f x = f y -> x = y) -> NoDup l -> NoDup (map f l).
Proof.
  intros Hinj. induction 1 as [|x l Hx Hnd IH]; cbn; constructor; [|exact IH].
  intros Hin. apply in_map_iff in Hin. destruct Hin as (y & Hy & Hin).
  apply Hinj in Hy. subst y. contradiction.
Qed.

Lemma run_frames fb output_dir todo fs :
  generate_storyboard text_model json_loads draw_placeholder upload_frames
    fb todo output_dir = Ok fs ->
  fs = List.concat (map (segment output_dir)
                      (combine (seq 0 (List.length todo)) todo)).
Proof.
  unfold generate_storyboard. destruct todo as [|s0 rest] eqn:Et; [discriminate|].
  rewrite <- Et. clear Et s0 rest.
  destruct (storyboard_steps_spec fb output_dir todo 0 [])
    as (n & Hn & Hsnd & Hok & _ & Hloop).
  rewrite Hloop. destruct (fst (steps _ _ _ _ _)) as [[]|e]; [|discriminate].
  intros H; injection H as <-. rewrite Hsnd, (Hok eq_refl), firstn_all. reflexivity.
Qed.

Lemma run_frames_made fb output_dir todo fs f :
  generate_storyboard text_model json_loads draw_placeholder upload_frames
    fb todo output_dir = Ok fs ->
  In f fs ->
  exists scene shot fid p,
    In scene todo /\ make_frame draw_placeholder scene shot fid p = Ok f.
Proof.
  intros Hrun Hin. apply run_frames in Hrun. rewrite Hrun in Hin.
  apply in_concat in Hin. destruct Hin as (seg & Hseg & Hin).
  apply in_map_iff in Hseg. destruct Hseg as (ns & <- & Hns).
  destruct (segment_is_loop output_dir ns) as [items E]. rewrite E in Hin.
  destruct (frames_loop_made _ _ _ _ _ Hin) as (shot & fid & p & Hmade).
  exists (snd ns), shot, fid, p. split; [|exact Hmade].
  rewrite <- (map_snd_combine_seq todo 0). apply in_map. exact Hns.
Qed.

Lemma run_frames_paths fb output_dir todo fs f :
  generate_storyboard text_model json_loads draw_placeholder upload_frames
    fb todo output_dir = Ok fs ->
  In f fs ->
  image_path f = path_join output_dir (frame_id f ++ ".png").
Proof.
  intros Hrun Hin. apply run_frames in Hrun. rewrite Hrun in Hin.
  apply in_concat in Hin. destruct Hin as (seg & Hseg & Hin).
  apply in_map_iff in Hseg. destruct Hseg as (ns & <- & Hns).
  destruct (segment_is_loop output_dir ns) as [items E]. rewrite E in Hin.
  destruct (frames_loop_ids _ _ _ _ _ Hin) as (k & _ & _ & _ & Hp). exact Hp.
Qed.

(** X6.  The frames of a storyboard made from a script have ids that
    differ from one another, and so have their image files: no frame
    overwrites the image or the document of another.  Each frame
    belongs to a scene of the script and carries the position of its
    shot in that scene. *)
Theorem storyboard_frame_ids_unique (text : string) (fb : bool)
  (output_dir : string) (fs : list StoryboardFrame) :
  generate_storyboard text_model json_loads draw_placeholder upload_frames
    fb (_parse_script text) output_dir = Ok fs ->
  NoDup (map frame_id fs)
  /\ NoDup (map image_path fs)
  /\ forall f, In f fs ->
       exists s k, In s (_parse_script text)
                   /\ frame_scene_id f = scene_id s
                   /\ frame_id f = scene_id s ++ "_shot_" ++ str_of_nat (k + 1)
                   /\ image_path f = path_join output_dir (frame_id f ++ ".png").
Proof.
  intros Hrun. apply run_frames in Hrun.
  assert (Hids : NoDup (map scene_id (_parse_script text))
                 /\ numbered (_parse_script text)).
  { rewrite parse_script_tiers.
    pose proof (finditer_from_in_order (S (String.length text)) text 0) as Hord.
    fold (finditer scene_pattern text) in Hord.
    destruct (finditer scene_pattern text) as [|m rest] eqn:E.
    - split; [apply paragraph_scenes_nodup|]. intros s Hin.
      destruct (paragraph_scenes_ids _ _ _ Hin) as (k & _ & Hid & _).
      exists k. exact Hid.
    - split; [apply heading_spans_nodup|]. intros s Hin.
      destruct (heading_spans_ids text _ 0 0 s Hord (finditer_marker text m rest E) Hin)
        as (k & _ & Hid & _).
      exists k. exact Hid. }
  destruct Hids as [Hnd Hnum].
  assert (Hpaths : forall f, In f fs ->
            exists s k, In s (_parse_script text)
                        /\ frame_scene_id f = scene_id s
                        /\ frame_id f = scene_id s ++ "_shot_" ++ str_of_nat (k + 1)
                        /\ image_path f = path_join output_dir (frame_id f ++ ".png")).
  { intros f Hin. rewrite Hrun in Hin. apply in_concat in Hin.
    destruct Hin as (seg & Hseg & Hin).
    apply in_map_iff in Hseg. destruct Hseg as (ns & <- & Hns).
    destruct (segment_is_loop output_dir ns) as [items E]. rewrite E in Hin.
    destruct (frames_loop_ids _ _ _ _ _ Hin) as (k & _ & Hid & Hsid & Hp).
    exists (snd ns), k. split; [|repeat split; assumption].
    rewrite <- (map_snd_combine_seq (_parse_script text) 0).
    apply in_map. exact Hns. }
  assert (Hfids : NoDup (map frame_id fs)).
  { rewrite Hrun. apply segments_nodup.
    - rewrite <- (map_map snd scene_id), map_snd_combine_seq. exact Hnd.
    - rewrite map_snd_combine_seq. exact Hnum. }
  split; [exact Hfids|]. split; [|exact Hpaths].
  replace (map image_path fs)
    with (map (fun fid => path_join output_dir (fid ++ ".png")) (map frame_id fs)).
  - apply NoDup_map_injective; [|exact Hfids].
    intros x y H. apply path_join_inj in H. apply append_inj_r in H. exact H.
  - rewrite map_map. apply map_ext_in. intros f Hin.
    destruct (Hpaths f Hin) as (_ & _ & _ & _ & _ & Hp). symmetry. exact Hp.
Qed.

End GeneratorRuns.

Lemma storyboard_frame_ids_unique_witness :
  exists fs,
    generate_storyboard steady_model tiny_loads (fun _ _ _ => Ok tt) (fun _ => Ok tt)
      false (_parse_script heading_example) "out" = Ok fs
    /\ map frame_id fs = ["scene_1_shot_1"; "scene_2_shot_1"]
    /\ NoDup (map frame_id fs).
Proof.
  eexists. split; [vm_compute; reflexivity|]. split; [reflexivity|].
  eapply (storyboard_frame_ids_unique steady_model tiny_loads (fun _ _ _ => Ok tt)
            (fun _ => Ok tt) heading_example false "out").
  vm_compute. reflexivity.
Defined.

Section GeneratorMethods.

Variable text_model : nat -> string -> result string.
Variable json_loads : string -> result json.
Variable draw_placeholder : Scene -> json -> string -> result unit.
Variable upload_frames : list StoryboardFrame -> result unit.
Variable makedirs : string -> result unit.
Variable read_file : string -> result string.

Local Abbreviation segment := (segment_frames text_model json_loads draw_placeholder).
Local Abbreviation steps :=
  (storyboard_steps text_model json_loads draw_placeholder upload_frames).



(** X5.  [load_script].  With both a path and a text, or with neither
    (an empty text counts as none), it raises [ValueError]; when the
    file cannot be read it raises what the reading raised; in each case
    the generator keeps the script it had.  Otherwise the text becomes
    the script and its scenes are those of [_parse_script], while the
    frames of the script loaded before stay.  A script without a scene
    is loaded all the same, and it is [generate_storyboard] that then
    raises [ValueError] and leaves the generator as it is. *)
Theorem load_script_contract (script_path script_text_ : option string)
  (g : Generator) :
  let out := load_script read_file script_path script_text_ g in
  (given script_path = given script_text_ -> out = (Raise ValueError, g))
  /\ (forall p e, script_path = Some p -> given script_path = true ->
        given script_text_ = false -> read_file p = Raise e -> out = (Raise e, g))
  /\ (forall text,
        (given script_path = true /\ given script_text_ = false
         /\ (exists p, script_path = Some p /\ read_file p = Ok text))
        \/ (given script_path = false /\ given script_text_ = true
            /\ script_text_ = Some text) ->
        out = (Ok tt, set_script g text)
        /\ script_text (snd out) = text
        /\ script_scenes (snd out) = _parse_script text
        /\ frames (snd out) = frames g
        /\ (_parse_script text = [] ->
            forall output_dir,
              generate_storyboard_method text_model json_loads draw_placeholder
                upload_frames makedirs output_dir (snd out)
              = (Raise ValueError, snd out))).
Proof.
  cbv zeta. unfold load_script.
  split.
  { intros H. destruct (given script_path) eqn:E1; rewrite <- H; cbn [andb];
      [reflexivity|].
    destruct script_path as [[|c p]|]; try discriminate;
      destruct script_text_ as [[|c' t]|]; try discriminate; reflexivity. }
  split.
  { intros p e -> Hp Ht Hr. rewrite Hp, Ht. cbn [andb].
    destruct p as [|c p]; [discriminate|]. rewrite Hr. reflexivity. }
  intros text H.
  assert (Hout : (if given script_path && given script_text_
                  then (Raise ValueError, g)
                  else
                    match script_path, script_text_ with
                    | Some (String c p), _ =>
                        match read_file (String c p) with
                        | Ok text => (Ok tt, set_script g text)
                        | Raise e => (Raise e, g)
                        end
                    | _, Some (String c t) => (Ok tt, set_script g (String c t))
                    | _, _ => (Raise ValueError, g)
                    end) = (Ok tt, set_script g text)).
  { destruct H as [(Hp & Ht & p & -> & Hr)|(Hp & Ht & ->)].
    - rewrite Hp, Ht. cbn [andb]. destruct p as [|c p]; [discriminate|].
      rewrite Hr. reflexivity.
    - rewrite Hp, Ht. cbn [andb]. destruct text as [|c t]; [discriminate|].
      destruct script_path as [[|c' p]|]; try discriminate; reflexivity. }
  rewrite Hout. cbn [fst snd set_script script_text script_scenes frames].
  repeat split.
  intros Hnil output_dir. unfold generate_storyboard_method.
  cbn [script_scenes set_script]. rewrite Hnil. reflexivity.
Qed.

End GeneratorMethods.

(* ================================================================== *)
(** * The export for the timeline assembler *)
(* ================================================================== *)

Section ExportFacts.

Variable now_iso : nat -> string.
Variable write_json : string -> json -> result unit.

Lemma nodup_length_le (l : list string) :
  List.length (nodup string_dec l) <= List.length l.
Proof.
  induction l as [|x l IH]; cbn; [lia|].
  destruct (in_dec string_dec x l); cbn; lia.
Qed.

Lemma nodup_nonempty (l : list string) : l <> [] -> 1 <= List.length (nodup string_dec l).
Proof.
  intros Hne. destruct (nodup string_dec l) as [|y r] eqn:E; cbn; [|lia].
  destruct l as [|x l]; [contradiction|].
  assert (H : In x (nodup string_dec (x :: l)))
    by (apply nodup_In; left; reflexivity).
  rewrite E in H. contradiction.
Qed.

Lemma exported_ids (l : list StoryboardFrame) : forall i,
  map (fun kf => py_getitem (frame_to_dict (snd kf) (now_iso (S (fst kf)))) "frame_id")
      (combine (seq i (List.length l)) l)
  = map (fun f => Ok (JStr (frame_id f))) l.
Proof.
  induction l as [|f l IH]; intros i; [reflexivity|].
  cbn [List.length seq combine map]. rewrite IH. reflexivity.
Qed.

(** X7.  [export_to_timeline_assembler].  Without frames it raises
    [ValueError]; otherwise it returns the export, after writing it
    when a path is given, and raises what the writing raised.  The
    export lists the frames of the generator in their order, its
    [frame_count] is their number and its [scene_count] the number of
    distinct scene ids among them, which is at least 1 and at most the
    number of frames. *)
Theorem export_contract (output_path : option string) (g : Generator) :
  let export := export_to_timeline_assembler now_iso write_json in
  let data := export_data now_iso g in
  (frames g = [] -> export output_path g = Raise ValueError)
  /\ (frames g <> [] ->
      (given output_path = false -> export output_path g = Ok data)
      /\ (forall p, output_path = Some p -> given output_path = true ->
            export output_path g
            = match write_json p data with
              | Ok _ => Ok data
              | Raise e => Raise e
              end)
      /\ (exists items,
            py_getitem data "frames" = Ok (JArr items)
            /\ map (fun d => py_getitem d "frame_id") items
               = map (fun f => Ok (JStr (frame_id f))) (frames g))
      /\ metadata_entry data "frame_count"
         = Ok (JInt (Z.of_nat (List.length (frames g))))
      /\ exists ids,
           metadata_entry data "scene_count" = Ok (JInt (Z.of_nat (List.length ids)))
           /\ NoDup ids
           /\ (forall id, In id ids <-> exists f, In f (frames g) /\ frame_scene_id f = id)
           /\ 1 <= List.length ids <= List.length (frames g)).
Proof.
  cbv zeta. unfold export_to_timeline_assembler.
  split; [intros ->; reflexivity|]. intros Hne.
  split.
  { intros Hp. destruct (frames g) eqn:E; [contradiction|].
    destruct output_path as [[|c p]|]; try discriminate; reflexivity. }
  split.
  { intros p -> Hp. destruct (frames g) eqn:E; [contradiction|].
    destruct p as [|c p]; [discriminate|]. cbn [rbind].
    destruct (write_json _ _) as [[]|e]; reflexivity. }
  split.
  { eexists. split; [reflexivity|]. rewrite map_map. apply exported_ids. }
  split; [reflexivity|].
  exists (nodup string_dec (map frame_scene_id (frames g))).
  split; [reflexivity|]. split; [apply NoDup_nodup|]. split.
  - intros id. rewrite nodup_In, in_map_iff.
    split; intros (f & H1 & H2); exists f; split; assumption.
  - split.
    + apply nodup_nonempty. destruct (frames g); [contradiction|discriminate].
    + rewrite <- (length_map frame_scene_id (frames g)). apply nodup_length_le.
Qed.

End ExportFacts.

(* ================================================================== *)
(** * The placeholder image *)
(* ================================================================== *)

Section PlaceholderFacts.

Variable py_repr : json -> string.
Variable textlength : string -> float.
Variable save : string -> list shape -> result unit.

Local Abbreviation render := (render_shot py_repr textlength save).

Lemma get_text_hashable d key default :
  hashable key = true -> exists x, get_text d key default = Ok x.
Proof. destruct key; cbn; try discriminate; eexists; reflexivity. Qed.

Lemma get_text_unhashable d key default :
  hashable key = false -> get_text d key default = Raise TypeError.
Proof. destruct key; cbn; try discriminate; reflexivity. Qed.

Lemma joinable_ok v : joinable v = true -> exists s, py_join ", " v = Ok s.
Proof. unfold joinable. destruct (py_join ", " v); [eexists; reflexivity|discriminate]. Qed.

Lemma joinable_iter v : joinable v = true -> exists names, py_iter v = Ok names.
Proof.
  unfold joinable. destruct v; cbn; try discriminate; eexists; reflexivity.
Qed.

Lemma not_joinable v : joinable v = false -> exists e, py_join ", " v = Raise e.
Proof. unfold joinable. destruct (py_join ", " v); [discriminate|eexists; reflexivity]. Qed.

Lemma split_ws_nil_first c s : split_ws (String c s) = [] -> isspace c = true.
Proof.
  cbn [split_ws]. destruct (isspace c); [reflexivity|].
  destruct (split_ws s); [discriminate|].
  destruct (is_blank (first_char s)); discriminate.
Qed.

Lemma split_ws_app_blank c b : forall a,
  isspace c = true -> split_ws (a ++ String c b) = (split_ws a ++ split_ws b)%list.
Proof.
  intros a Hc. induction a as [|x a IH].
  - cbn. rewrite Hc. reflexivity.
  - change (String x a ++ String c b) with (String x (a ++ String c b)).
    cbn [split_ws]. destruct (isspace x); [exact IH|]. rewrite IH.
    destruct a as [|y a'].
    + cbn. rewrite Hc. destruct (split_ws b); reflexivity.
    + cbn [append first_char].
      destruct (split_ws (String y a')) as [|w ws] eqn:E.
      * apply split_ws_nil_first in E. cbn [is_blank app]. rewrite E.
        destruct (split_ws b); reflexivity.
      * cbn [app]. destruct (is_blank (Some y)); reflexivity.
Qed.

Lemma split_ws_word w : is_word w = true -> split_ws w = [w].
Proof.
  unfold is_word. induction w as [|c w IH]; [discriminate|].
  cbn. intros H. apply andb_prop in H. destruct H as [Hc Hw].
  apply negb_true_iff in Hc. rewrite Hc.
  destruct w as [|c' w']; [reflexivity|].
  rewrite IH by exact Hw. cbn in Hw. apply andb_prop in Hw. destruct Hw as [Hc' _].
  apply negb_true_iff in Hc'. cbn. rewrite Hc'. reflexivity.
Qed.

Lemma split_ws_words s : forall w, In w (split_ws s) -> is_word w = true.
Proof.
  induction s as [|c s IH]; intros w Hin; [contradiction|].
  cbn [split_ws] in Hin. destruct (isspace c) eqn:Hc; [apply IH, Hin|].
  assert (Hone : is_word (String c EmptyString) = true)
    by (unfold is_word; cbn; rewrite Hc; reflexivity).
  destruct (split_ws s) as [|w0 ws] eqn:E.
  - destruct Hin as [<-|[]]. exact Hone.
  - destruct (is_blank (first_char s)).
    + destruct Hin as [<-|Hin]; [exact Hone|apply IH, Hin].
    + destruct Hin as [<-|Hin]; [|apply IH; right; exact Hin].
      pose proof (IH w0 (or_introl eq_refl)) as H0. unfold is_word in *.
      cbn. rewrite Hc. cbn. apply andb_prop in H0. apply H0.
Qed.

Lemma join_snoc sep l w :
  l <> [] -> join sep (l ++ [w]) = join sep l ++ sep ++ w.
Proof.
  induction l as [|x l IH]; [congruence|]. intros _.
  destruct l as [|y l'].
  - reflexivity.
  - change (join sep ((x :: y :: l') ++ [w]))
      with (x ++ sep ++ join sep ((y :: l') ++ [w])).
    rewrite IH by discriminate.
    change (join sep (x :: y :: l')) with (x ++ sep ++ join sep (y :: l')).
    rewrite !append_assoc. reflexivity.
Qed.

Lemma tidy_word w : is_word w = true -> tidy w.
Proof. intros H. unfold tidy. rewrite (split_ws_word w H). reflexivity. Qed.

Lemma tidy_extend cur w :
  tidy cur -> nonempty cur = true -> is_word w = true ->
  tidy (cur ++ " " ++ w)
  /\ split_ws (cur ++ " " ++ w) = (split_ws cur ++ [w])%list.
Proof.
  intros Hc Hne Hw.
  assert (Hs : split_ws (cur ++ " " ++ w) = (split_ws cur ++ [w])%list).
  { change (" " ++ w) with (String " " w).
    rewrite split_ws_app_blank by reflexivity. rewrite (split_ws_word w Hw). reflexivity. }
  split; [|exact Hs]. unfold tidy. rewrite Hs, join_snoc.
  - rewrite <- Hc. reflexivity.
  - intros Hnil. unfold tidy in Hc. rewrite Hnil in Hc. rewrite Hc in Hne. discriminate.
Qed.

Local Abbreviation ok := (line_ok textlength).

Lemma test_line_facts cur w :
  tidy cur -> is_word w = true ->
  let test_line := if nonempty cur then cur ++ " " ++ w else w in
  tidy test_line
  /\ split_ws test_line = (split_ws cur ++ [w])%list
  /\ nonempty test_line = true.
Proof.
  intros Hcur Hw. cbv zeta.
  assert (Hwne : nonempty w = true)
    by (unfold is_word in Hw; apply andb_prop in Hw; apply Hw).
  destruct (nonempty cur) eqn:Ec.
  - destruct (tidy_extend cur w Hcur Ec Hw) as [H1 H2].
    split; [exact H1|]. split; [exact H2|]. destruct cur; [discriminate|reflexivity].
  - destruct cur; [|discriminate]. split; [apply tidy_word, Hw|].
    split; [rewrite (split_ws_word w Hw); reflexivity|exact Hwne].
Qed.

Lemma word_ok w : is_word w = true -> ok w.
Proof.
  intros Hw. split; [apply tidy_word, Hw|]. right.
  rewrite (split_ws_word w Hw). cbn. lia.
Qed.

(** The loop loses no word and moves none. *)
Lemma wrap_loop_words words : forall cur lines,
  (forall w, In w words -> is_word w = true) -> tidy cur ->
  let out := wrap_loop textlength words cur lines in
  (flat_map split_ws (fst out) ++ split_ws (snd out)
   = flat_map split_ws lines ++ split_ws cur ++ words)%list.
Proof.
  induction words as [|w rest IH]; intros cur lines Hwords Hcur; cbv zeta.
  - cbn [wrap_loop fst snd]. rewrite app_nil_r. reflexivity.
  - cbn [wrap_loop].
    assert (Hw : is_word w = true) by (apply Hwords; left; reflexivity).
    assert (Hrest : forall w', In w' rest -> is_word w' = true)
      by (intros w' H; apply Hwords; right; exact H).
    destruct (test_line_facts cur w Hcur Hw) as (Ht1 & Ht2 & _).
    destruct (textlength _ <? 600)%float.
    + rewrite (IH _ lines Hrest Ht1), Ht2, <- app_assoc. reflexivity.
    + rewrite (IH w (lines ++ [cur])%list Hrest (tidy_word w Hw)).
      rewrite flat_map_app, (split_ws_word w Hw). cbn [flat_map].
      rewrite app_nil_r, <- !app_assoc. reflexivity.
Qed.

(** Every line the loop closes or holds is as it is to be. *)
Lemma wrap_loop_ok words : forall cur lines,
  (forall w, In w words -> is_word w = true) ->
  ok cur -> Forall ok lines ->
  let out := wrap_loop textlength words cur lines in
  ok (snd out) /\ Forall ok (fst out).
Proof.
  induction words as [|w rest IH]; intros cur lines Hwords Hcur Hlines; cbv zeta.
  - split; assumption.
  - cbn [wrap_loop].
    assert (Hw : is_word w = true) by (apply Hwords; left; reflexivity).
    assert (Hrest : forall w', In w' rest -> is_word w' = true)
      by (intros w' H; apply Hwords; right; exact H).
    destruct (test_line_facts cur w (proj1 Hcur) Hw) as (Ht1 & _ & _).
    destruct (textlength _ <? 600)%float eqn:Efit.
    + apply IH; [exact Hrest| |exact Hlines]. split; [exact Ht1|left; exact Efit].
    + apply IH; [exact Hrest|apply word_ok, Hw|].
      apply Forall_app. split; [exact Hlines|]. constructor; [exact Hcur|constructor].
Qed.

(** Once a line is begun no empty line is closed. *)
Lemma wrap_loop_nonempty words : forall cur lines,
  (forall w, In w words -> is_word w = true) -> tidy cur ->
  nonempty cur = true -> Forall (fun l => nonempty l = true) lines ->
  let out := wrap_loop textlength words cur lines in
  nonempty (snd out) = true /\ Forall (fun l => nonempty l = true) (fst out).
Proof.
  induction words as [|w rest IH]; intros cur lines Hwords Hcur Hne Hlines; cbv zeta.
  - split; assumption.
  - cbn [wrap_loop].
    assert (Hw : is_word w = true) by (apply Hwords; left; reflexivity).
    assert (Hrest : forall w', In w' rest -> is_word w' = true)
      by (intros w' H; apply Hwords; right; exact H).
    destruct (test_line_facts cur w Hcur Hw) as (Ht1 & _ & Ht3).
    destruct (textlength _ <? 600)%float.
    + apply IH; assumption.
    + apply IH; [exact Hrest|apply tidy_word, Hw| |].
      * unfold is_word in Hw. apply andb_prop in Hw. apply Hw.
      * apply Forall_app. split; [exact Hlines|]. constructor; [exact Hne|constructor].
Qed.

Lemma wrap_loop_prefix words : forall cur lines,
  exists more, fst (wrap_loop textlength words cur lines) = (lines ++ more)%list.
Proof.
  induction words as [|w rest IH]; intros cur lines.
  - exists []. cbn. rewrite app_nil_r. reflexivity.
  - cbn [wrap_loop]. destruct (textlength _ <? 600)%float; [apply IH|].
    destruct (IH w (lines ++ [cur])%list) as [more ->].
    exists (cur :: more). rewrite <- app_assoc. reflexivity.
Qed.

(** X9.  The wrapping of the description.  Read word by word, the
    lines drawn are the words of the description in their order: no
    word is lost, split or moved.  Each line is its words joined by
    single blanks, and a line of two words or more measures less than
    600 pixels.  No line after the first is empty, and the first is
    empty exactly when the first word alone does not fit. *)
Theorem wrap_keeps_words (description_ : string) :
  let lines := wrap textlength description_ in
  flat_map split_ws lines = split_ws description_
  /\ (forall l, In l lines ->
        l = join " " (split_ws l)
        /\ (2 <= List.length (split_ws l) -> (textlength l <? 600)%float = true))
  /\ (forall l, In l (tl lines) -> nonempty l = true)
  /\ (hd_error lines = Some EmptyString <->
      exists w rest, split_ws description_ = w :: rest
                     /\ (textlength w <? 600)%float = false).
Proof.
  cbv zeta. unfold wrap.
  pose proof (split_ws_words description_) as Hwords.
  assert (Hempty : ok EmptyString) by (split; [reflexivity|right; cbn; lia]).
  pose proof (wrap_loop_words (split_ws description_) "" [] Hwords (proj1 Hempty)) as H1.
  pose proof (wrap_loop_ok (split_ws description_) "" [] Hwords Hempty (Forall_nil _))
    as [H2 H3].
  cbv zeta in H1. cbn [flat_map split_ws app] in H1.
  set (out := wrap_loop textlength (split_ws description_) "" []) in *.
  assert (Hall : Forall ok (if nonempty (snd out)
                            then (fst out ++ [snd out])%list else fst out)).
  { destruct (nonempty (snd out)); [|exact H3].
    apply Forall_app. split; [exact H3|]. constructor; [exact H2|constructor]. }
  split; [|split; [|split]].
  - destruct (nonempty (snd out)) eqn:E.
    + rewrite flat_map_app. cbn [flat_map]. rewrite app_nil_r. exact H1.
    + destruct (snd out); [|discriminate]. cbn [split_ws] in H1.
      rewrite app_nil_r in H1. exact H1.
  - intros l Hin. rewrite Forall_forall in Hall. destruct (Hall l Hin) as [Ht [Hf|Hf]].
    + split; [exact Ht|]. intros _. exact Hf.
    + split; [exact Ht|]. lia.
  - subst out. destruct (split_ws description_) as [|w rest] eqn:Ew.
    + cbn. intros l [].
    + cbn [wrap_loop nonempty app].
      assert (Hw : is_word w = true) by (apply Hwords; left; reflexivity).
      assert (Hrest : forall w', In w' rest -> is_word w' = true)
        by (intros w' H; apply Hwords; right; exact H).
      assert (Hwne : nonempty w = true)
        by (unfold is_word in Hw; apply andb_prop in Hw; apply Hw).
      destruct (textlength w <? 600)%float.
      * destruct (wrap_loop_nonempty rest w [] Hrest (tidy_word w Hw) Hwne (Forall_nil _))
          as [Hc Hl].
        cbv zeta in Hc, Hl. rewrite Hc. intros l Hin.
        assert (Hin' : In l (fst (wrap_loop textlength rest w [])
                             ++ [snd (wrap_loop textlength rest w [])])%list).
        { destruct (fst (wrap_loop textlength rest w [])); [destruct Hin|].
          right. exact Hin. }
        apply in_app_or in Hin'. destruct Hin' as [Hin'|[<-|[]]]; [|exact Hc].
        rewrite Forall_forall in Hl. apply Hl, Hin'.
      * destruct (wrap_loop_prefix rest w [EmptyString]) as [more Hmore].
        assert (Hgen : forall cur lines0,
                  tidy cur -> nonempty cur = true ->
                  Forall (fun l => nonempty l = true) (tl lines0) ->
                  lines0 <> [] ->
                  let o := wrap_loop textlength rest cur lines0 in
                  nonempty (snd o) = true
                  /\ Forall (fun l => nonempty l = true) (tl (fst o ++ [snd o]))%list).
        { clear - Hrest. induction rest as [|w' rest' IHr]; intros cur lines0 Hc Hne Hl Hnz;
            cbv zeta.
          - cbn [wrap_loop fst snd]. split; [exact Hne|].
            destruct lines0 as [|l0 ls]; [contradiction|]. cbn [app tl] in *.
            apply Forall_app. split; [exact Hl|]. constructor; [exact Hne|constructor].
          - cbn [wrap_loop].
            assert (Hw' : is_word w' = true) by (apply Hrest; left; reflexivity).
            assert (Hrest' : forall x, In x rest' -> is_word x = true)
              by (intros x H; apply Hrest; right; exact H).
            destruct (test_line_facts cur w' Hc Hw') as (Ht1 & _ & Ht3).
            destruct (textlength _ <? 600)%float.
            + apply (IHr Hrest'); assumption.
            + apply (IHr Hrest').
              * apply tidy_word, Hw'.
              * unfold is_word in Hw'. apply andb_prop in Hw'. apply Hw'.
              * destruct lines0 as [|l0 ls]; [contradiction|]. cbn [app tl] in *.
                apply Forall_app. split; [exact Hl|]. constructor; [exact Hne|constructor].
              * destruct lines0; discriminate. }
        destruct (Hgen w [EmptyString] (tidy_word w Hw) Hwne) as [Hc Hl];
          [constructor|discriminate|].
        cbv zeta in Hc, Hl. rewrite Hc. intros l Hin.
        rewrite Forall_forall in Hl. apply Hl, Hin.
  - subst out. destruct (split_ws description_) as [|w rest] eqn:Ew.
    + cbn. split; [discriminate|]. intros (w & rest & H & _). discriminate.
    + cbn [wrap_loop nonempty app].
      assert (Hw : is_word w = true) by (apply Hwords; left; reflexivity).
      assert (Hrest : forall w', In w' rest -> is_word w' = true)
        by (intros w' H; apply Hwords; right; exact H).
      assert (Hwne : nonempty w = true)
        by (unfold is_word in Hw; apply andb_prop in Hw; apply Hw).
      destruct (textlength w <? 600)%float eqn:Efit.
      * destruct (wrap_loop_nonempty rest w [] Hrest (tidy_word w Hw) Hwne (Forall_nil _))
          as [Hc Hl].
        cbv zeta in Hc, Hl. rewrite Hc. split.
        -- intros Hhd. exfalso.
           destruct (fst (wrap_loop textlength rest w [])) as [|l0 ls] eqn:El.
           ++ cbn in Hhd. injection Hhd as Hhd. rewrite Hhd in Hc. discriminate.
           ++ cbn in Hhd. injection Hhd as ->. inversion Hl. discriminate.
        -- intros (w0 & rest0 & H & Hno). injection H as <- <-.
           congruence.
      * destruct (wrap_loop_prefix rest w [EmptyString]) as [more Hmore].
        split; [|].
        -- intros _. exists w, rest. split; [reflexivity|exact Efit].
        -- intros _.
           destruct (nonempty (snd (wrap_loop textlength rest w [EmptyString])));
             rewrite Hmore; reflexivity.
Qed.

(** The two cases of [_generate_image_for_shot]. *)
Lemma render_shot_cases (scene : Scene) (shot : json) (p : string) :
  (drawable shot = true ->
     exists prompt shapes,
       image_prompt py_repr scene shot = Ok prompt
       /\ placeholder py_repr textlength scene shot = Ok shapes
       /\ render scene shot p = save p shapes)
  /\ (drawable shot = false ->
      exists e, render scene shot p = Raise e
                /\ (image_prompt py_repr scene shot = Raise e
                    \/ placeholder py_repr textlength scene shot = Raise e)).
Proof.
  unfold render_shot, image_prompt, placeholder, drawable.
  destruct shot as [| | | | |items|fields];
    try (split; [discriminate|intros _; eexists; split; [reflexivity|left; reflexivity]]).
  unfold py_getitem, py_get, dict_item.
  destruct (dict_get fields "shot_type") as [t|];
    [|split; [discriminate|intros _; eexists; split; [reflexivity|left; reflexivity]]].
  cbn [rbind].
  destruct (hashable t) eqn:Ht.
  2:{ rewrite (get_text_unhashable _ _ _ Ht). cbn [rbind].
      split; [destruct (dict_get fields "camera_movement") as [m|];
              [destruct (dict_get fields "description") as [[]|]|]; discriminate|].
      intros _. eexists. split; [reflexivity|left; reflexivity]. }
  destruct (get_text_hashable SHOT_TYPE_TEXT t "Medium Shot" Ht) as [td ->].
  cbn [rbind].
  destruct (dict_get fields "camera_movement") as [m|];
    [|split; [discriminate|intros _; eexists; split; [reflexivity|left; reflexivity]]].
  cbn [rbind].
  destruct (hashable m) eqn:Hm.
  2:{ rewrite (get_text_unhashable _ _ _ Hm). cbn [rbind].
      split; [destruct (dict_get fields "description") as [[]|]; discriminate|].
      intros _. eexists. split; [reflexivity|left; reflexivity]. }
  destruct (get_text_hashable CAMERA_MOVEMENT_TEXT m "Static" Hm) as [md ->].
  cbn [rbind].
  destruct (dict_get fields "description") as [d|];
    [|split; [discriminate|intros _; eexists; split; [reflexivity|left; reflexivity]]].
  cbn [rbind andb].
  set (who := match dict_get fields "characters" with
              | Some v => v
              | None => JArr []
              end).
  set (what := match dict_get fields "visual_elements" with
               | Some v => v
               | None => JArr []
               end).
  assert (Hwho : match dict_get fields "characters" with
                 | Some x => Ok x
                 | None => Ok (JArr [])
                 end = Ok who)
    by (subst who; destruct (dict_get fields "characters"); reflexivity).
  assert (Hwhat : match dict_get fields "visual_elements" with
                  | Some x => Ok x
                  | None => Ok (JArr [])
                  end = Ok what)
    by (subst what; destruct (dict_get fields "visual_elements"); reflexivity).
  rewrite Hwho, Hwhat. cbn [rbind].
  destruct (joinable who) eqn:Jwho.
  2:{ destruct (not_joinable _ Jwho) as [e ->]. cbn [rbind].
      split; [destruct d; discriminate|].
      intros _. eexists. split; [reflexivity|left; reflexivity]. }
  destruct (joinable_ok _ Jwho) as [ws ->]. cbn [rbind].
  destruct (joinable what) eqn:Jwhat.
  2:{ destruct (not_joinable _ Jwhat) as [e ->]. cbn [rbind].
      split; [destruct d; discriminate|].
      intros _. eexists. split; [reflexivity|left; reflexivity]. }
  destruct (joinable_ok _ Jwhat) as [vs ->]. cbn [rbind].
  destruct (joinable_iter _ Jwho) as [names ->].
  destruct d; cbn [words_of rbind];
    try (split; [discriminate|intros _; eexists; split; [reflexivity|right; reflexivity]]).
  split; [|discriminate]. intros _. eexists. eexists.
  split; [reflexivity|]. split; reflexivity.
Qed.


Lemma drawable_fields shot :
  drawable shot = true ->
  exists fields t m d,
    shot = JObj fields
    /\ dict_get fields "shot_type" = Some t
    /\ dict_get fields "camera_movement" = Some m
    /\ dict_get fields "description" = Some (JStr d)
    /\ joinable (match dict_get fields "characters" with
                 | Some v => v
                 | None => JArr []
                 end) = true.
Proof.
  unfold drawable. destruct shot as [| | | | | |fields]; try discriminate.
  destruct (dict_get fields "shot_type") as [t|] eqn:Et; [|discriminate].
  destruct (dict_get fields "camera_movement") as [m|] eqn:Em; [|discriminate].
  destruct (dict_get fields "description") as [[| | | |d| |]|] eqn:Ed; try discriminate.
  intros H. apply andb_prop in H. destruct H as [H _].
  apply andb_prop in H. destruct H as [_ H].
  exists fields, t, m, d. repeat split; assumption.
Qed.

Lemma image_needs_render scene shot p :
  _generate_image_for_shot render scene shot p = Ok tt -> render scene shot p = Ok tt.
Proof.
  unfold _generate_image_for_shot.
  destruct (py_getitem shot "shot_type"); [|discriminate].
  destruct (py_getitem shot "camera_movement"); [|discriminate].
  destruct (py_getitem shot "description"); [|discriminate].
  cbn [rbind]. auto.
Qed.

(** A frame made with the placeholder has characters that can be
    joined. *)
Lemma made_frame_printable scene shot fid p f :
  make_frame render scene shot fid p = Ok f ->
  drawable shot = true /\ joinable (characters f) = true
  /\ exists d, StoryboardGen.description f = JStr d.
Proof.
  intros H. apply make_frame_fields in H.
  destruct H as (_ & _ & _ & Hd & _ & _ & Hc & Himg).
  apply image_needs_render in Himg.
  destruct (drawable shot) eqn:E.
  - split; [reflexivity|].
    destruct (drawable_fields shot E) as (fields & t & m & d & -> & _ & _ & Hdesc & Hj).
    cbn [py_get py_getitem] in Hc, Hd. unfold dict_item in Hd. rewrite Hdesc in Hd.
    injection Hd as Hd. split; [|exists d; symmetry; exact Hd].
    destruct (dict_get fields "characters"); injection Hc as <-; exact Hj.
  - destruct (proj2 (render_shot_cases scene shot p) E) as (e & He & _).
    rewrite He in Himg. discriminate.
Qed.

(** X8.  Which shots get a frame.  A shot is drawable when it is a
    dict with a type and a movement that can be hashed, a description
    that is a text, and characters and visual elements that can be
    joined.  [_generate_frames_for_shots] makes the frame of a drawable
    shot exactly when its image can be saved, and the frame holds the
    description, type, movement and characters of the shot; for any
    other shot [_generate_image_for_shot] raises and no frame is
    made. *)
Theorem drawable_shots_get_frames (scene : Scene) (output_dir : string)
  (k : nat) (shot : json) :
  let fid := frame_name scene (k + 1) in
  let p := path_join output_dir (fid ++ ".png") in
  (drawable shot = true ->
     exists shapes,
       placeholder py_repr textlength scene shot = Ok shapes
       /\ render scene shot p = save p shapes
       /\ (save p shapes = Ok tt ->
           exists f, frame_at render scene output_dir (k, shot) = [f]
                     /\ frame_id f = fid /\ image_path f = p
                     /\ py_getitem shot "description" = Ok (StoryboardGen.description f)
                     /\ py_getitem shot "shot_type" = Ok (shot_type f)
                     /\ py_getitem shot "camera_movement" = Ok (camera_movement f)
                     /\ py_get shot "characters" (JArr []) = Ok (characters f))
       /\ (forall e, save p shapes = Raise e ->
             frame_at render scene output_dir (k, shot) = []))
  /\ (drawable shot = false ->
      frame_at render scene output_dir (k, shot) = []
      /\ exists e, render scene shot p = Raise e).
Proof.
  cbv zeta. unfold frame_at. cbn [fst snd]. split; intros Hd.
  - destruct (proj1 (render_shot_cases scene shot
                       (path_join output_dir (frame_name scene (k + 1) ++ ".png"))) Hd)
      as (prompt & shapes & _ & Hshapes & Hrender).
    exists shapes. split; [exact Hshapes|]. split; [exact Hrender|].
    destruct (drawable_fields shot Hd) as (fields & t & m & d & -> & Ht & Hm & Hdesc & _).
    unfold make_frame, _generate_image_for_shot.
    cbn [py_getitem py_get]. unfold dict_item. rewrite Ht, Hm, Hdesc. cbn [rbind].
    rewrite Hrender. split.
    + intros ->. cbn [rbind].
      destruct (dict_get fields "characters"); eexists; repeat split.
    + intros e ->. reflexivity.
  - destruct (proj2 (render_shot_cases scene shot
                       (path_join output_dir (frame_name scene (k + 1) ++ ".png"))) Hd)
      as (e & He & _).
    split; [|exists e; exact He].
    destruct (make_frame _ _ _ _ _) as [f|e'] eqn:E; [|reflexivity].
    apply made_frame_printable in E. destruct E as [E _]. congruence.
Qed.

End PlaceholderFacts.

(* ================================================================== *)
(** * The storyboard document *)
(* ================================================================== *)

Section DocumentFacts.

Variable py_repr : json -> string.
Variable relpath : string -> string -> string.
Variable open_write : string -> result unit.

Local Abbreviation document :=
  (generate_storyboard_document py_repr relpath open_write).

Lemma characters_line_printable before after f :
  printable f = true -> exists s, characters_line before after f = Ok s.
Proof.
  unfold printable, characters_line, joinable.
  destruct (py_truthy (characters f)); [|eexists; reflexivity].
  cbn [negb orb]. destruct (py_join ", " (characters f)); [|discriminate].
  eexists. reflexivity.
Qed.

Lemma characters_line_unprintable before after f :
  printable f = false -> characters_line before after f = Raise TypeError.
Proof.
  unfold printable, characters_line, joinable.
  destruct (py_truthy (characters f)); [|discriminate]. cbn [negb orb].
  destruct (characters f) as [| | | | |items|fields]; cbn; try reflexivity;
    try discriminate.
  destruct (all_texts items); [discriminate|reflexivity].
Qed.

(** The loop over the frames writes the frames it goes through, and
    stops in the frame whose characters cannot be written. *)
Lemma write_frames_run bo bc before after l : forall written,
  let ch := characters_line before after in
  (forallb printable l = true ->
     write_frames bo ch bc l written = (Ok tt, written ++ blocks bo ch bc l))
  /\ (forall l1 f l2,
        l = (l1 ++ f :: l2)%list -> forallb printable l1 = true ->
        printable f = false ->
        write_frames bo ch bc l written
        = (Raise TypeError, written ++ blocks bo ch bc l1 ++ bo f)).
Proof.
  cbv zeta. induction l as [|f l IH]; intros written.
  - split; [intros _; cbn; rewrite append_empty_r; reflexivity|].
    intros [|? ?] ? ? H; discriminate.
  - split.
    + cbn [forallb]. intros H. apply andb_prop in H. destruct H as [Hf Hl].
      destruct (characters_line_printable before after f Hf) as [s Hs].
      cbn [write_frames blocks]. rewrite Hs.
      rewrite (proj1 (IH _) Hl), !append_assoc. reflexivity.
    + intros [|f1 l1] f0 l2 Hl Hok Hbad.
      * cbn [app] in Hl. injection Hl as <- <-.
        cbn [write_frames blocks].
        rewrite (characters_line_unprintable before after f Hbad). reflexivity.
      * cbn [app] in Hl. injection Hl as <- ->.
        cbn [forallb] in Hok. apply andb_prop in Hok. destruct Hok as [Hf Hl1].
        destruct (characters_line_printable before after f Hf) as [s Hs].
        cbn [write_frames blocks]. rewrite Hs.
        rewrite (proj2 (IH _) l1 f0 l2 eq_refl Hl1 Hbad), !append_assoc. reflexivity.
Qed.

(** The document once the file is open. *)
Lemma document_run output_path format g disk :
  str_in format ["pdf"; "html"] = true -> frames g <> [] ->
  open_write output_path = Ok tt ->
  let pid := StoryboardGen.project_id g in
  (forallb printable (frames g) = true ->
     document output_path format g disk
     = (Ok tt,
        dict_set disk output_path
          (document_text py_repr relpath output_path format pid (frames g))))
  /\ (forall l1 f l2,
        frames g = (l1 ++ f :: l2)%list ->
        forallb printable l1 = true -> printable f = false ->
        document output_path format g disk
        = (Raise TypeError,
           dict_set disk output_path
             (partial_text py_repr relpath output_path format pid l1 f))).
Proof.
  intros Hformat Hne Hopen. cbv zeta. unfold generate_storyboard_document.
  rewrite Hformat, Hopen. cbn [negb].
  destruct (frames g) as [|f0 l0] eqn:Ef; [contradiction|]. rewrite <- Ef. clear Hne.
  unfold document_text, partial_text, html_document, pdf_document.
  split.
  - intros Hok. destruct (String.eqb format "html"); cbn [fst snd].
    + rewrite (proj1 (write_frames_run _ _ _ _ _ _) Hok). cbn [fst snd].
      rewrite ?append_assoc. reflexivity.
    + rewrite (proj1 (write_frames_run _ _ _ _ _ _) Hok). reflexivity.
  - intros l1 f l2 Hl Hok Hbad. destruct (String.eqb format "html"); cbn [fst snd].
    + rewrite (proj2 (write_frames_run _ _ _ _ _ _) l1 f l2 Hl Hok Hbad).
      cbn [fst snd]. rewrite ?append_assoc. reflexivity.
    + rewrite (proj2 (write_frames_run _ _ _ _ _ _) l1 f l2 Hl Hok Hbad).
      cbn [fst snd]. rewrite ?append_assoc. reflexivity.
Qed.

(** X10.  [generate_storyboard_document].  A format other than [pdf]
    and [html] raises [ValueError], also when there is no frame; a
    generator without frames raises [ValueError]; a file that cannot be
    opened raises what the opening raised; in these cases no file is
    written.  For frames that have image paths: when the characters of
    every frame can be written the file holds the head of the
    document, the text of every frame in the order of [self.frames]
    and, for [html], the foot; when the characters of a frame are true
    and cannot be joined the call raises [TypeError] and leaves the
    file with the text written up to that frame. *)
Theorem document_contract (output_path format : string) (g : Generator)
  (disk : dict string) :
  let out := document output_path format g disk in
  let pid := StoryboardGen.project_id g in
  (str_in format ["pdf"; "html"] = false -> out = (Raise ValueError, disk))
  /\ (str_in format ["pdf"; "html"] = true ->
      (frames g = [] -> out = (Raise ValueError, disk))
      /\ (frames g <> [] ->
          (forall e, open_write output_path = Raise e -> out = (Raise e, disk))
          /\ (open_write output_path = Ok tt ->
              forallb located (frames g) = true ->
              (forallb printable (frames g) = true ->
                 out = (Ok tt,
                        dict_set disk output_path
                          (document_text py_repr relpath output_path format pid
                             (frames g))))
              /\ (forall l1 f l2,
                    frames g = (l1 ++ f :: l2)%list ->
                    forallb printable l1 = true -> printable f = false ->
                    out = (Raise TypeError,
                           dict_set disk output_path
                             (partial_text py_repr relpath output_path format pid
                                l1 f)))))).
Proof.
  cbv zeta.
  split; [unfold generate_storyboard_document; intros ->; reflexivity|]. intros Hformat.
  split; [unfold generate_storyboard_document; rewrite Hformat; intros ->; reflexivity|].
  intros Hne. split.
  - intros e He. unfold generate_storyboard_document. rewrite Hformat, He.
    destruct (frames g); [contradiction|reflexivity].
  - intros Hopen _. apply document_run; assumption.
Qed.

End DocumentFacts.

Section StoryboardDocument.

Variable text_model : nat -> string -> result string.
Variable json_loads : string -> result json.
Variable upload_frames : list StoryboardFrame -> result unit.
Variable py_repr : json -> string.
Variable textlength : string -> float.
Variable save : string -> list shape -> result unit.
Variable relpath : string -> string -> string.
Variable open_write : string -> result unit.

(** X11.  A storyboard whose images are the placeholders can be put in
    a document.  Every frame of a run has an image path, a description
    that is a text and characters that can be joined, since no frame is
    made of a shot the placeholder cannot be drawn for; so when the run
    has made a frame and the file can be opened,
    [generate_storyboard_document] writes the whole document and raises
    nothing. *)
Theorem storyboard_document_total (fb : bool) (todo : list Scene)
  (output_dir : string) (fs : list StoryboardFrame) :
  generate_storyboard text_model json_loads (render_shot py_repr textlength save)
    upload_frames fb todo output_dir = Ok fs ->
  (forall f, In f fs ->
     located f = true
     /\ joinable (characters f) = true
     /\ exists d, StoryboardGen.description f = JStr d)
  /\ (forall g output_path format disk,
        frames g = fs -> fs <> [] ->
        str_in format ["pdf"; "html"] = true ->
        open_write output_path = Ok tt ->
        generate_storyboard_document py_repr relpath open_write
          output_path format g disk
        = (Ok tt,
           dict_set disk output_path
             (document_text py_repr relpath output_path format
                (StoryboardGen.project_id g) fs))).
Proof.
  intros Hrun.
  assert (Hall : forall f, In f fs ->
            located f = true
            /\ joinable (characters f) = true
            /\ exists d, StoryboardGen.description f = JStr d).
  { intros f Hin. split.
    - unfold located. rewrite (run_frames_paths _ _ _ _ _ _ _ _ _ Hrun Hin).
      apply path_join_nonempty. destruct (frame_id f); reflexivity.
    - destruct (run_frames_made _ _ _ _ _ _ _ _ _ Hrun Hin)
        as (scene & shot & fid & p & _ & Hmade).
      apply made_frame_printable in Hmade. apply Hmade. }
  split; [exact Hall|].
  intros g output_path format disk Hg Hne Hformat Hopen. subst fs.
  apply document_run; try assumption.
  apply forallb_forall. intros f Hin. unfold printable.
  rewrite (proj1 (proj2 (Hall f Hin))). apply orb_true_r.
Qed.

End StoryboardDocument.

Lemma storyboard_document_total_witness :
  exists fs,
    generate_storyboard steady_model tiny_loads
      (render_shot plain_repr seven_wide save_any) (fun _ => Ok tt)
      false (_parse_script heading_example) "out" = Ok fs
    /\ map frame_id fs = ["scene_1_shot_1"; "scene_2_shot_1"]
    /\ forall f, In f fs -> joinable (characters f) = true.
Proof.
  eexists. split; [vm_compute; reflexivity|]. split; [reflexivity|].
  intros f Hin.
  eapply (storyboard_document_total steady_model tiny_loads (fun _ => Ok tt)
            plain_repr seven_wide save_any (fun p _ => p) (fun _ => Ok tt)
            false (_parse_script heading_example) "out"); [|exact Hin].
  vm_compute. reflexivity.
Defined.

(* ================================================================== *)
(** * The validation run: what it finds and what it leaves *)
(* ================================================================== *)

Section ExpectedIssues.

Variable w : World.

(** The scene [id] of [s] has the annotations a run over [st] gives it. *)
Local Abbreviation fresh_at st s id :=
  (option_map annotations (dict_get (scenes s) id)
   = Some (fresh_annotations w st id)).

Lemma process_step_expected st id s s' :
  key_paths (scenes s) = key_paths (scenes st) -> valid s ->
  _process_scene w id s = (Ok tt, s') ->
  issues (current s') = (issues (current s) ++ scene_composition w st id)%list
  /\ key_paths (scenes s') = key_paths (scenes st) /\ valid s'
  /\ fresh_at st s' id
  /\ (forall id', fresh_at st s id' -> fresh_at st s' id').
Proof.
  intros Hkeys Hvalid. rewrite process_scene_run.
  pose proof (key_paths_get _ _ id Hkeys) as Hpath.
  unfold scene_composition, fresh_annotations.
  destruct (dict_get (scenes s) id) as [scene|] eqn:Es; [|discriminate].
  destruct (dict_get (scenes st) id) as [scene0|] eqn:E0; [|discriminate].
  cbn [option_map] in Hpath. injection Hpath as Hpath. rewrite <- Hpath.
  destruct (annotate_image w (path scene)) as [found|e] eqn:Ea; [|discriminate].
  cbv zeta. destruct (image_size w (path scene)) as [size|e]; [|discriminate].
  cbn [annotations_of objects get_list].
  destruct (composition_issues id (fst size) (snd size) (map object_entry (fst found)))
    as [l|e]; [|discriminate].
  intros H. injection H as <-.
  set (s1 := put_scene s id (annotated scene (annotations_of found))).
  assert (Hv1 : valid s1) by exact Hvalid.
  destruct (emit_current s1 l Hv1) as (Hi & _ & _ & Hlen).
  destruct (emit_frame s1 l) as (_ & Hsc & _ & _ & Hres & _).
  split; [exact Hi|]. rewrite Hsc.
  split.
  { subst s1. unfold put_scene. cbn [snd set_scenes scenes].
    rewrite (key_paths_set (scenes s) id (annotated scene (annotations_of found))
               scene Es eq_refl).
    exact Hkeys. }
  split; [unfold valid; rewrite Hres, Hlen; exact Hv1|].
  subst s1. unfold put_scene. cbn [snd set_scenes scenes].
  split.
  - rewrite dict_get_set, String.eqb_refl. reflexivity.
  - intros id' H'. rewrite dict_get_set.
    destruct (String.eqb_spec id' id) as [->|Hneq]; [|exact H'].
    cbn [option_map annotated annotations].
    rewrite E0 in H' |- *. rewrite Es in H'. cbn [option_map] in H'.
    rewrite <- Hpath, Ea in H' |- *. reflexivity.
Qed.

Lemma process_all_expected st ids : forall s s',
  key_paths (scenes s) = key_paths (scenes st) -> valid s ->
  process_all w ids s = (Ok tt, s') ->
  issues (current s')
  = (issues (current s) ++ flat_map (scene_composition w st) ids)%list
  /\ key_paths (scenes s') = key_paths (scenes st) /\ valid s'
  /\ (forall id, In id ids \/ fresh_at st s id -> fresh_at st s' id).
Proof.
  unfold process_all.
  induction ids as [|id rest IH]; intros s s' Hkeys Hvalid Hrun.
  - cbn in Hrun. injection Hrun as <-. cbn [flat_map]. rewrite app_nil_r.
    repeat split; try assumption. intros id [[]|H]; exact H.
  - cbn [for_each] in Hrun. unfold bind in Hrun.
    destruct (_process_scene w id s) as [[[]|e] s1] eqn:E1; [|discriminate].
    destruct (process_step_expected st id s s1 Hkeys Hvalid E1)
      as (Hi1 & Hk1 & Hv1 & Hf1 & Hkeep1).
    destruct (IH s1 s' Hk1 Hv1 Hrun) as (Hi & Hk & Hv & Hf).
    split; [rewrite Hi, Hi1; cbn [flat_map]; rewrite app_assoc; reflexivity|].
    split; [exact Hk|]. split; [exact Hv|].
    intros id' [[<-|Hin]|H'].
    + apply Hf. right. exact Hf1.
    + apply Hf. left. exact Hin.
    + apply Hf. right. apply Hkeep1, H'.
Qed.

Lemma compare_pairs_expected st pairs : forall s s',
  valid s ->
  (forall p, In p pairs -> fresh_at st s (fst p) /\ fresh_at st s (snd p)) ->
  for_each pairs (fun p => _compare_scenes (fst p) (snd p)) s = (Ok tt, s') ->
  issues (current s')
  = (issues (current s) ++ flat_map (pair_continuity w st) pairs)%list
  /\ valid s' /\ scenes s' = scenes s /\ results s' = results s
  /\ stored s' = stored s.
Proof.
  induction pairs as [|p rest IH]; intros s s' Hvalid Hfresh Hrun.
  - cbn in Hrun. injection Hrun as <-. cbn [flat_map]. rewrite app_nil_r.
    repeat split; assumption.
  - cbn [for_each] in Hrun. unfold bind in Hrun.
    rewrite compare_scenes_run in Hrun.
    destruct (Hfresh p (or_introl eq_refl)) as [H1 H2].
    destruct (dict_get (scenes s) (fst p)) as [scene1|] eqn:E1; [|discriminate].
    destruct (dict_get (scenes s) (snd p)) as [scene2|] eqn:E2; [|discriminate].
    cbn [option_map] in H1, H2. injection H1 as H1. injection H2 as H2.
    rewrite H1, H2 in Hrun.
    set (l := continuity_issues (fst p) (snd p) (fresh_annotations w st (fst p))
                (fresh_annotations w st (snd p))) in *.
    destruct (emit_current s l Hvalid) as (Hi & _ & _ & Hlen).
    destruct (emit_frame s l) as (_ & Hsc & _ & _ & Hres & _ & _ & Hst & _).
    assert (Hv1 : valid (emit s l)) by (unfold valid; rewrite Hres, Hlen; exact Hvalid).
    destruct (IH (emit s l) s' Hv1) as (Hi' & Hv' & Hsc' & Hres' & Hst').
    + intros q Hq. rewrite Hsc. apply Hfresh. right. exact Hq.
    + exact Hrun.
    + split; [rewrite Hi', Hi; cbn [flat_map]; rewrite app_assoc; reflexivity|].
      split; [exact Hv'|]. split; [congruence|]. split; congruence.
Qed.

(** What a run over scenes returns: the issues of the composition
    check of every scene, in the order of the scenes, then the issues
    of the continuity checks of every pair of neighbours, in order;
    every scene is left with the annotations of this run. *)
Lemma validate_expected st r st' :
  scenes st <> [] -> validate w st = (Ok r, st') ->
  issues (deref (heap st') r) = expected_issues w st
  /\ (forall id, In id (scene_order st) -> fresh_at st st' id)
  /\ results st' = r /\ r < List.length (heap st').
Proof.
  intros Hne. rewrite validate_run.
  destruct (scenes st) as [|e0 rest] eqn:Es; [contradiction|].
  destruct (prelude_facts st) as ((_ & _ & _ & Hkeys) & _ & _).
  destruct (prelude_current st) as [Hv0 Hc0].
  destruct (process_all w (scene_order st) (prelude st)) as [[[]|e] s1] eqn:E1;
    [|discriminate].
  destruct (process_all_expected st _ _ _ (eq_sym Hkeys) Hv0 E1)
    as (Hi1 & Hk1 & Hv1 & Hf1).
  unfold compare_all.
  destruct (for_each (adjacent_pairs (scene_order st)) _ s1) as [[[]|e] s2] eqn:E2;
    [|discriminate].
  destruct (compare_pairs_expected st (adjacent_pairs (scene_order st)) s1 s2 Hv1)
    as (Hi2 & Hv2 & Hsc2 & Hres2 & _); [|exact E2|].
  { intros p Hp. destruct p as [a b]. apply adjacent_pairs_in in Hp.
    split; apply Hf1; left; apply Hp. }
  destruct (store_step w s2) as ((_ & Hres3 & Hlen3 & _) & Hheap3 & _).
  destruct (when (use_firebase s2) (_store_results w) s2) as [[[]|e] s3] eqn:E3;
    [|discriminate].
  cbn [snd] in Hres3, Hlen3, Hheap3.
  intros H. injection H as <- <-.
  cbn [logger snd heap scenes results].
  assert (Hsc3 : scenes s3 = scenes s2).
  { revert E3. unfold when, _store_results, bind, get, now, set_stored, logger, ret, raise.
    destruct (use_firebase s2) eqn:Efb; cbn; [|intros [= <-]; reflexivity].
    rewrite Efb. cbn. destruct (firestore_up w); cbn; [|discriminate].
    destruct (project_up w); cbn; [|discriminate].
    intros [= <-]. reflexivity. }
  split.
  - rewrite Hres3, Hheap3. change (deref (heap s2) (results s2)) with (current s2).
    rewrite Hi2, Hi1, Hc0. reflexivity.
  - split; [|split; [reflexivity|]].
    + intros id Hin. rewrite Hsc3, Hsc2. apply Hf1. left. exact Hin.
    + unfold valid in Hv2. rewrite Hres3, Hlen3. exact Hv2.
Qed.

Lemma composition_issues_shape id wd ht objs l :
  composition_issues id wd ht objs = Ok l ->
  l = [] \/ exists x y, l = [thirds_issue id x y].
Proof.
  unfold composition_issues. destruct objs as [|o objs]; [intros [= <-]; left; reflexivity|].
  destruct (py_max box_area (o :: objs)) as [m|e]; [|discriminate]. cbn [rbind].
  destruct (center m wd ht) as [c|e]; [|discriminate]. cbn [rbind].
  destruct (near_thirds wd ht c); [intros [= <-]; left; reflexivity|].
  destruct (py_int (fst c)) as [x|e]; [|discriminate]. cbn [rbind].
  destruct (py_int (snd c)) as [y|e]; [|discriminate]. cbn [rbind].
  intros [= <-]. right. exists x, y. reflexivity.
Qed.

Lemma scene_composition_shape st id :
  scene_composition w st id = []
  \/ exists x y, scene_composition w st id = [thirds_issue id x y].
Proof.
  unfold scene_composition.
  destruct (dict_get (scenes st) id) as [scene|]; [|left; reflexivity].
  destruct (image_size w (path scene)) as [size|e]; [|left; reflexivity].
  destruct (composition_issues _ _ _ _) as [l|e] eqn:E; [|left; reflexivity].
  apply composition_issues_shape in E. exact E.
Qed.

Lemma continuity_issue_shape a b a1 a2 i :
  In i (continuity_issues a b a1 a2) ->
  scenes_of i = [a; b]
  /\ ((issue_type i = "Continuity Object Missing" /\ severity i = "High")
      \/ (issue_type i = "Continuity Character Position" /\ severity i = "Medium")).
Proof.
  unfold continuity_issues, missing_issues. intros Hin.
  apply in_app_or in Hin. destruct Hin as [Hin|Hin].
  - apply in_map_iff in Hin. destruct Hin as (item & <- & _).
    split; [reflexivity|]. left. split; reflexivity.
  - destruct (faces_comparable a1 a2); [|contradiction].
    apply position_issues_type in Hin. destruct Hin as (H1 & H2 & H3).
    split; [exact H3|]. right. split; assumption.
Qed.

Lemma filter_all {A : Type} (p : A -> bool) l :
  (forall x, In x l -> p x = true) -> filter p l = l.
Proof.
  induction l as [|x l IH]; intros H; [reflexivity|]. cbn [filter].
  rewrite (H x (or_introl eq_refl)), IH; [reflexivity|].
  intros y Hy. apply H. right. exact Hy.
Qed.

Lemma filter_none {A : Type} (p : A -> bool) l :
  (forall x, In x l -> p x = false) -> filter p l = [].
Proof.
  induction l as [|x l IH]; intros H; [reflexivity|]. cbn [filter].
  rewrite (H x (or_introl eq_refl)). apply IH.
  intros y Hy. apply H. right. exact Hy.
Qed.

Lemma filter_split {A : Type} (p : A -> bool) l1 l2 :
  (forall x, In x l1 -> p x = true) -> (forall x, In x l2 -> p x = false) ->
  filter p (l1 ++ l2) = l1.
Proof.
  intros H1 H2. rewrite filter_app, (filter_all p l1 H1), (filter_none p l2 H2).
  apply app_nil_r.
Qed.

Lemma composition_part st i :
  In i (flat_map (scene_composition w st) (scene_order st)) ->
  exists id x y, In id (scene_order st) /\ i = thirds_issue id x y.
Proof.
  intros Hin. apply in_flat_map in Hin. destruct Hin as (id & Hid & Hin).
  destruct (scene_composition_shape st id) as [E|(x & y & E)]; rewrite E in Hin.
  - contradiction.
  - destruct Hin as [<-|[]]. exists id, x, y. split; [exact Hid|reflexivity].
Qed.

Lemma continuity_part st i :
  In i (flat_map (pair_continuity w st) (adjacent_pairs (scene_order st))) ->
  exists a b, In (a, b) (adjacent_pairs (scene_order st))
    /\ scenes_of i = [a; b]
    /\ ((issue_type i = "Continuity Object Missing" /\ severity i = "High")
        \/ (issue_type i = "Continuity Character Position" /\ severity i = "Medium")).
Proof.
  intros Hin. apply in_flat_map in Hin. destruct Hin as ([a b] & Hp & Hin).
  apply continuity_issue_shape in Hin. exists a, b. split; [exact Hp|exact Hin].
Qed.




(** X13.  The queries by kind on the result of a run.  The composition
    query returns the issues of the composition checks and the
    continuity query those of the continuity checks: between them they
    return every issue once, and the issues of the result are the
    former followed by the latter. *)
Theorem result_queries_by_kind (st st' : State) (r : nat) :
  scenes st <> [] -> validate w st = (Ok r, st') ->
  let res := deref (heap st') r in
  get_composition_issues res = flat_map (scene_composition w st) (scene_order st)
  /\ get_continuity_issues res
     = flat_map (pair_continuity w st) (adjacent_pairs (scene_order st))
  /\ issues res = (get_composition_issues res ++ get_continuity_issues res)%list
  /\ List.length (get_composition_issues res) <= List.length (scene_order st).
Proof.
  intros Hne Hrun. cbv zeta.
  destruct (validate_expected st r st' Hne Hrun) as (Hi & _).
  unfold get_composition_issues, get_continuity_issues. rewrite Hi.
  unfold expected_issues.
  assert (H1 : filter (fun issue => contains "composition" (lower (issue_type issue)))
                 (flat_map (scene_composition w st) (scene_order st)
                  ++ flat_map (pair_continuity w st) (adjacent_pairs (scene_order st)))
               = flat_map (scene_composition w st) (scene_order st)).
  { apply filter_split.
    - intros i Hin. apply composition_part in Hin.
      destruct Hin as (id & x & y & _ & ->). reflexivity.
    - intros i Hin. apply continuity_part in Hin.
      destruct Hin as (a & b & _ & _ & [[-> _]|[-> _]]); reflexivity. }
  assert (H2 : filter (fun issue => contains "continuity" (lower (issue_type issue)))
                 (flat_map (scene_composition w st) (scene_order st)
                  ++ flat_map (pair_continuity w st) (adjacent_pairs (scene_order st)))
               = flat_map (pair_continuity w st) (adjacent_pairs (scene_order st))).
  { rewrite filter_app, filter_none, filter_all; [reflexivity| |].
    - intros i Hin. apply continuity_part in Hin.
      destruct Hin as (a & b & _ & _ & [[-> _]|[-> _]]); reflexivity.
    - intros i Hin. apply composition_part in Hin.
      destruct Hin as (id & x & y & _ & ->). reflexivity. }
  rewrite H1, H2. repeat split.
  clear. induction (scene_order st) as [|id ids IH]; [cbn; lia|].
  cbn [flat_map List.length]. rewrite length_app.
  destruct (scene_composition_shape st id) as [->|(x & y & ->)]; cbn; lia.
Qed.

Lemma lower_char_twice c : lower_char (lower_char c) = lower_char c.
Proof. destruct c as [[] [] [] [] [] [] [] []]; reflexivity. Qed.

Lemma lower_twice s : lower (lower s) = lower s.
Proof.
  induction s as [|c s IH]; [reflexivity|]. cbn [lower].
  rewrite lower_char_twice, IH. reflexivity.
Qed.

(** X14.  The query by severity.  The severity asked for is compared
    without regard to case, on any result set.  On the result of a run
    the query for [low] returns the composition issues, the query for
    [high] the missing objects, the query for [medium] the changes of
    position, in the order of the result; any other severity returns
    nothing. *)
Theorem result_queries_by_severity (st st' : State) (r : nat) :
  scenes st <> [] -> validate w st = (Ok r, st') ->
  let res := deref (heap st') r in
  (forall any wanted,
     get_issues_by_severity any (lower wanted) = get_issues_by_severity any wanted)
  /\ (forall wanted, lower wanted = "low" ->
        get_issues_by_severity res wanted = get_composition_issues res)
  /\ (forall wanted, lower wanted = "high" ->
        get_issues_by_severity res wanted
        = filter (fun i => String.eqb (issue_type i) "Continuity Object Missing")
            (issues res))
  /\ (forall wanted, lower wanted = "medium" ->
        get_issues_by_severity res wanted
        = filter (fun i => String.eqb (issue_type i) "Continuity Character Position")
            (issues res))
  /\ (forall wanted,
        lower wanted <> "low" -> lower wanted <> "medium" -> lower wanted <> "high" ->
        get_issues_by_severity res wanted = []).
Proof.
  intros Hne Hrun. cbv zeta.
  split.
  { intros any wanted. unfold get_issues_by_severity. rewrite lower_twice. reflexivity. }
  destruct (validate_expected st r st' Hne Hrun) as (Hi & _).
  assert (Hsev : forall i, In i (issues (deref (heap st') r)) ->
            (issue_type i = "Composition Rule of Thirds" /\ severity i = "Low")
            \/ (issue_type i = "Continuity Object Missing" /\ severity i = "High")
            \/ (issue_type i = "Continuity Character Position"
                /\ severity i = "Medium")).
  { intros i Hin. rewrite Hi in Hin. unfold expected_issues in Hin.
    apply in_app_or in Hin. destruct Hin as [Hin|Hin].
    - apply composition_part in Hin. destruct Hin as (id & x & y & _ & ->).
      left. split; reflexivity.
    - apply continuity_part in Hin. destruct Hin as (a & b & _ & _ & H).
      right. exact H. }
  unfold get_issues_by_severity, get_composition_issues.
  split; [|split; [|split]].
  - intros wanted ->. apply filter_ext_in. intros i Hin.
    destruct (Hsev i Hin) as [[-> ->]|[[-> ->]|[-> ->]]]; reflexivity.
  - intros wanted ->. apply filter_ext_in. intros i Hin.
    destruct (Hsev i Hin) as [[-> ->]|[[-> ->]|[-> ->]]]; reflexivity.
  - intros wanted ->. apply filter_ext_in. intros i Hin.
    destruct (Hsev i Hin) as [[-> ->]|[[-> ->]|[-> ->]]]; reflexivity.
  - intros wanted H1 H2 H3. apply filter_none. intros i Hin.
    apply String.eqb_neq.
    destruct (Hsev i Hin) as [[_ ->]|[[_ ->]|[_ ->]]];
      [change (lower "Low") with "low"|change (lower "High") with "high"
      |change (lower "Medium") with "medium"]; congruence.
Qed.



End ExpectedIssues.

(* ================================================================== *)
(** * The validation run: what it leaves alone *)
(* ================================================================== *)

Section RunFrames.

Variable w : World.

(** A relation between the states of a validator that every step of a
    run keeps is kept by the run. *)
Lemma validate_preserves (R : State -> State -> Prop) :
  (forall a, R a a) ->
  (forall a b c, R a b -> R b c -> R a c) ->
  (forall st, R st (prelude st)) ->
  (forall id st, R st (snd (_process_scene w id st))) ->
  (forall id1 id2 st, R st (snd (_compare_scenes id1 id2 st))) ->
  (forall st, R st (snd (when (use_firebase st) (_store_results w) st))) ->
  (forall lv msg st, R st (snd (logger lv msg st))) ->
  forall st, R st (snd (validate w st)).
Proof.
  intros Hrefl Htrans Hpre Hproc Hcomp Hstore Hlog st.
  rewrite validate_run. destruct (scenes st) as [|kv rest]; [apply Hlog|].
  pose proof (for_each_frame R (_process_scene w) (scene_order st) Hrefl Htrans Hproc
                (prelude st)) as H1.
  fold (process_all w (scene_order st)) in H1.
  destruct (process_all w (scene_order st) (prelude st)) as [[[]|e] s1]; cbn [snd] in *.
  2:{ eapply Htrans; [apply Hpre|exact H1]. }
  pose proof (for_each_frame R (fun p => _compare_scenes (fst p) (snd p))
                (adjacent_pairs (scene_order st)) Hrefl Htrans
                (fun p s => Hcomp (fst p) (snd p) s) s1) as H2.
  fold (compare_all (scene_order st)) in H2.
  destruct (compare_all (scene_order st) s1) as [[[]|e] s2]; cbn [snd] in *.
  2:{ eapply Htrans; [apply Hpre|]. eapply Htrans; [exact H1|exact H2]. }
  pose proof (Hstore s2) as H3.
  destruct (when (use_firebase s2) (_store_results w) s2) as [[[]|e] s3]; cbn [snd] in *.
  - eapply Htrans; [apply Hpre|]. eapply Htrans; [exact H1|].
    eapply Htrans; [exact H2|]. eapply Htrans; [exact H3|apply Hlog].
  - eapply Htrans; [apply Hpre|]. eapply Htrans; [exact H1|].
    eapply Htrans; [exact H2|exact H3].
Qed.

Lemma process_scene_steps id st :
  snd (_process_scene w id st) = st
  \/ exists scene a l,
       dict_get (scenes st) id = Some scene
       /\ (snd (_process_scene w id st) = put_scene st id (annotated scene a)
           \/ snd (_process_scene w id st)
              = emit (put_scene st id (annotated scene a)) l).
Proof.
  rewrite process_scene_run.
  destruct (dict_get (scenes st) id) as [scene|] eqn:E; [|left; reflexivity].
  destruct (annotate_image w (path scene)) as [found|e]; [|left; reflexivity].
  cbv zeta. right. exists scene, (annotations_of found).
  destruct (image_size w (path scene)) as [size|e];
    [|exists []; split; [reflexivity|left; reflexivity]].
  destruct (composition_issues _ _ _ _) as [l|e];
    [|exists []; split; [reflexivity|left; reflexivity]].
  exists l. split; [reflexivity|right; reflexivity].
Qed.

Lemma compare_scenes_steps id1 id2 st :
  exists l, snd (_compare_scenes id1 id2 st) = emit st l.
Proof.
  rewrite compare_scenes_run.
  destruct (dict_get (scenes st) id1); [|exists []; reflexivity].
  destruct (dict_get (scenes st) id2); [|exists []; reflexivity].
  eexists. reflexivity.
Qed.

Lemma store_steps st :
  let out := when (use_firebase st) (_store_results w) st in
  scenes (snd out) = scenes st /\ scene_order (snd out) = scene_order st
  /\ project_id (snd out) = project_id st /\ use_firebase (snd out) = use_firebase st
  /\ heap (snd out) = heap st /\ results (snd out) = results st
  /\ stored (snd out)
     = (stored st
        ++ (if use_firebase st && firestore_up w
            then ResultDocument (clock st) (current st)
                 :: (if project_up w
                     then [ProjectUpdate (S (clock st)) (clock st)
                             (List.length (issues (current st)))]
                     else [])
            else []))%list
  /\ fst out = if use_firebase st && negb (firestore_up w && project_up w)
               then Raise ServiceError else Ok tt.
Proof.
  cbv zeta. unfold when, _store_results, bind, get.
  destruct (use_firebase st) eqn:E; cbn [negb andb]; rewrite ?E; cbn [negb].
  - cbn [now]. destruct (firestore_up w), (project_up w); cbn;
      rewrite <- ?app_assoc, ?app_nil_r; repeat split; exact E.
  - cbn. rewrite app_nil_r. repeat split; exact E.
Qed.

Lemma process_all_keeps_store order st :
  use_firebase (snd (process_all w order st)) = use_firebase st
  /\ stored (snd (process_all w order st)) = stored st.
Proof.
  unfold process_all.
  apply (for_each_frame (fun a b => use_firebase b = use_firebase a
                                    /\ stored b = stored a)).
  - intros a. split; reflexivity.
  - intros a b c [H1 H2] [H3 H4]. split; congruence.
  - intros id s.
    destruct (process_scene_steps id s) as [->|(scene & a & l & _ & [->| ->])];
      [split; reflexivity|split; reflexivity|].
    destruct (emit_frame (put_scene s id (annotated scene a)) l)
      as (_ & _ & _ & H4 & _ & _ & _ & H8 & _).
    rewrite H4, H8. split; reflexivity.
Qed.

Lemma compare_all_keeps_store order st :
  use_firebase (snd (compare_all order st)) = use_firebase st
  /\ stored (snd (compare_all order st)) = stored st.
Proof.
  unfold compare_all.
  apply (for_each_frame (fun a b => use_firebase b = use_firebase a
                                    /\ stored b = stored a)).
  - intros a. split; reflexivity.
  - intros a b c [H1 H2] [H3 H4]. split; congruence.
  - intros p s. destruct (compare_scenes_steps (fst p) (snd p) s) as [l ->].
    destruct (emit_frame s l) as (_ & _ & _ & H4 & _ & _ & _ & H8 & _).
    split; assumption.
Qed.

(** X17.  A run changes nothing of the scenes but their annotations:
    the project, the order of the scenes, the keys of the scenes and
    the path, timestamp and metadata of every scene are after the run
    what they were before, whether the run returns or raises. *)
Theorem validate_keeps_scene_data (st : State) :
  let st' := snd (validate w st) in
  project_id st' = project_id st
  /\ use_firebase st' = use_firebase st
  /\ scene_order st' = scene_order st
  /\ dict_keys (scenes st') = dict_keys (scenes st)
  /\ forall id, option_map scene_data (dict_get (scenes st') id)
                = option_map scene_data (dict_get (scenes st) id).
Proof.
  cbv zeta.
  set (R := fun a b : State =>
              project_id b = project_id a /\ use_firebase b = use_firebase a
              /\ scene_order b = scene_order a
              /\ dict_keys (scenes b) = dict_keys (scenes a)
              /\ forall id, option_map scene_data (dict_get (scenes b) id)
                            = option_map scene_data (dict_get (scenes a) id)).
  assert (Hrefl : forall a, R a a) by (intros a; repeat split).
  assert (Htrans : forall a b c, R a b -> R b c -> R a c).
  { intros a b c (H1 & H2 & H3 & H4 & H5) (G1 & G2 & G3 & G4 & G5).
    split; [congruence|]. split; [congruence|]. split; [congruence|].
    split; [congruence|]. intros id. rewrite G5. apply H5. }
  assert (Hemit : forall s l, R s (emit s l)).
  { intros s l. destruct (emit_frame s l) as (H1 & H2 & H3 & H4 & _).
    unfold R. rewrite H1, H2, H3, H4. repeat split. }
  assert (Hput : forall s id scene a,
            dict_get (scenes s) id = Some scene ->
            R s (put_scene s id (annotated scene a))).
  { intros s id scene a Hget. unfold R, put_scene. cbn [snd set_scenes scenes
      project_id use_firebase scene_order].
    repeat split.
    - apply dict_keys_set_old. rewrite Hget. discriminate.
    - intros id'. rewrite dict_get_set.
      destruct (String.eqb_spec id' id) as [->|]; [|reflexivity].
      rewrite Hget. reflexivity. }
  apply (validate_preserves R); try assumption.
  - intros id s.
    destruct (process_scene_steps id s) as [->|(scene & a & l & Hget & [->| ->])];
      [apply Hrefl|apply Hput, Hget|].
    eapply Htrans; [apply Hput, Hget|apply Hemit].
  - intros id1 id2 s. destruct (compare_scenes_steps id1 id2 s) as [l ->]. apply Hemit.
  - intros s. destruct (store_steps s) as (H1 & H2 & H3 & H4 & _).
    unfold R. rewrite H1, H2, H3, H4. repeat split.
  - intros lv msg s. repeat split.
Qed.

End RunFrames.

Section StoreShape.

Variable w : World.

(** The store plays no part in the checks of the scenes. *)
Lemma phases_without_store first second order :
  process_all (with_store w first second) order = process_all w order.
Proof. reflexivity. Qed.

(** The state of a run when it comes to the store, with what the store
    holds then. *)
Lemma validate_to_store st :
  scenes st <> [] ->
  (exists e, fst (validate w st) = Raise e
             /\ stored (snd (validate w st)) = stored st)
  \/ exists s2,
       compare_all (scene_order st)
         (snd (process_all w (scene_order st) (prelude st))) = (Ok tt, s2)
       /\ fst (process_all w (scene_order st) (prelude st)) = Ok tt
       /\ use_firebase s2 = use_firebase st /\ stored s2 = stored st
       /\ validate w st
          = match when (use_firebase s2) (_store_results w) s2 with
            | (Raise e, s) => (Raise e, s)
            | (Ok _, s3) =>
                (Ok (results s3),
                 snd (logger INFO
                        ("Validation completed with "
                         ++ str_of_nat (List.length (issues (current s3)))
                         ++ " issues found") s3))
            end.
Proof.
  intros Hne. rewrite validate_run. destruct (scenes st); [contradiction|].
  destruct (process_all_keeps_store w (scene_order st) (prelude st)) as [H1 H2].
  destruct (process_all w (scene_order st) (prelude st)) as [[[]|e1] s1];
    cbn [fst snd] in *.
  2:{ left. exists e1. split; [reflexivity|exact H2]. }
  destruct (compare_all_keeps_store (scene_order st) s1) as [H3 H4].
  destruct (compare_all (scene_order st) s1) as [[[]|e2] s2]; cbn [fst snd] in *.
  2:{ left. exists e2. split; [reflexivity|rewrite H4; exact H2]. }
  right. exists s2. split; [reflexivity|]. split; [reflexivity|].
  split; [rewrite H3; exact H1|]. split; [rewrite H4; exact H2|reflexivity].
Qed.

End StoreShape.

Section StoreWrites.

Variable w : World.

(** X16.  What a run writes to the document store.  A run over no
    scene, a run of a validator made without the store and a run whose
    first write fails write nothing.  A run with the store that returns
    has made two writes, in this order: the document of the result set
    it returns, then the update of the project document, which names
    that document and the number of its issues.  A run that raises has
    written nothing, or the result document alone: this is the run
    whose second write fails, which raises although the result document
    is in the store, as a run does that would return were the second
    write to succeed. *)
Theorem validate_store (st : State) :
  (scenes st = [] \/ use_firebase st = false \/ firestore_up w = false ->
     stored (snd (validate w st)) = stored st)
  /\ (forall r st', validate w st = (Ok r, st') -> scenes st <> [] ->
        use_firebase st = true ->
        firestore_up w = true /\ project_up w = true
        /\ exists t,
             stored st'
             = (stored st
                ++ [ResultDocument t (deref (heap st') r);
                    ProjectUpdate (S t) t
                      (List.length (issues (deref (heap st') r)))])%list)
  /\ (forall e, fst (validate w st) = Raise e ->
        stored (snd (validate w st)) = stored st
        \/ (e = ServiceError /\ use_firebase st = true
            /\ firestore_up w = true /\ project_up w = false
            /\ exists t,
                 stored (snd (validate w st))
                 = (stored st
                    ++ [ResultDocument t (current (snd (validate w st)))])%list))
  /\ (forall r st', scenes st <> [] -> use_firebase st = true ->
        validate (with_store w true true) st = (Ok r, st') ->
        exists st'' t,
          validate (with_store w true false) st = (Raise ServiceError, st'')
          /\ stored st''
             = (stored st ++ [ResultDocument t (deref (heap st') r)])%list).
Proof.
  split; [|split; [|split]].
  - intros H. destruct (scenes st) as [|kv rest] eqn:Es.
    { rewrite validate_run, Es. reflexivity. }
    destruct (validate_to_store w st) as [(e & _ & Hs)|(s2 & _ & _ & Hfb & Hst & Hrun)];
      [rewrite Es; discriminate|exact Hs|].
    rewrite Hrun.
    destruct (store_steps w s2) as (_ & _ & _ & _ & _ & _ & Hsto & _).
    cbv zeta in Hsto.
    assert (Hoff : use_firebase s2 && firestore_up w = false).
    { rewrite Hfb. destruct H as [H|[H|H]]; [discriminate|rewrite H; reflexivity|].
      rewrite H. apply andb_false_r. }
    rewrite Hoff, app_nil_r in Hsto.
    destruct (when (use_firebase s2) (_store_results w) s2) as [[[]|e3] s3];
      cbn [fst snd logger stored] in *; congruence.
  - intros r st' Hrun Hne Hfb.
    destruct (validate_to_store w st Hne)
      as [(e & He & _)|(s2 & _ & _ & Hfb2 & Hst & Hshape)].
    { rewrite Hrun in He. discriminate. }
    rewrite Hshape in Hrun.
    destruct (store_steps w s2) as (_ & _ & _ & _ & Hheap & Hres & Hsto & Hfst).
    cbv zeta in Hsto, Hfst.
    destruct (when (use_firebase s2) (_store_results w) s2) as [[[]|e3] s3];
      cbn [fst snd] in *; [|discriminate].
    rewrite Hfb2, Hfb in Hsto, Hfst. cbn [andb] in Hsto, Hfst.
    destruct (firestore_up w); cbn in Hfst; [|discriminate].
    destruct (project_up w); cbn in Hfst; [|discriminate].
    injection Hrun as <- <-. split; [reflexivity|]. split; [reflexivity|].
    exists (clock s2). cbn [logger snd stored heap].
    rewrite Hsto, Hst, Hres, Hheap. reflexivity.
  - intros e He. destruct (scenes st) as [|kv rest] eqn:Es.
    { rewrite validate_run, Es in He. discriminate. }
    destruct (validate_to_store w st)
      as [(e' & _ & Hs)|(s2 & _ & _ & Hfb2 & Hst & Hshape)];
      [rewrite Es; discriminate|left; exact Hs|].
    rewrite Hshape in He |- *.
    destruct (store_steps w s2) as (_ & _ & _ & _ & Hheap & Hres & Hsto & Hfst).
    cbv zeta in Hsto, Hfst.
    destruct (when (use_firebase s2) (_store_results w) s2) as [[[]|e3] s3];
      cbn [fst snd] in *; [discriminate|].
    rewrite Hfb2 in Hsto, Hfst. injection He as <-.
    destruct (use_firebase st); cbn [andb] in *; [|discriminate].
    destruct (firestore_up w); cbn [andb negb] in *.
    + destruct (project_up w); [discriminate|]. right.
      injection Hfst as <-. repeat split. exists (clock s2).
      rewrite Hsto, Hst. unfold current. rewrite Hres, Hheap. reflexivity.
    + left. rewrite Hsto, app_nil_r. exact Hst.
  - intros r st' Hne Hfb. rewrite !validate_run.
    destruct (scenes st); [contradiction|].
    rewrite !phases_without_store.
    destruct (process_all_keeps_store w (scene_order st) (prelude st)) as [H1 H2].
    destruct (process_all w (scene_order st) (prelude st)) as [[[]|e1] s1];
      cbn [fst snd] in *; [|discriminate].
    destruct (compare_all_keeps_store (scene_order st) s1) as [H3 H4].
    destruct (compare_all (scene_order st) s1) as [[[]|e2] s2];
      cbn [fst snd] in *; [|discriminate].
    assert (Hfb2 : use_firebase s2 = true) by (rewrite H3, H1; exact Hfb).
    destruct (store_steps (with_store w true true) s2)
      as (_ & _ & _ & _ & Hheap & Hres & _ & _).
    destruct (store_steps (with_store w true false) s2)
      as (_ & _ & _ & _ & _ & _ & Hsto & Hfst).
    cbv zeta in *.
    destruct (when (use_firebase s2) (_store_results (with_store w true true)) s2)
      as [[[]|e3] s3]; cbn [fst snd] in *; [|discriminate].
    intros [= <- <-].
    destruct (when (use_firebase s2) (_store_results (with_store w true false)) s2)
      as [[[]|e3] s3']; cbn [fst snd] in *;
      rewrite Hfb2 in Hsto, Hfst; cbn in Hsto, Hfst; [discriminate|].
    injection Hfst as ->. exists s3', (clock s2). split; [reflexivity|].
    rewrite Hsto, H4, H2. cbn [logger snd heap]. rewrite Hres, Hheap. reflexivity.
Qed.

End StoreWrites.

(* ================================================================== *)
(** * Reports, fixes and scenes that do not differ *)
(* ================================================================== *)

Section ReportsAndFixes.

(** A loop that only logs leaves all of the state but the log. *)
Lemma log_loop (msg : string -> string) l : forall st,
  for_each l (fun x => logger INFO (msg x)) st
  = (Ok tt,
     mkState (SceneValidator.project_id st) (scenes st) (scene_order st)
       (SceneValidator.use_firebase st) (results st) (heap st)
       (log st ++ map (fun x => (INFO, msg x)) l) (clock st) (stored st)).
Proof.
  induction l as [|x l IH]; intros st; cbn [for_each map].
  - unfold ret. rewrite app_nil_r. destruct st; reflexivity.
  - unfold bind. unfold logger at 1. rewrite IH.
    cbn [SceneValidator.project_id scenes scene_order SceneValidator.use_firebase
         results heap log clock stored].
    rewrite <- app_assoc. reflexivity.
Qed.

Lemma dict_mem_nonempty {V : Type} (d : dict V) k : dict_mem d k = true -> d <> [].
Proof. intros H ->. discriminate H. Qed.

(** X18.  [apply_suggested_fixes] applies nothing.  For a scene the
    validator does not have it raises ValueError and leaves the
    validator as it was.  Otherwise it returns True whatever the fix
    ids are, even ids of no issue: the scenes, their order and the
    result set are as before, the log has one line more for the call
    and one for each fix id, and a run of [validate] afterwards finds
    what it would have found without the call. *)
Theorem apply_fixes_applies_nothing (st : State) (scene_id : string)
  (fix_ids : list string) :
  (dict_mem (scenes st) scene_id = false ->
     apply_suggested_fixes scene_id fix_ids st = (Raise ValueError, st))
  /\ (dict_mem (scenes st) scene_id = true ->
      exists st',
        apply_suggested_fixes scene_id fix_ids st = (Ok true, st')
        /\ scenes st' = scenes st
        /\ scene_order st' = scene_order st
        /\ results st' = results st
        /\ heap st' = heap st
        /\ stored st' = stored st
        /\ log st'
           = List.app (log st)
               ((INFO, "Applying " ++ str_of_nat (List.length fix_ids)
                         ++ " fixes to scene " ++ scene_id)
                :: map (fun fix_id =>
                          (INFO, "Applied fix " ++ fix_id ++ " to scene " ++ scene_id))
                       fix_ids)
        /\ forall w, issues_of (validate w st') = issues_of (validate w st)).
Proof.
  unfold apply_suggested_fixes. split; intros Hm.
  - unfold bind at 1. unfold get. unfold bind at 1. rewrite Hm. reflexivity.
  - unfold bind at 1. unfold get. unfold bind at 1. rewrite Hm. unfold ret at 1.
    unfold bind at 1. unfold logger at 1. unfold bind at 1.
    rewrite log_loop.
    cbn [SceneValidator.project_id scenes scene_order SceneValidator.use_firebase
         results heap log clock stored].
    eexists. split; [reflexivity|].
    cbn [SceneValidator.project_id scenes scene_order SceneValidator.use_firebase
         results heap log clock stored].
    repeat (split; [reflexivity|]). split.
    { rewrite <- app_assoc. reflexivity. }
    intros w. symmetry. apply validate_sync.
    + repeat split.
    + apply (dict_mem_nonempty _ _ Hm).
Qed.

End ReportsAndFixes.

Section ReportOfRun.

Variable w : World.
Variable strftime_date : nat -> string.
Variable open_write : string -> result unit.


End ReportOfRun.

Section SameScenes.

(** A number is not more than 0.4 away from itself, whatever it is. *)
Lemma self_shift_small (x : float) : (0.4 <? abs (x - x))%float = false.
Proof.
  rewrite ltb_spec, abs_spec, sub_spec.
  destruct (Prim2SF x) as [s|s| |s m e].
  - destruct s; vm_compute; reflexivity.
  - destruct s; vm_compute; reflexivity.
  - vm_compute; reflexivity.
  - cbv beta iota zeta delta [SF64sub SFsub]. rewrite Z.sub_diag. reflexivity.
Qed.

Lemma position_issues_self id1 id2 l : forall i,
  position_issues id1 id2 i (combine l l) = [].
Proof.
  induction l as [|f l IH]; intros i; cbn [combine position_issues]; [reflexivity|].
  unfold face_shift. rewrite self_shift_small. apply IH.
Qed.

Lemma dict_mem_in {V : Type} (d : dict V) item :
  In item d -> dict_mem d (fst item) = true.
Proof.
  unfold dict_mem. induction d as [|[k v] d IH]; intros H; [destruct H|].
  cbn [dict_get]. destruct (String.eqb_spec (fst item) k) as [_|Hne]; [reflexivity|].
  destruct H as [<-|H]; [contradiction Hne; reflexivity|]. apply IH, H.
Qed.

Lemma missing_items_self d : missing_items d d = [].
Proof.
  unfold missing_items. apply filter_none. intros item Hin.
  rewrite (dict_mem_in d item Hin). apply andb_false_r.
Qed.

Lemma continuity_issues_self id1 id2 a : continuity_issues id1 id2 a a = [].
Proof.
  unfold continuity_issues, missing_issues. rewrite missing_items_self.
  cbn [map app]. destruct (faces_comparable a a); [|reflexivity].
  apply position_issues_self.
Qed.

(** X20.  Scenes that do not differ.  The continuity check of two
    scenes with the same annotations (the same objects and faces, the
    coordinates of the faces in the range of the division) adds no
    issue, whatever the annotations are, and leaves the validator as it
    was. *)
Theorem same_annotations_no_issue (st : State) (scene1_id scene2_id : string)
  (scene1 scene2 : SceneEntry) :
  dict_get (scenes st) scene1_id = Some scene1 ->
  dict_get (scenes st) scene2_id = Some scene2 ->
  faces_in_range (annotations scene1) = true ->
  annotations scene1 = annotations scene2 ->
  _compare_scenes scene1_id scene2_id st = (Ok tt, st).
Proof.
  intros H1 H2 _ Ha. rewrite compare_scenes_run, H1, H2, Ha.
  rewrite continuity_issues_self. reflexivity.
Qed.

End SameScenes.

(* ================================================================== *)
(** * The properties at sample inputs *)
(* ================================================================== *)


Lemma result_queries_by_kind_witness :
  List.length (get_composition_issues
                 (deref (heap (snd (validate sample_world ready_state))) 1))
  <= List.length (scene_order ready_state).
Proof.
  destruct (result_queries_by_kind sample_world ready_state
              (snd (validate sample_world ready_state)) 1) as (_ & _ & _ & H).
  - vm_compute. discriminate.
  - vm_compute. reflexivity.
  - exact H.
Defined.

Lemma result_queries_by_severity_witness :
  get_issues_by_severity
    (deref (heap (snd (validate sample_world ready_state))) 1) "LOW"
  = get_composition_issues
      (deref (heap (snd (validate sample_world ready_state))) 1).
Proof.
  destruct (result_queries_by_severity sample_world ready_state
              (snd (validate sample_world ready_state)) 1) as (_ & H & _).
  - vm_compute. discriminate.
  - vm_compute. reflexivity.
  - apply H. reflexivity.
Defined.



Lemma same_annotations_no_issue_witness :
  _compare_scenes "s1" "s2" twin_state = (Ok tt, twin_state).
Proof.
  apply (same_annotations_no_issue twin_state "s1" "s2"
           (entry_of twin_world "a.jpg") (entry_of twin_world "b.jpg"));
    reflexivity.
Defined.

Lemma character_displacement_rule_witness :
  exists st' l,
    _compare_scenes "s1" "s2" shifted_state = (Ok tt, st')
    /\ issues (current st') = l
    /\ In (position_issue "s1" "s2" 0) l.
Proof.
  destruct (character_displacement_rule shifted_state "s1" "s2"
              (entry_of shifted_world "a.jpg") (entry_of shifted_world "b.jpg")
              eq_refl eq_refl Nat.lt_0_1)
    as (st' & before & positions & Hrun & Hissues & _ & _ & _ & _ & Hpos & _).
  exists st', (before ++ positions)%list. split; [exact Hrun|].
  split; [rewrite Hissues; reflexivity|].
  apply in_or_app. right. apply Hpos. split; [reflexivity|].
  exists (face_entry (face_at 100)), (face_entry (face_at 110)).
  split; [reflexivity|]. split; [reflexivity|]. vm_compute. reflexivity.
Defined.
